(** * Spectrogram-Generator: a shallow embedding of [gen_spectrograms.ipynb]

    The notebook renders one grayscale spectrogram per [.wav] clip and then
    moves a ratio-determined share of every class of images into a test
    directory.  This development embeds the parts of the notebook that carry
    numeric or file-system policy and proves properties of them:

    - [Float64]: Python's [float] (IEEE-754 binary64, round to nearest, ties
      to even) as the rationals with the rounding written out after every
      operation.  The exponent range is left unbounded: overflow, subnormal
      numbers, infinities and NaN are not modelled.
    - [Numpy]: row slicing [Y[a:b, :]] with Python's index normalisation and
      the zero-size reduction error of [amplitude_to_db].
    - [Spectrogram]: the bin arithmetic, the crop and the figure geometry of
      [save_spectrogram_image].
    - [Fs]: a directory tree with the operations of [os], [os.path] and
      [shutil] that the notebook calls.
    - [Scanner]: [get_all_wavfiles], [create_storage_for_images] and the
      top-level render loop.
    - [Splitter]: [get_files_from_folder] and
      [generate_training_and_testing_datasets]. *)

From Stdlib Require Import Bool String Ascii DecimalString.
From Stdlib Require Import ZArith QArith Qround Qpower Lia Lqa.
From Stdlib Require Floats.
From Stdlib Require Import List Permutation Morphisms.
Import ListNotations.

(** ** Python exceptions and results *)

Module Py.

Inductive exn : Type :=
| ZeroDivisionError
| ValueError
| IndexError
| StopIteration
| FileNotFoundError
| FileExistsError
| NotADirectoryError
| IsADirectoryError.

Inductive result (A : Type) : Type :=
| Ok (a : A)
| Raise (e : exn).

Arguments Ok {A} a.
Arguments Raise {A} e.

Definition bind {A B : Type} (r : result A) (k : A -> result B) : result B :=
  match r with
  | Ok a => k a
  | Raise e => Raise e
  end.

Definition succeeds {A : Type} (r : result A) : Prop := exists a, r = Ok a.

End Py.

Import Py.

Declare Scope py_scope.
Delimit Scope py_scope with py.
Notation "x <- c ;; k" := (Py.bind c (fun x => k))
  (at level 61, c at next level, right associativity) : py_scope.

(** ** Python floats *)

Module Float64.

#[local] Open Scope Q_scope.

Definition pow2 (e : Z) : Q := 2 ^ e.

(** [ilog2 q] is the binary exponent of a positive [q]: the [e] with
    [2^e <= q < 2^(e+1)]. *)
Definition ilog2 (q : Q) : Z :=
  let e0 := (Z.log2 (Qnum q) - Z.log2 (Zpos (Qden q)))%Z in
  if Qle_bool (pow2 e0) q then e0 else (e0 - 1)%Z.

(** Rounding to the nearest integer, ties to the even one: IEEE-754's
    roundTiesToEven on integers, which is what [numpy.rint] and therefore
    [numpy.round] with no decimals compute. *)
Definition round_half_even (x : Q) : Z :=
  let f := Qfloor x in
  match Qcompare (x - inject_Z f) (1 # 2) with
  | Lt => f
  | Gt => (f + 1)%Z
  | Eq => if Z.even f then f else (f + 1)%Z
  end.

(** A positive value rounded to 53 significant bits. *)
Definition rnd_pos (q : Q) : Q :=
  let u := pow2 (ilog2 q - 52) in
  inject_Z (round_half_even (q / u)) * u.

(** The binary64 value nearest to [q]. *)
Definition rnd64 (q : Q) : Q :=
  match Qnum q with
  | Z0 => 0
  | Zpos _ => Qred (rnd_pos q)
  | Zneg _ => Qred (- rnd_pos (- q))
  end.

(** [x / y]: true division raises on a zero divisor.  The quotient is
    rounded with the exponent unbounded: where binary64 would overflow to
    infinity or underflow to zero the value here differs from the code's,
    so the theorems about quotients bound their arguments (or are
    conditional on a result). *)
Definition truediv (x y : Q) : result Q :=
  if Qeq_bool y 0 then Raise ZeroDivisionError else Ok (rnd64 (x / y)).

Definition fmul (x y : Q) : Q := rnd64 (x * y).

Definition fsub (x y : Q) : Q := rnd64 (x - y).

(** [int(x)] truncates toward zero. *)
Definition py_int (x : Q) : Z := Z.quot (Qnum x) (Zpos (Qden x)).

(** [numpy.round(x)]: the result is an integer-valued float, kept as the
    integer it denotes. *)
Definition np_round (x : Q) : Z := round_half_even x.

End Float64.

(** ** The numpy operations of [save_spectrogram_image] *)

Module Numpy.

Definition matrix (A : Type) : Type := list (list A).

(** A matrix is zero-size when it has no rows or its rows have no columns. *)
Definition zero_size {A : Type} (M : matrix A) : bool :=
  forallb (fun row => match row with [] => true | _ :: _ => false end) M.

(** One bound of a slice over [len] rows, as Python adjusts it: a negative
    index counts from the end, and the result is clamped to [0, len]. *)
Definition slice_bound (i len : Z) : Z :=
  if (i <? 0)%Z then Z.max (i + len) 0 else Z.min i len.

(** [Y[start:stop, :]]. *)
Definition slice_rows {A : Type} (start stop : Z) (Y : matrix A) : matrix A :=
  let len := Z.of_nat (length Y) in
  let lo := slice_bound start len in
  let hi := slice_bound stop len in
  firstn (Z.to_nat (hi - lo)) (skipn (Z.to_nat lo) Y).

(** [ref], [clim_lo] and [clim_hi] are a value or a callable applied to a
    matrix. *)
Inductive policy (F : Type) : Type :=
| Fixed (v : F)
| Reduction (f : list F -> F).

Arguments Fixed {F} v.
Arguments Reduction {F} f.

Definition resolve {F : Type} (p : policy F) (M : matrix F) : F :=
  match p with
  | Fixed v => v
  | Reduction f => f (concat M)
  end.

Section Decibel.

Variable F : Type.
(** [decibel ref m]: the logarithmic map of one magnitude against the
    reference value. *)
Variable decibel : F -> F -> F.
(** [floor_at peak v]: [v] raised to at least [peak - top_db]. *)
Variable floor_at : F -> F -> F.
(** The maximum of a non-empty array. *)
Variable array_max : list F -> F.

(** [librosa.amplitude_to_db(S, ref=ref)].  On a zero-size array the
    maximum it takes (of [S] when [ref] is [np.max], of the log-spectrum
    for the [top_db] floor otherwise) raises [ValueError]. *)
Definition amplitude_to_db (S : matrix F) (ref : policy F) : result (matrix F) :=
  if zero_size S then Raise ValueError
  else
    let ref_value := resolve ref S in
    let log_spec := map (map (decibel ref_value)) S in
    let peak := array_max (concat log_spec) in
    Ok (map (map (floor_at peak)) log_spec).

End Decibel.

End Numpy.

(** ** The file system *)

Module Fs.

#[local] Open Scope string_scope.
#[local] Open Scope py_scope.

(** A tree of named entries.  The entries of a directory are kept in the
    order in which the system lists them, which is arbitrary. *)
#[warnings="-register-all"]
Inductive node : Type :=
| File (content : string)
| Dir (entries : list (string * node)).

(** A path from the root of the tree, one component per directory level. *)
Definition path : Type := list string.

Fixpoint assoc (x : string) (es : list (string * node)) : option node :=
  match es with
  | [] => None
  | (y, n) :: es' => if x =? y then Some n else assoc x es'
  end.

Fixpoint upsert (x : string) (v : node) (es : list (string * node))
  : list (string * node) :=
  match es with
  | [] => [(x, v)]
  | (y, n) :: es' => if x =? y then (x, v) :: es' else (y, n) :: upsert x v es'
  end.

Definition del (x : string) (es : list (string * node)) : list (string * node) :=
  filter (fun e => negb (x =? fst e)) es.

Fixpoint get (p : path) (n : node) : option node :=
  match p with
  | [] => Some n
  | x :: p' =>
      match n with
      | File _ => None
      | Dir es =>
          match assoc x es with
          | Some c => get p' c
          | None => None
          end
      end
  end.

(** [put p v n]: the entry at [p] becomes [v]; its parent has to be a
    directory. *)
Fixpoint put (p : path) (v : node) (n : node) : option node :=
  match p with
  | [] => None
  | x :: p' =>
      match n with
      | File _ => None
      | Dir es =>
          match p' with
          | [] => Some (Dir (upsert x v es))
          | _ :: _ =>
              match assoc x es with
              | Some c =>
                  match put p' v c with
                  | Some c' => Some (Dir (upsert x c' es))
                  | None => None
                  end
              | None => None
              end
          end
      end
  end.

(** [remove p n]: the entry at [p] and all below it are gone. *)
Fixpoint remove (p : path) (n : node) : option node :=
  match p with
  | [] => None
  | x :: p' =>
      match n with
      | File _ => None
      | Dir es =>
          match p' with
          | [] => Some (Dir (del x es))
          | _ :: _ =>
              match assoc x es with
              | Some c =>
                  match remove p' c with
                  | Some c' => Some (Dir (upsert x c' es))
                  | None => None
                  end
              | None => None
              end
          end
      end
  end.

(** A chain of new, otherwise empty directories. *)
Fixpoint fresh (p : path) : node :=
  match p with
  | [] => Dir []
  | x :: p' => Dir [(x, fresh p')]
  end.

(** [os.makedirs(p)] on the tree: missing directories are created along
    [p]; a path that exists already raises, and so does a file in the way. *)
Fixpoint mkdirs (p : path) (n : node) : result node :=
  match p with
  | [] => Raise FileExistsError
  | x :: p' =>
      match n with
      | File _ => Raise NotADirectoryError
      | Dir es =>
          match assoc x es with
          | Some c => c' <- mkdirs p' c ;; Ok (Dir (upsert x c' es))
          | None => Ok (Dir (es ++ [(x, fresh p')]))
          end
      end
  end.

(** No file stands on the path [p]: every prefix of [p] that exists is a
    directory. *)
Fixpoint clear (p : path) (n : node) : bool :=
  match n with
  | File _ => false
  | Dir es =>
      match p with
      | [] => true
      | x :: p' =>
          match assoc x es with
          | Some c => clear p' c
          | None => true
          end
      end
  end.

(** The names in a directory are distinct, at every level. *)
Fixpoint distinct (l : list string) : bool :=
  match l with
  | [] => true
  | x :: l' => negb (existsb (String.eqb x) l') && distinct l'
  end.

Fixpoint wf (n : node) : bool :=
  match n with
  | File _ => true
  | Dir es => distinct (map fst es) && forallb (fun e => wf (snd e)) es
  end.

(** The entries of the directory at [p]; none when [p] is no directory. *)
Definition entries_at (p : path) (n : node) : list (string * node) :=
  match get p n with
  | Some (Dir es) => es
  | _ => []
  end.

(** Two paths diverge when they differ at a component both have: neither
    lies on or below the other. *)
Fixpoint diverge (p q : path) : Prop :=
  match p, q with
  | x :: p', y :: q' => x <> y \/ (x = y /\ diverge p' q')
  | _, _ => False
  end.

(** Commands read and change the tree, or raise. *)
Definition io (A : Type) : Type := node -> result (A * node).

Definition ret {A : Type} (a : A) : io A := fun fs => Ok (a, fs).

Definition throw {A : Type} (e : exn) : io A := fun _ => Raise e.

Definition iobind {A B : Type} (c : io A) (k : A -> io B) : io B :=
  fun fs =>
    match c fs with
    | Ok (a, fs') => k a fs'
    | Raise e => Raise e
    end.

Declare Scope io_scope.
Delimit Scope io_scope with io.
Notation "x <~ c ;; k" := (iobind c (fun x => k))
  (at level 61, c at next level, right associativity) : io_scope.
Notation "c ;;; k" := (iobind c (fun _ => k))
  (at level 61, right associativity) : io_scope.

#[local] Open Scope io_scope.

Definition os_path_exists (p : path) : io bool :=
  fun fs => Ok (match get p fs with Some _ => true | None => false end, fs).

Definition os_listdir (p : path) : io (list string) :=
  fun fs =>
    match get p fs with
    | Some (Dir es) => Ok (map fst es, fs)
    | Some (File _) => Raise NotADirectoryError
    | None => Raise FileNotFoundError
    end.

Definition os_makedirs (p : path) : io unit :=
  fun fs => fs' <- mkdirs p fs ;; Ok (tt, fs').

Definition shutil_rmtree (p : path) : io unit :=
  fun fs =>
    match get p fs with
    | Some (Dir _) =>
        match remove p fs with
        | Some fs' => Ok (tt, fs')
        | None => Raise NotADirectoryError
        end
    | Some (File _) => Raise NotADirectoryError
    | None => Raise FileNotFoundError
    end.

(** [os.rename(src, dst)] onto a [dst] that is absent or a file: a file
    replaces the file, a directory does not. *)
Definition os_rename (src dst : path) : io unit :=
  fun fs =>
    match get src fs with
    | None => Raise FileNotFoundError
    | Some v =>
        match v, get dst fs with
        | Dir _, Some (File _) => Raise NotADirectoryError
        | File _, Some (Dir _) => Raise IsADirectoryError
        | _, _ =>
            match remove src fs with
            | None => Raise FileNotFoundError
            | Some fs1 =>
                match put dst v fs1 with
                | Some fs2 => Ok (tt, fs2)
                | None => Raise FileNotFoundError
                end
            end
        end
    end.

(** [shutil.move(src, dst)]: when [dst] is a directory the entry moves into
    it under its own name, which must be free there. *)
Definition shutil_move (src dst : path) : io unit :=
  fun fs =>
    match get dst fs with
    | Some (Dir _) =>
        let real_dst := (dst ++ [last src ""])%list in
        match get real_dst fs with
        | Some _ => Raise FileExistsError
        | None => os_rename src real_dst fs
        end
    | _ => os_rename src dst fs
    end.

Definition dirnames (es : list (string * node)) : list string :=
  flat_map (fun e => match snd e with Dir _ => [fst e] | File _ => [] end) es.

Definition filenames (es : list (string * node)) : list string :=
  flat_map (fun e => match snd e with File _ => [fst e] | Dir _ => [] end) es.

(** [str.endswith]: some tail of [s] is [suffix]. *)
Fixpoint endswith (s suffix : string) : bool :=
  (s =? suffix)
  || match s with
     | EmptyString => false
     | String _ s' => endswith s' suffix
     end.

(** [os.path.join(a, b)] on path strings. *)
Definition os_path_join (a b : string) : string :=
  if prefix "/" b then b
  else if (a =? "") || endswith a "/" then a ++ b
  else a ++ "/" ++ b.

(** [os.walk(top)], top-down: one triple per directory, the directory
    itself first and then the walks of its subdirectories in listing
    order.  A [top] that is no directory yields nothing. *)
Fixpoint os_walk (top : string) (n : node)
  : list (string * list string * list string) :=
  match n with
  | File _ => []
  | Dir es =>
      (top, dirnames es, filenames es)
        :: flat_map (fun e => os_walk (os_path_join top (fst e)) (snd e)) es
  end.

End Fs.

(** ** [save_spectrogram_image] *)

Module Spectrogram.

Import Float64 Numpy.
#[local] Open Scope py_scope.

(** Lines 129-131: [f_step], [min_bin] and [max_bin]. *)
Definition f_step (sampling_rate : Q) (n_fft : Z) : result Q :=
  truediv sampling_rate (inject_Z n_fft).

Definition bin (freq step : Q) : result Z :=
  q <- truediv freq step ;; Ok (py_int q).

Definition bins (sampling_rate : Q) (n_fft : Z) (min_freq max_freq : Q)
  : result (Z * Z) :=
  step <- f_step sampling_rate n_fft ;;
  min_bin <- bin min_freq step ;;
  max_bin <- bin max_freq step ;;
  Ok (min_bin, max_bin).

(** Line 136: the crop on the frequency axis. *)
Definition crop {A : Type} (min_bin max_bin : Z) (Y : matrix A) : matrix A :=
  slice_rows min_bin max_bin Y.

(** Lines 143-145: [plt.figure(figsize=(W / dpi, H / dpi), dpi=dpi)]. *)
Definition figsize (img_size : Q * Q) (dpi : Q) : result (Q * Q) :=
  w <- truediv (fst img_size) dpi ;;
  h <- truediv (snd img_size) dpi ;;
  Ok (w, h).

(** Line 163, [fig.savefig]: the figure's bounding box is its size in inches
    scaled by [dpi], and the canvas that is written out has [int(width)] by
    [int(height)] pixels.  The pixel count is the library's, not the
    notebook's: this is the canvas of releases that truncate; other
    releases add a small slack before they truncate.  The bounds proved of
    it hold under either rule, and the claim about the size of the raster
    takes the canvas as a parameter instead. *)
Definition raster_size (size_inches : Q * Q) (dpi : Q) : Z * Z :=
  (py_int (fmul (fst size_inches) dpi), py_int (fmul (snd size_inches) dpi)).

Definition saved_image_size (img_size : Q * Q) (dpi : Q) : result (Z * Z) :=
  inches <- figsize img_size dpi ;;
  Ok (raster_size inches dpi).

(** [str(image_name)] of a counter. *)
Definition str (n : nat) : string := NilZero.string_of_uint (Nat.to_uint n).

Section Transform.

Variables C F : Type.
(** [abs] of one STFT coefficient. *)
Variable magnitude : C -> F.
Variable decibel : F -> F -> F.
Variable floor_at : F -> F -> F.
Variable array_max : list F -> F.

(** Lines 129-141, from the STFT matrix [Y] of the loaded clip to the
    decibel matrix [Ydb]. *)
Definition transform (Y : matrix C) (sampling_rate : Q) (n_fft : Z)
    (max_freq min_freq : Q) (ref : policy F) : result (matrix F) :=
  b <- bins sampling_rate n_fft min_freq max_freq ;;
  let Y' := crop (fst b) (snd b) Y in
  amplitude_to_db F decibel floor_at array_max (map (map magnitude) Y') ref.

(** What a call leaves: the image file, by its path, the size in inches
    and the pixel size of the figure it was drawn on, and the matrix and
    colour limits it was drawn from. *)
Record saved_image : Type := {
  save_path : string;
  size_inches : Q * Q;
  pixels : Z * Z;
  Ydb : matrix F;
  clim : F * F
}.

(** Lines 94-165.  [Y] stands for [librosa.stft(y, n_fft=n_fft)] of the
    samples loaded from [input_path]. *)
Definition save_spectrogram_image (Y : matrix C) (output_path : string)
    (image_name : nat) (sampling_rate : Q) (n_fft : Z) (dpi : Q)
    (max_freq min_freq : Q) (img_size : Q * Q)
    (ref clim_lo clim_hi : policy F) : result saved_image :=
  db <- transform Y sampling_rate n_fft max_freq min_freq ref ;;
  inches <- figsize img_size dpi ;;
  Ok {| save_path := Fs.os_path_join output_path (str image_name ++ ".png");
        size_inches := inches;
        pixels := raster_size inches dpi;
        Ydb := db;
        clim := (resolve clim_lo db, resolve clim_hi db) |}.

End Transform.

End Spectrogram.

(** ** Clip discovery, storage reset and the render loop *)

Module Scanner.

Import Fs.
#[local] Open Scope string_scope.
#[local] Open Scope io_scope.

(** The string of an absolute path, as [os.path.join] builds it. *)
Definition path_string (p : path) : string := fold_left os_path_join p "/".

(** Lines 167-177.  [n] is the tree found at [root_path]; the generator is
    read as the finite list of the paths it yields, in order. *)
Definition get_all_wavfiles (root_path : string) (n : node) : list string :=
  flat_map
    (fun t =>
       let '(root, _, files) := t in
       flat_map
         (fun file_name =>
            let path := os_path_join root file_name in
            if endswith path ".wav" then [path] else [])
         files)
    (os_walk root_path n).

(** Lines 179-185. *)
Definition create_storage_for_images (directory_to_store_images : path) : io unit :=
  present <~ os_path_exists directory_to_store_images ;;
  (if present then shutil_rmtree directory_to_store_images else ret tt) ;;;
  os_makedirs directory_to_store_images.

(** What one iteration of the inner loop of lines 208-225 did. *)
Inductive event : Type :=
| Skipped (clip_path : string)
| Saved (clip_path : string) (image_name : nat).

Section RenderLoop.

(** The call of [save_spectrogram_image] on an input path, an output
    directory and an image name: it writes the image and returns its path,
    or raises. *)
Variable save_spectrogram_image : string -> path -> nat -> io string.

Variables CLIPS_PATH SAVE_IMAGE_PATH : path.

(** Lines 208-225: the events of the loop up to its end or to the first
    exception, and the counter and tree it ends with. *)
Fixpoint render_clips (clips : list string) (curr_output_dir : path)
    (count : nat) (fs : node) : list event * result (nat * node) :=
  match clips with
  | [] => ([], Ok (count, fs))
  | clip_path :: rest =>
      if negb (endswith clip_path ".wav") then
        let (evs, r) := render_clips rest curr_output_dir count fs in
        (Skipped clip_path :: evs, r)
      else
        match save_spectrogram_image clip_path curr_output_dir count fs with
        | Raise e => ([], Raise e)
        | Ok (_, fs') =>
            let (evs, r) := render_clips rest curr_output_dir (S count) fs' in
            (Saved clip_path count :: evs, r)
        end
  end.

(** Lines 202-225.  The walk of a species is read off the tree as it is
    once its output directory has been reset. *)
Fixpoint render_all (species : list string) (count : nat) (fs : node)
  : list event * result (nat * node) :=
  match species with
  | [] => ([], Ok (count, fs))
  | specie :: rest =>
      let curr_input_dir := (CLIPS_PATH ++ [specie])%list in
      let curr_output_dir := (SAVE_IMAGE_PATH ++ [specie])%list in
      match create_storage_for_images curr_output_dir fs with
      | Raise e => ([], Raise e)
      | Ok (_, fs1) =>
          let clips :=
            match get curr_input_dir fs1 with
            | Some n => get_all_wavfiles (path_string curr_input_dir) n
            | None => []
            end in
          match render_clips clips curr_output_dir count fs1 with
          | (evs, Raise e) => (evs, Raise e)
          | (evs, Ok (count', fs2)) =>
              let (evs', r) := render_all rest count' fs2 in
              ((evs ++ evs')%list, r)
          end
      end
  end.

End RenderLoop.

End Scanner.

(** ** The dataset split *)

Module Splitter.

Import Float64 Fs.
#[local] Open Scope io_scope.

(** Lines 242-246. *)
Definition get_files_from_folder (p : path) : io (list string) := os_listdir p.

(** [_, dirs, _ = next(os.walk(path_to_data))]. *)
Definition next_walk (p : path) : io (string * list string * list string) :=
  fun fs =>
    match get p fs with
    | Some n =>
        match os_walk (Scanner.path_string p) n with
        | t :: _ => Ok (t, fs)
        | [] => Raise StopIteration
        end
    | None => Raise StopIteration
    end.

(** Lines 257-261: the file count of every class, stored in a float array. *)
Fixpoint count_files (path_to_data : path) (dirs : list string) : io (list Q) :=
  match dirs with
  | [] => ret []
  | d :: rest =>
      files <~ get_files_from_folder (path_to_data ++ [d]) ;;
      counts <~ count_files path_to_data rest ;;
      ret (rnd64 (inject_Z (Z.of_nat (length files))) :: counts)
  end.

(** Line 263, for one class. *)
Definition test_count (counter : Q) (train_test_ratio : Q) : Z :=
  np_round (fmul counter (fsub 1 train_test_ratio)).

Definition test_counter (counter_per_species : list Q) (train_test_ratio : Q)
  : list Z :=
  map (fun c => test_count c train_test_ratio) counter_per_species.

Fixpoint for_each {A : Type} (l : list A) (body : A -> io unit) : io unit :=
  match l with
  | [] => ret tt
  | a :: l' => body a ;;; for_each l' body
  end.

(** Lines 279-282: [for j in range(n)], moving [files[j]]. *)
Definition move_files (path_to_original path_to_save : path)
    (files : list string) (n : nat) : io unit :=
  for_each (seq 0 n)
    (fun j =>
       match nth_error files j with
       | None => throw IndexError
       | Some f => shutil_move (path_to_original ++ [f]) (path_to_save ++ [f])
       end).

Section Generate.

(** The state of numpy's global random generator, and
    [np.random.shuffle] as a function of it. *)
Variable rng : Type.
Variable shuffle : rng -> list string -> list string * rng.

(** Lines 267-282: the body of the transfer loop, for the class [d] and its
    test count [k]. *)
Definition transfer_class (path_to_data path_to_test_data : path)
    (d : string) (k : Z) (g : rng) : io rng :=
  let path_to_original := path_to_data ++ [d] in
  let path_to_save := path_to_test_data ++ [d] in
  present <~ os_path_exists path_to_save ;;
  (if present then ret tt else os_makedirs path_to_save) ;;;
  files <~ get_files_from_folder path_to_original ;;
  let (shuffled, g') := shuffle g files in
  move_files path_to_original path_to_save shuffled (Z.to_nat k) ;;;
  ret g'.

(** Lines 266-282. *)
Fixpoint transfer (path_to_data path_to_test_data : path)
    (dirs : list string) (counts : list Z) (g : rng) : io rng :=
  match dirs, counts with
  | d :: dirs', k :: counts' =>
      g' <~ transfer_class path_to_data path_to_test_data d k g ;;
      transfer path_to_data path_to_test_data dirs' counts' g'
  | _, _ => ret g
  end.

(** Lines 248-282. *)
Definition generate_training_and_testing_datasets
    (path_to_data path_to_test_data : path) (train_test_ratio : Q) (g : rng)
  : io rng :=
  t <~ next_walk path_to_data ;;
  let dirs := snd (fst t) in
  counter_per_species <~ count_files path_to_data dirs ;;
  transfer path_to_data path_to_test_data dirs
    (test_counter counter_per_species train_test_ratio) g.

End Generate.

End Splitter.

(** * Properties *)

(** ** Binary64 rounding is monotone and exact on integers up to 2^53 *)

Module Float64Facts.

Import Float64.
#[local] Open Scope Q_scope.

Lemma pow2_pos e : 0 < pow2 e.
Proof. apply Qpower_0_lt. reflexivity. Qed.

Lemma pow2_add a b : pow2 (a + b) == pow2 a * pow2 b.
Proof. apply Qpower_plus. discriminate. Qed.

Lemma pow2_le a b : (a <= b)%Z -> pow2 a <= pow2 b.
Proof. intros. apply Qpower_le_compat_l; [assumption | discriminate]. Qed.

Lemma pow2_lt a b : (a < b)%Z -> pow2 a < pow2 b.
Proof. intros. apply Qpower_lt_compat_l; [assumption | reflexivity]. Qed.

Lemma pow2_Z a : (0 <= a)%Z -> pow2 a == inject_Z (2 ^ a).
Proof. intros. unfold pow2. rewrite Zpower_Qpower by assumption. reflexivity. Qed.

Lemma pow2_sub a b : pow2 (a - b) == pow2 a / pow2 b.
Proof. apply Qpower_minus. discriminate. Qed.

Lemma ilog2_rough (q : Q) : 0 < q ->
  let e0 := (Z.log2 (Qnum q) - Z.log2 (Zpos (Qden q)))%Z in
  pow2 (e0 - 1) <= q /\ q < pow2 (e0 + 1).
Proof.
  destruct q as [n d]. unfold Qlt at 1. cbn [Qnum Qden]. intros Hn.
  assert (Hn' : (0 < n)%Z) by lia.
  pose proof (Z.log2_spec n Hn') as [Hn1 Hn2].
  pose proof (Z.log2_spec (Zpos d) (Pos2Z.is_pos d)) as [Hd1 Hd2].
  pose proof (Z.log2_nonneg n) as Ln. pose proof (Z.log2_nonneg (Zpos d)) as Ld.
  set (ln := Z.log2 n) in *. set (ld := Z.log2 (Zpos d)) in *.
  assert (P1 : (0 < 2 ^ ln)%Z) by (apply Z.pow_pos_nonneg; lia).
  assert (P2 : (0 < 2 ^ ld)%Z) by (apply Z.pow_pos_nonneg; lia).
  split.
  - replace (ln - ld - 1)%Z with (ln - (ld + 1))%Z by lia.
    rewrite pow2_sub. apply Qle_shift_div_r; [apply pow2_pos|].
    rewrite !pow2_Z by lia. rewrite Z.add_1_r, Z.pow_succ_r by lia. fold (Z.succ ln) in Hn2. fold (Z.succ ld) in Hd2. rewrite Z.pow_succ_r in * by lia.
    unfold Qle, Qmult, inject_Z. cbn [Qnum Qden]. nia.
  - replace (ln - ld + 1)%Z with ((ln + 1) - ld)%Z by lia.
    rewrite pow2_sub. apply Qlt_shift_div_l; [apply pow2_pos|].
    rewrite !pow2_Z by lia. rewrite Z.add_1_r, Z.pow_succ_r by lia. fold (Z.succ ln) in Hn2. fold (Z.succ ld) in Hd2. rewrite Z.pow_succ_r in * by lia.
    unfold Qlt, Qmult, inject_Z. cbn [Qnum Qden]. nia.
Qed.

Lemma ilog2_spec (q : Q) : 0 < q -> pow2 (ilog2 q) <= q /\ q < pow2 (ilog2 q + 1).
Proof.
  intros Hq. pose proof (ilog2_rough q Hq) as [H1 H2]. cbv zeta in H1, H2.
  unfold ilog2.
  destruct (Qle_bool _ q) eqn:E.
  - apply Qle_bool_iff in E. split; assumption.
  - split; [assumption|].
    replace (_ - 1 + 1)%Z with (Z.log2 (Qnum q) - Z.log2 (Z.pos (Qden q)))%Z by lia.
    apply Qnot_le_lt. intros C. apply Qle_bool_iff in C. congruence.
Qed.

Lemma ilog2_unique (q : Q) (e : Z) : pow2 e <= q -> q < pow2 (e + 1) -> ilog2 q = e.
Proof.
  intros H1 H2.
  assert (Hq : 0 < q) by (eapply Qlt_le_trans; [apply pow2_pos | apply H1]).
  destruct (ilog2_spec q Hq) as [S1 S2].
  destruct (Z.lt_trichotomy (ilog2 q) e) as [L|[L|L]]; [exfalso| assumption | exfalso].
  - assert (pow2 (ilog2 q + 1) <= pow2 e) by (apply pow2_le; lia).
    apply (Qlt_irrefl q). eapply Qlt_le_trans; [apply S2|]. eapply Qle_trans; eauto.
  - assert (pow2 (e + 1) <= pow2 (ilog2 q)) by (apply pow2_le; lia).
    apply (Qlt_irrefl q). eapply Qlt_le_trans; [apply H2|]. eapply Qle_trans; eauto.
Qed.

Lemma ilog2_mono (x y : Q) : 0 < x -> x <= y -> (ilog2 x <= ilog2 y)%Z.
Proof.
  intros Hx Hxy.
  assert (Hy : 0 < y) by (eapply Qlt_le_trans; eauto).
  destruct (ilog2_spec x Hx) as [X1 X2]. destruct (ilog2_spec y Hy) as [Y1 Y2].
  destruct (Z_le_gt_dec (ilog2 x) (ilog2 y)) as [L|G]; [assumption|exfalso].
  assert (pow2 (ilog2 y + 1) <= pow2 (ilog2 x)) by (apply pow2_le; lia).
  apply (Qlt_irrefl y). eapply Qlt_le_trans; [apply Y2|].
  eapply Qle_trans; [eassumption|]. eapply Qle_trans; eauto.
Qed.

Lemma Qfloor_bounds x : inject_Z (Qfloor x) <= x /\ x < inject_Z (Qfloor x) + 1.
Proof.
  split; [apply Qfloor_le|].
  pose proof (Qlt_floor x) as H. rewrite inject_Z_plus in H. exact H.
Qed.

#[export] Instance round_half_even_comp : Proper (Qeq ==> eq) round_half_even.
Proof.
  intros x y E. unfold round_half_even.
  rewrite (Qfloor_comp _ _ E).
  assert (E' : x - inject_Z (Qfloor y) == y - inject_Z (Qfloor y)) by (rewrite E; reflexivity).
  rewrite (Qcompare_comp _ _ E' (1#2) (1#2) (Qeq_refl _)). reflexivity.
Qed.

Lemma round_half_even_Z k : round_half_even (inject_Z k) = k.
Proof.
  unfold round_half_even. rewrite Qfloor_Z.
  destruct (Qcompare_spec (inject_Z k - inject_Z k) (1#2)) as [E|L|G];
    [exfalso; lra | reflexivity | exfalso; lra].
Qed.

Lemma round_half_even_cases x :
  let f := Qfloor x in
  (round_half_even x = f /\ x - inject_Z f <= 1#2) \/
  (round_half_even x = (f + 1)%Z /\ 1#2 <= x - inject_Z f).
Proof.
  cbv zeta. unfold round_half_even.
  destruct (Qcompare_spec (x - inject_Z (Qfloor x)) (1#2)) as [E|L|G].
  - destruct (Z.even (Qfloor x)); [left|right]; split; auto; rewrite E; apply Qle_refl.
  - left. split; auto. apply Qlt_le_weak, L.
  - right. split; auto. apply Qlt_le_weak, G.
Qed.

Lemma round_half_even_mono x y : x <= y -> (round_half_even x <= round_half_even y)%Z.
Proof.
  intros Hxy. pose proof (Qfloor_resp_le x y Hxy) as Hf.
  destruct (Qfloor_bounds x) as [X1 X2]. destruct (Qfloor_bounds y) as [Y1 Y2].
  destruct (Z.eq_dec (Qfloor x) (Qfloor y)) as [E|N].
  - unfold round_half_even. rewrite <- E.
    destruct (Qcompare_spec (x - inject_Z (Qfloor x)) (1#2)) as [Ex|Lx|Gx];
    destruct (Qcompare_spec (y - inject_Z (Qfloor x)) (1#2)) as [Ey|Ly|Gy];
    try destruct (Z.even (Qfloor x)); try lia; exfalso; lra.
  - destruct (round_half_even_cases x) as [[Rx _]|[Rx _]];
    destruct (round_half_even_cases y) as [[Ry _]|[Ry _]]; lia.
Qed.

Lemma round_half_even_near x :
  inject_Z (round_half_even x) - (1#2) <= x /\ x <= inject_Z (round_half_even x) + (1#2).
Proof.
  destruct (Qfloor_bounds x) as [X1 X2].
  destruct (round_half_even_cases x) as [[R H]|[R H]]; rewrite R;
    [|rewrite inject_Z_plus; change (inject_Z 1) with 1]; split; lra.
Qed.

Lemma round_half_even_tie x :
  x == inject_Z (Qfloor x) + (1#2) -> Z.even (round_half_even x) = true.
Proof.
  intros E. unfold round_half_even.
  destruct (Qcompare_spec (x - inject_Z (Qfloor x)) (1#2)) as [_|L|G];
    [|exfalso; lra|exfalso; lra].
  destruct (Z.even (Qfloor x)) eqn:Ev; [assumption|].
  rewrite Z.even_add, Ev. reflexivity.
Qed.

Lemma round_half_even_between a b x :
  inject_Z a <= x -> x <= inject_Z b -> (a <= round_half_even x <= b)%Z.
Proof.
  intros H1 H2. split.
  - rewrite <- (round_half_even_Z a). apply round_half_even_mono, H1.
  - rewrite <- (round_half_even_Z b). apply round_half_even_mono, H2.
Qed.

Lemma scaled_range q : 0 < q ->
  inject_Z (2 ^ 52) <= q / pow2 (ilog2 q - 52) /\ q / pow2 (ilog2 q - 52) <= inject_Z (2 ^ 53).
Proof.
  intros Hq. destruct (ilog2_spec q Hq) as [S1 S2].
  pose proof (pow2_pos (ilog2 q - 52)) as Hu.
  rewrite <- !pow2_Z by lia.
  split.
  - apply Qle_shift_div_l; [assumption|]. rewrite <- pow2_add.
    replace (52 + (ilog2 q - 52))%Z with (ilog2 q) by lia. assumption.
  - apply Qle_shift_div_r; [assumption|]. rewrite <- pow2_add.
    replace (53 + (ilog2 q - 52))%Z with (ilog2 q + 1)%Z by lia. apply Qlt_le_weak, S2.
Qed.

Lemma rnd_pos_range q : 0 < q ->
  pow2 (ilog2 q) <= rnd_pos q /\ rnd_pos q <= pow2 (ilog2 q + 1).
Proof.
  intros Hq. destruct (scaled_range q Hq) as [R1 R2].
  destruct (round_half_even_between _ _ _ R1 R2) as [K1 K2].
  pose proof (pow2_pos (ilog2 q - 52)) as Hu.
  unfold rnd_pos. split.
  - replace (ilog2 q) with (52 + (ilog2 q - 52))%Z at 1 by lia.
    rewrite pow2_add. apply Qmult_le_compat_r; [|apply Qlt_le_weak, Hu].
    rewrite (pow2_Z 52) by lia. rewrite <- Zle_Qle. exact K1.
  - replace (ilog2 q + 1)%Z with (53 + (ilog2 q - 52))%Z by lia.
    rewrite pow2_add. apply Qmult_le_compat_r; [|apply Qlt_le_weak, Hu].
    rewrite (pow2_Z 53) by lia. rewrite <- Zle_Qle. exact K2.
Qed.

Lemma rnd_pos_mono x y : 0 < x -> x <= y -> rnd_pos x <= rnd_pos y.
Proof.
  intros Hx Hxy.
  assert (Hy : 0 < y) by (eapply Qlt_le_trans; eauto).
  pose proof (ilog2_mono x y Hx Hxy) as He.
  destruct (Z.eq_dec (ilog2 x) (ilog2 y)) as [E|N].
  - unfold rnd_pos. rewrite E.
    pose proof (pow2_pos (ilog2 y - 52)) as Hu.
    apply Qmult_le_compat_r; [|apply Qlt_le_weak, Hu].
    rewrite <- Zle_Qle. apply round_half_even_mono.
    apply Qmult_le_compat_r; [assumption|]. apply Qlt_le_weak, Qinv_lt_0_compat, Hu.
  - destruct (rnd_pos_range x Hx) as [_ X]. destruct (rnd_pos_range y Hy) as [Y _].
    eapply Qle_trans; [apply X|]. eapply Qle_trans; [|apply Y]. apply pow2_le. lia.
Qed.

Lemma rnd_pos_exact q k : 0 < q -> q == inject_Z k * pow2 (ilog2 q - 52) -> rnd_pos q == q.
Proof.
  intros Hq E. unfold rnd_pos.
  pose proof (pow2_pos (ilog2 q - 52)) as Hu.
  assert (D : q / pow2 (ilog2 q - 52) == inject_Z k).
  { rewrite E at 1. field. intros C. rewrite C in Hu. inversion Hu. }
  rewrite D, round_half_even_Z. symmetry. exact E.
Qed.

Lemma rnd64_zero q : q == 0 -> rnd64 q = 0.
Proof.
  destruct q as [n d]. unfold Qeq. cbn. intros H. unfold rnd64. cbn [Qnum].
  assert (n = 0%Z) by lia. subst. reflexivity.
Qed.

Lemma rnd64_pos q : 0 < q -> rnd64 q == rnd_pos q.
Proof.
  destruct q as [n d]. unfold Qlt at 1. cbn. intros H. unfold rnd64. cbn [Qnum].
  destruct n; try lia. apply Qred_correct.
Qed.

Lemma rnd64_neg q : q < 0 -> rnd64 q == - rnd_pos (- q).
Proof.
  destruct q as [n d]. unfold Qlt at 1. cbn. intros H. unfold rnd64. cbn [Qnum].
  destruct n; try lia. apply Qred_correct.
Qed.

Lemma rnd_pos_pos q : 0 < q -> 0 < rnd_pos q.
Proof.
  intros H. destruct (rnd_pos_range q H) as [L _].
  eapply Qlt_le_trans; [apply pow2_pos | apply L].
Qed.

Lemma rnd64_pos_lt q : 0 < q -> 0 < rnd64 q.
Proof. intros H. rewrite rnd64_pos by assumption. apply rnd_pos_pos, H. Qed.

Lemma rnd64_mono x y : x <= y -> rnd64 x <= rnd64 y.
Proof.
  intros Hxy.
  destruct (Q_dec x 0) as [[Xn|Xp]|Xz]; destruct (Q_dec y 0) as [[Yn|Yp]|Yz];
    try (exfalso; lra).
  - rewrite (rnd64_neg x), (rnd64_neg y) by assumption.
    apply Qopp_le_compat. apply rnd_pos_mono; lra.
  - rewrite (rnd64_neg x), (rnd64_pos y) by assumption.
    pose proof (rnd_pos_pos (- x)) as A. pose proof (rnd_pos_pos y) as B.
    assert (0 < - x) by lra. specialize (A H). specialize (B Yp). lra.
  - rewrite (rnd64_neg x), (rnd64_zero y) by assumption.
    pose proof (rnd_pos_pos (- x)) as A. assert (0 < - x) by lra. specialize (A H). lra.
  - rewrite (rnd64_pos x), (rnd64_pos y) by assumption. apply rnd_pos_mono; assumption.
  - rewrite (rnd64_zero x), (rnd64_pos y) by assumption.
    apply Qlt_le_weak, rnd_pos_pos, Yp.
  - rewrite (rnd64_zero x), (rnd64_zero y) by assumption. apply Qle_refl.
Qed.

Lemma rnd_pos_Z n : (0 < n <= 2 ^ 53)%Z -> rnd_pos (inject_Z n) == inject_Z n.
Proof.
  intros [Hn Hb].
  assert (Hq : 0 < inject_Z n) by (rewrite Zlt_Qlt in Hn; exact Hn).
  assert (E0 : ilog2 1 = 0%Z) by (apply ilog2_unique; vm_compute; congruence).
  assert (E53 : ilog2 (inject_Z (2 ^ 53)) = 53%Z) by (apply ilog2_unique; vm_compute; congruence).
  assert (L0 : (0 <= ilog2 (inject_Z n))%Z).
  { rewrite <- E0. apply ilog2_mono; [reflexivity|]. change 1 with (inject_Z 1).
    rewrite <- Zle_Qle. lia. }
  assert (L53 : (ilog2 (inject_Z n) <= 53)%Z).
  { rewrite <- E53. apply ilog2_mono; [assumption|]. rewrite <- Zle_Qle. lia. }
  set (e := ilog2 (inject_Z n)) in *.
  destruct (Z.eq_dec e 53) as [E|N].
  - destruct (ilog2_spec _ Hq) as [S1 _]. fold e in S1. rewrite E in S1.
    rewrite (pow2_Z 53) in S1 by lia. rewrite <- Zle_Qle in S1.
    assert (n = 2 ^ 53)%Z by lia. subst n.
    apply (rnd_pos_exact _ (2 ^ 52)); [assumption|]. fold e. rewrite E. vm_compute. reflexivity.
  - apply (rnd_pos_exact _ (n * 2 ^ (52 - e))); [assumption|]. fold e.
    rewrite inject_Z_mult. rewrite <- (pow2_Z (52 - e)) by lia.
    rewrite <- Qmult_assoc, <- pow2_add.
    replace (52 - e + (e - 52))%Z with 0%Z by lia. change (pow2 0) with 1. ring.
Qed.

Lemma rnd64_Z n : (Z.abs n <= 2 ^ 53)%Z -> rnd64 (inject_Z n) == inject_Z n.
Proof.
  intros H. destruct (Z.lt_trichotomy n 0) as [L|[E|G]].
  - rewrite rnd64_neg by (change 0 with (inject_Z 0); rewrite <- Zlt_Qlt; exact L).
    rewrite <- inject_Z_opp. rewrite rnd_pos_Z by lia. rewrite inject_Z_opp. ring.
  - subst. reflexivity.
  - rewrite rnd64_pos by (change 0 with (inject_Z 0); rewrite <- Zlt_Qlt; exact G).
    apply rnd_pos_Z. lia.
Qed.

Lemma rnd64_between a b x :
  (Z.abs a <= 2 ^ 53)%Z -> (Z.abs b <= 2 ^ 53)%Z ->
  inject_Z a <= x -> x <= inject_Z b -> inject_Z a <= rnd64 x /\ rnd64 x <= inject_Z b.
Proof.
  intros Ha Hb H1 H2. split.
  - rewrite <- (rnd64_Z a Ha). apply rnd64_mono, H1.
  - rewrite <- (rnd64_Z b Hb). apply rnd64_mono, H2.
Qed.

Lemma py_int_floor x : 0 <= x -> py_int x = Qfloor x.
Proof.
  destruct x as [n d]. unfold Qle. cbn. intros H. unfold py_int. cbn.
  apply Z.quot_div_nonneg; lia.
Qed.

Lemma py_int_nonneg x : 0 <= x -> (0 <= py_int x)%Z.
Proof.
  intros H. rewrite py_int_floor by assumption.
  change 0%Z with (Qfloor 0). apply Qfloor_resp_le, H.
Qed.

End Float64Facts.

(** ** The rounding agrees with the kernel's binary64 *)

Module Float64Check.

Import Float64.
Import Stdlib.Floats.Floats.
#[local] Open Scope float_scope.

(** The rational a finite primitive float denotes. *)
Definition Q_of_float (x : float) : option Q :=
  match Prim2SF x with
  | S754_zero _ => Some 0%Q
  | S754_finite s m e =>
      Some (Qred ((if s then - inject_Z (Zpos m) else inject_Z (Zpos m)) * pow2 e))
  | _ => None
  end.

(** The operations behind the figure size at 143 dots per inch, the bins
    of the configured window and the test count of ten files at a ratio of
    0.7, computed by the kernel and by [rnd64]. *)
Example figure_width_agrees :
  Q_of_float (413 / 143) = Some (rnd64 (413 # 143)) /\
  Q_of_float (413 / 143 * 143) = Some (fmul (rnd64 (413 # 143)) 143).
Proof. vm_compute. split; reflexivity. Qed.

Example bins_agree :
  Q_of_float (48000 / 512) = Some (rnd64 (48000 # 512)) /\
  Q_of_float (22000 / (48000 / 512)) = Some (rnd64 (22000 / rnd64 (48000 # 512))) /\
  Q_of_float (40000 / (48000 / 512)) = Some (rnd64 (40000 / rnd64 (48000 # 512))).
Proof. vm_compute. repeat split; reflexivity. Qed.

Example test_count_agrees :
  Q_of_float (7 / 10) = Some (rnd64 (7 # 10)) /\
  Q_of_float (1 - 7 / 10) = Some (fsub 1 (rnd64 (7 # 10))) /\
  Q_of_float (10 * (1 - 7 / 10)) = Some (fmul 10 (fsub 1 (rnd64 (7 # 10)))).
Proof. vm_compute. repeat split; reflexivity. Qed.

End Float64Check.

(** ** Lists *)

Module ListFacts.

Lemma In_firstn {A : Type} (x : A) (n : nat) (l : list A) : In x (firstn n l) -> In x l.
Proof. intros H. rewrite <- (firstn_skipn n l). apply in_or_app. left. exact H. Qed.

Lemma In_skipn {A : Type} (x : A) (n : nat) (l : list A) : In x (skipn n l) -> In x l.
Proof. intros H. rewrite <- (firstn_skipn n l). apply in_or_app. right. exact H. Qed.

End ListFacts.

(** ** The crop and the transform *)

Module SpectrogramFacts.

Import Float64 Float64Facts Numpy Spectrogram ListFacts.
#[local] Open Scope Q_scope.

Lemma truediv_ok x y : ~ y == 0 -> truediv x y = Ok (rnd64 (x / y)).
Proof.
  intros H. unfold truediv. destruct (Qeq_bool y 0) eqn:E; [|reflexivity].
  apply Qeq_bool_eq in E. contradiction.
Qed.

Lemma f_step_positive sampling_rate n_fft :
  0 < sampling_rate -> (0 < n_fft)%Z ->
  exists step, f_step sampling_rate n_fft = Ok step /\ 0 < step.
Proof.
  intros Hs Hn.
  assert (Hq : 0 < inject_Z n_fft) by (change 0 with (inject_Z 0); rewrite <- Zlt_Qlt; exact Hn).
  exists (rnd64 (sampling_rate / inject_Z n_fft)). split.
  - unfold f_step. apply truediv_ok. lra.
  - apply rnd64_pos_lt. apply Qlt_shift_div_l; lra.
Qed.

Lemma bin_of_nonneg freq step :
  0 <= freq -> 0 < step ->
  exists q, truediv freq step = Ok q /\ 0 <= q /\ bin freq step = Ok (Qfloor q).
Proof.
  intros Hf Hs. exists (rnd64 (freq / step)).
  assert (T : truediv freq step = Ok (rnd64 (freq / step))) by (apply truediv_ok; lra).
  assert (P : 0 <= rnd64 (freq / step)).
  { rewrite <- (rnd64_zero 0) by reflexivity. apply rnd64_mono.
    apply Qle_shift_div_l; lra. }
  repeat split; try assumption.
  unfold bin. rewrite T. cbn. rewrite py_int_floor by assumption. reflexivity.
Qed.

Lemma slice_rows_nonneg {A : Type} (lo hi : Z) (Y : matrix A) :
  (0 <= lo)%Z -> (0 <= hi)%Z ->
  slice_rows lo hi Y = firstn (Z.to_nat (hi - lo)) (skipn (Z.to_nat lo) Y).
Proof.
  intros Hlo Hhi. unfold slice_rows, slice_bound.
  destruct (Z.ltb_spec lo 0); [lia|]. destruct (Z.ltb_spec hi 0); [lia|].
  set (len := Z.of_nat (length Y)).
  destruct (Z.le_gt_cases len lo) as [L|L].
  - rewrite (Z.min_r lo len) by lia.
    rewrite !skipn_all2 by lia. rewrite !firstn_nil. reflexivity.
  - rewrite (Z.min_l lo) by lia.
    destruct (Z.le_gt_cases hi len) as [M|M].
    + rewrite (Z.min_l hi len) by lia. reflexivity.
    + rewrite (Z.min_r hi len) by lia.
      rewrite !firstn_all2; [reflexivity| |]; rewrite length_skipn; lia.
Qed.

Lemma nth_error_slice_rows {A : Type} (lo hi : Z) (Y : matrix A) (i : nat) :
  (0 <= lo)%Z -> (0 <= hi)%Z ->
  nth_error (slice_rows lo hi Y) i =
  if (Z.of_nat i <? hi - lo)%Z then nth_error Y (Z.to_nat lo + i) else None.
Proof.
  intros Hlo Hhi. rewrite slice_rows_nonneg by assumption.
  destruct (Z.ltb_spec (Z.of_nat i) (hi - lo)).
  - rewrite nth_error_firstn.
    destruct (Nat.ltb_spec i (Z.to_nat (hi - lo))); [|lia].
    apply nth_error_skipn.
  - apply nth_error_None. rewrite length_firstn. lia.
Qed.

Lemma slice_rows_empty_iff {A : Type} (lo hi : Z) (Y : matrix A) :
  (0 <= lo)%Z -> (0 <= hi)%Z ->
  slice_rows lo hi Y = [] <-> (hi <= lo)%Z \/ (Z.of_nat (length Y) <= lo)%Z.
Proof.
  intros Hlo Hhi. rewrite slice_rows_nonneg by assumption.
  split.
  - intros E. apply (f_equal (@length _)) in E.
    rewrite length_firstn, length_skipn in E. cbn in E. lia.
  - intros H. apply length_zero_iff_nil. rewrite length_firstn, length_skipn. lia.
Qed.

Lemma zero_size_rows {A : Type} (M : matrix A) :
  Forall (fun row => row <> []) M -> zero_size M = true <-> M = [].
Proof.
  intros H. split.
  - destruct H as [|row M' Hr _]; [reflexivity|].
    cbn. destruct row; [contradiction|discriminate].
  - intros ->. reflexivity.
Qed.

Lemma Forall_slice_rows {A : Type} (P : list A -> Prop) (lo hi : Z) (Y : matrix A) :
  Forall P Y -> Forall P (slice_rows lo hi Y).
Proof.
  intros H. unfold slice_rows. apply Forall_forall. intros r Hin.
  apply In_firstn, In_skipn in Hin.
  rewrite Forall_forall in H. apply H, Hin.
Qed.

End SpectrogramFacts.

(** ** The directory tree *)

Module FsFacts.

Import Fs.
#[local] Open Scope string_scope.
#[local] Open Scope list_scope.

Lemma assoc_upsert_eq x v es : assoc x (upsert x v es) = Some v.
Proof.
  induction es as [|[y n] es IH]; cbn.
  - rewrite String.eqb_refl. reflexivity.
  - destruct (x =? y) eqn:E; cbn.
    + rewrite String.eqb_refl. reflexivity.
    + rewrite E. exact IH.
Qed.

Lemma assoc_upsert_neq x y v es : x <> y -> assoc y (upsert x v es) = assoc y es.
Proof.
  intros N. induction es as [|[z n] es IH]; cbn.
  - destruct (String.eqb_spec y x); [congruence|reflexivity].
  - destruct (String.eqb_spec x z) as [E|E]; cbn.
    + subst z. destruct (String.eqb_spec y x); [congruence|reflexivity].
    + destruct (y =? z); [reflexivity|exact IH].
Qed.

Lemma assoc_del_eq x es : assoc x (del x es) = None.
Proof.
  unfold del. induction es as [|[y n] es IH]; cbn; [reflexivity|].
  destruct (x =? y) eqn:E; cbn; [exact IH|]. rewrite E. exact IH.
Qed.

Lemma assoc_del_neq x y es : x <> y -> assoc y (del x es) = assoc y es.
Proof.
  intros N. unfold del. induction es as [|[z n] es IH]; cbn; [reflexivity|].
  destruct (String.eqb_spec x z) as [E|E]; cbn.
  - subst z. destruct (String.eqb_spec y x); [congruence|exact IH].
  - destruct (y =? z); [reflexivity|exact IH].
Qed.

Lemma assoc_app x es es' :
  assoc x (es ++ es') = match assoc x es with Some v => Some v | None => assoc x es' end.
Proof.
  induction es as [|[y n] es IH]; cbn; [reflexivity|].
  destruct (x =? y); [reflexivity|exact IH].
Qed.

Lemma assoc_None_notin x es : assoc x es = None <-> ~ In x (map fst es).
Proof.
  induction es as [|[y n] es IH]; cbn.
  - tauto.
  - destruct (String.eqb_spec x y) as [E|E].
    + subst. split; [discriminate|]. intros H. exfalso. apply H. left. reflexivity.
    + rewrite IH. split; [intros H [C|C]; [congruence|contradiction] | tauto].
Qed.

Lemma assoc_Some_In x v es : assoc x es = Some v -> In (x, v) es.
Proof.
  induction es as [|[y n] es IH]; cbn; [discriminate|].
  destruct (String.eqb_spec x y) as [E|E].
  - intros H. injection H as ->. subst. left. reflexivity.
  - intros H. right. exact (IH H).
Qed.

Lemma In_assoc x v es : NoDup (map fst es) -> In (x, v) es -> assoc x es = Some v.
Proof.
  induction es as [|[y n] es IH]; cbn; [contradiction|].
  intros ND [H|H].
  - injection H as -> ->. rewrite String.eqb_refl. reflexivity.
  - inversion ND as [|? ? Hy ND']; subst.
    destruct (String.eqb_spec x y) as [E|E].
    + subst. exfalso. apply Hy. apply (in_map fst) in H. exact H.
    + exact (IH ND' H).
Qed.

Lemma upsert_fresh x v es : assoc x es = None -> upsert x v es = es ++ [(x, v)].
Proof.
  induction es as [|[y n] es IH]; cbn; [reflexivity|].
  destruct (x =? y); [discriminate|]. intros H. rewrite (IH H). reflexivity.
Qed.

Lemma del_cons x y n es :
  del x ((y, n) :: es) = if x =? y then del x es else (y, n) :: del x es.
Proof. unfold del. cbn. destruct (x =? y); reflexivity. Qed.

Lemma del_notin x es : assoc x es = None -> del x es = es.
Proof.
  unfold del. induction es as [|[y n] es IH]; cbn; [reflexivity|].
  destruct (x =? y) eqn:E; [discriminate|]. cbn. intros H. rewrite (IH H). reflexivity.
Qed.

Lemma names_del x es : map fst (del x es) = filter (fun y => negb (x =? y)) (map fst es).
Proof.
  unfold del. induction es as [|[y n] es IH]; cbn; [reflexivity|].
  destruct (x =? y); cbn; rewrite IH; reflexivity.
Qed.

Lemma NoDup_names_del x es : NoDup (map fst es) -> NoDup (map fst (del x es)).
Proof. intros H. rewrite names_del. apply NoDup_filter, H. Qed.

Lemma del_Permutation x v es :
  NoDup (map fst es) -> assoc x es = Some v -> Permutation ((x, v) :: del x es) es.
Proof.
  induction es as [|[y n] es IH]; [discriminate|].
  cbn [assoc map fst]. rewrite del_cons.
  intros ND H. inversion ND as [|? ? Hy ND']; subst.
  destruct (String.eqb_spec x y) as [E|E].
  - injection H as ->. subst y. rewrite del_notin; [reflexivity|].
    apply assoc_None_notin, Hy.
  - etransitivity; [apply perm_swap|]. apply perm_skip. exact (IH ND' H).
Qed.

(** *** Paths *)

Lemma get_app p q n :
  get (p ++ q) n = match get p n with Some c => get q c | None => None end.
Proof.
  revert n. induction p as [|x p IH]; intros n; cbn; [reflexivity|].
  destruct n as [c|es]; [reflexivity|].
  destruct (assoc x es); [apply IH|reflexivity].
Qed.

Lemma get_snoc d x n :
  get (d ++ [x]) n =
  match get d n with Some (Dir es) => assoc x es | _ => None end.
Proof.
  rewrite get_app. destruct (get d n) as [[c|es]|]; cbn; try reflexivity.
  destruct (assoc x es); reflexivity.
Qed.

Lemma diverge_sym p q : diverge p q -> diverge q p.
Proof.
  revert q. induction p as [|x p IH]; intros [|y q]; cbn; try tauto.
  intros [H|[H D]]; [left; congruence | right; split; [congruence | apply IH, D]].
Qed.

Lemma diverge_app_l p q r : diverge p q -> diverge (p ++ r) q.
Proof.
  revert q. induction p as [|x p IH]; intros [|y q]; cbn; try tauto.
  intros [H|[H D]]; [left; exact H | right; split; [exact H | apply IH, D]].
Qed.

Lemma diverge_app_r p q r : diverge p q -> diverge p (q ++ r).
Proof. intros H. apply diverge_sym, diverge_app_l, diverge_sym, H. Qed.

Lemma diverge_snoc p x y : x <> y -> diverge (p ++ [x]) (p ++ [y]).
Proof.
  intros N. induction p as [|z p IH]; cbn; [left; exact N|].
  right. split; [reflexivity|exact IH].
Qed.

Lemma clear_of_dir p n es : get p n = Some (Dir es) -> clear p n = true.
Proof.
  revert n. induction p as [|x p IH]; intros n; cbn.
  - intros H. injection H as ->. reflexivity.
  - destruct n as [c|es']; [discriminate|].
    destruct (assoc x es') as [c|]; [apply IH|discriminate].
Qed.

Lemma clear_not_file p n c : clear p n = true -> get p n <> Some (File c).
Proof.
  revert n. induction p as [|x p IH]; intros n; cbn.
  - destruct n; [discriminate|]. intros _ H. discriminate.
  - destruct n as [c'|es]; [discriminate|].
    destruct (assoc x es) as [k|]; [apply IH|]. intros _ H. discriminate.
Qed.

(** *** [put] *)

Lemma put_frame p v n n' q :
  put p v n = Some n' -> diverge p q ->
  get q n' = get q n /\ clear q n' = clear q n.
Proof.
  revert n n' q. induction p as [|x p IH]; intros n n' q; cbn; [discriminate|].
  destruct n as [c|es]; [discriminate|].
  destruct q as [|y q]; [contradiction|].
  destruct p as [|z p].
  - intros H [D|[_ []]]. injection H as <-. cbn.
    rewrite assoc_upsert_neq by exact D. split; reflexivity.
  - destruct (assoc x es) as [c|] eqn:A; [|discriminate].
    destruct (put (z :: p) v c) as [c'|] eqn:P; [|discriminate].
    intros H D. injection H as <-. cbn [get clear].
    destruct (String.eqb_spec x y) as [E|E].
    + subst y. rewrite assoc_upsert_eq, A.
      destruct D as [D|[_ D]]; [congruence|]. exact (IH _ _ _ P D).
    + rewrite assoc_upsert_neq by exact E. split; reflexivity.
Qed.

Lemma put_snoc d x v n es :
  get d n = Some (Dir es) ->
  exists n', put (d ++ [x]) v n = Some n' /\ get d n' = Some (Dir (upsert x v es)).
Proof.
  revert n. induction d as [|y d IH]; intros n; cbn.
  - intros H. injection H as ->. eexists. split; reflexivity.
  - destruct n as [c|es']; [discriminate|].
    destruct (assoc y es') as [c|] eqn:A; [|discriminate].
    intros H. destruct (IH c H) as (c' & P & G).
    destruct (d ++ [x]) as [|z r] eqn:E; [destruct d; discriminate|].
    rewrite P. eexists. split; [reflexivity|].
    cbn [get]. rewrite assoc_upsert_eq. exact G.
Qed.

(** *** [remove] *)

Lemma remove_frame p n n' q :
  remove p n = Some n' -> diverge p q ->
  get q n' = get q n /\ clear q n' = clear q n.
Proof.
  revert n n' q. induction p as [|x p IH]; intros n n' q; cbn; [discriminate|].
  destruct n as [c|es]; [discriminate|].
  destruct q as [|y q]; [contradiction|].
  destruct p as [|z p].
  - intros H [D|[_ []]]. injection H as <-. cbn.
    rewrite assoc_del_neq by exact D. split; reflexivity.
  - destruct (assoc x es) as [c|] eqn:A; [|discriminate].
    destruct (remove (z :: p) c) as [c'|] eqn:P; [|discriminate].
    intros H D. injection H as <-. cbn [get clear].
    destruct (String.eqb_spec x y) as [E|E].
    + subst y. rewrite assoc_upsert_eq, A.
      destruct D as [D|[_ D]]; [congruence|]. exact (IH _ _ _ P D).
    + rewrite assoc_upsert_neq by exact E. split; reflexivity.
Qed.

Lemma remove_snoc d x n es :
  get d n = Some (Dir es) ->
  exists n', remove (d ++ [x]) n = Some n' /\ get d n' = Some (Dir (del x es)).
Proof.
  revert n. induction d as [|y d IH]; intros n; cbn.
  - intros H. injection H as ->. eexists. split; reflexivity.
  - destruct n as [c|es']; [discriminate|].
    destruct (assoc y es') as [c|] eqn:A; [|discriminate].
    intros H. destruct (IH c H) as (c' & P & G).
    destruct (d ++ [x]) as [|z r] eqn:E; [destruct d; discriminate|].
    rewrite P. eexists. split; [reflexivity|].
    cbn [get]. rewrite assoc_upsert_eq. exact G.
Qed.

Lemma remove_dir p n es :
  p <> [] -> get p n = Some (Dir es) ->
  exists n', remove p n = Some n' /\ get p n' = None /\ clear p n' = true.
Proof.
  revert n. induction p as [|x p IH]; intros n Hp; [contradiction|]. cbn.
  destruct n as [c|es']; [discriminate|].
  destruct (assoc x es') as [c|] eqn:A; [|discriminate].
  destruct p as [|z p].
  - intros _. eexists. split; [reflexivity|]. cbn.
    rewrite assoc_del_eq. split; reflexivity.
  - intros H. destruct (IH c ltac:(discriminate) H) as (c' & R & G & K).
    rewrite R. eexists. split; [reflexivity|]. cbn [get clear].
    rewrite assoc_upsert_eq. split; assumption.
Qed.

(** *** [mkdirs] *)

Lemma get_fresh p : get p (fresh p) = Some (Dir []).
Proof.
  induction p as [|x p IH]; cbn; [reflexivity|].
  rewrite String.eqb_refl. exact IH.
Qed.

Lemma mkdirs_absent p n :
  clear p n = true -> get p n = None ->
  exists n', mkdirs p n = Ok n' /\ get p n' = Some (Dir []).
Proof.
  revert n. induction p as [|x p IH]; intros n; cbn.
  - destruct n; discriminate.
  - destruct n as [c|es]; [discriminate|]. cbn.
    destruct (assoc x es) as [c|] eqn:A.
    + intros K G. destruct (IH c K G) as (c' & M & G').
      rewrite M. cbn. eexists. split; [reflexivity|]. cbn.
      rewrite assoc_upsert_eq. exact G'.
    + intros _ _. eexists. split; [reflexivity|]. cbn.
      rewrite assoc_app, A. cbn. rewrite String.eqb_refl. apply get_fresh.
Qed.

Lemma mkdirs_frame p n n' q :
  mkdirs p n = Ok n' -> diverge p q ->
  get q n' = get q n /\ clear q n' = clear q n.
Proof.
  revert n n' q. induction p as [|x p IH]; intros n n' q; cbn; [discriminate|].
  destruct n as [c|es]; [discriminate|].
  destruct q as [|y q]; [contradiction|].
  destruct (assoc x es) as [c|] eqn:A.
  - destruct (mkdirs p c) as [c'|e] eqn:M; [|discriminate]. cbn.
    intros H D. injection H as <-. cbn [get clear].
    destruct (String.eqb_spec x y) as [E|E].
    + subst y. rewrite assoc_upsert_eq, A.
      destruct D as [D|[_ D]]; [congruence|]. exact (IH _ _ _ M D).
    + rewrite assoc_upsert_neq by exact E. split; reflexivity.
  - intros H D. injection H as <-. cbn [get clear]. rewrite assoc_app.
    destruct (String.eqb_spec x y) as [E|E].
    + subst y. destruct D as [D|[_ D]]; [congruence|].
      rewrite A. cbn. rewrite String.eqb_refl.
      clear IH A. revert q D. induction p as [|z p IHp]; intros q D; [contradiction|].
      destruct q as [|w q]; [contradiction|]. cbn.
      destruct (String.eqb_spec w z) as [E|E]; [|split; reflexivity].
      subst w. destruct D as [D|[_ D]]; [congruence|].
      destruct (IHp q D) as [G K]. split; assumption.
    + destruct (assoc y es); [split; reflexivity|]. cbn.
      destruct (String.eqb_spec y x); [congruence|]. split; reflexivity.
Qed.

(** *** Well-formed trees *)

Lemma distinct_NoDup l : distinct l = true -> NoDup l.
Proof.
  induction l as [|x l IH]; cbn; [constructor|].
  intros H. apply andb_true_iff in H. destruct H as [H1 H2].
  constructor; [|exact (IH H2)].
  intros Hin. apply negb_true_iff in H1.
  assert (E : existsb (String.eqb x) l = true).
  { apply existsb_exists. exists x. split; [exact Hin|apply String.eqb_refl]. }
  congruence.
Qed.

Lemma wf_names es : wf (Dir es) = true -> NoDup (map fst es).
Proof.
  cbn. intros H. apply andb_true_iff in H. apply distinct_NoDup, H.
Qed.

Lemma wf_assoc x es c : wf (Dir es) = true -> assoc x es = Some c -> wf c = true.
Proof.
  cbn [wf]. intros H A. apply andb_true_iff in H. destruct H as [_ H].
  rewrite forallb_forall in H. apply assoc_Some_In in A. exact (H _ A).
Qed.

Lemma wf_get p n m : wf n = true -> get p n = Some m -> wf m = true.
Proof.
  revert n. induction p as [|x p IH]; intros n W; cbn.
  - intros H. injection H as <-. exact W.
  - destruct n as [c|es]; [discriminate|].
    destruct (assoc x es) as [c|] eqn:A; [|discriminate].
    apply IH. exact (wf_assoc _ _ _ W A).
Qed.

End FsFacts.

(** ** Path strings and the walk *)

Module ScannerFacts.

Import Fs FsFacts Scanner.
#[local] Open Scope string_scope.
#[local] Open Scope list_scope.

(** An induction principle that reaches the entries of a directory. *)
Lemma node_rect_entries (P : node -> Prop) :
  (forall c, P (File c)) ->
  (forall es, Forall (fun e => P (snd e)) es -> P (Dir es)) ->
  forall n, P n.
Proof.
  intros HF HD.
  fix rec 1. intros [c|es].
  - apply HF.
  - apply HD. induction es as [|[x n] es IH]; constructor; [apply rec|exact IH].
Qed.

(** *** Suffixes *)

Fixpoint has_sep (s : string) : bool :=
  match s with
  | EmptyString => false
  | String c s' => (c =? "/")%char || has_sep s'
  end.

Lemma append_assoc_string (a b c : string) : ((a ++ b) ++ c = a ++ (b ++ c))%string.
Proof. induction a as [|ch a IH]; cbn; [reflexivity|]. rewrite IH. reflexivity. Qed.

Lemma has_sep_app t b : has_sep (t ++ String "/" b)%string = true.
Proof.
  induction t as [|c t IH]; cbn; [reflexivity|].
  rewrite IH. apply orb_true_r.
Qed.

Lemma endswith_after_sep t b suffix :
  has_sep suffix = false ->
  endswith (t ++ String "/" b)%string suffix = endswith b suffix.
Proof.
  intros Hs.
  assert (Hne : forall u, ((u ++ String "/" b)%string =? suffix) = false).
  { intros u. destruct (String.eqb_spec (u ++ String "/" b)%string suffix) as [E|E]; [|reflexivity].
    rewrite <- E, has_sep_app in Hs. discriminate. }
  induction t as [|c t IH].
  - pose proof (Hne EmptyString) as H0. cbn [append] in H0.
    cbn [append endswith]. rewrite H0. reflexivity.
  - pose proof (Hne (String c t)) as H0. cbn [append] in H0.
    cbn [append endswith]. rewrite H0. exact IH.
Qed.

Lemma endswith_sep_split a : endswith a "/" = true -> exists t, a = (t ++ "/")%string.
Proof.
  induction a as [|c a IH]; cbn [endswith].
  - cbn. discriminate.
  - intros H. apply orb_true_iff in H. destruct H as [H|H].
    + apply String.eqb_eq in H. exists EmptyString. exact H.
    + destruct (IH H) as (t & ->). exists (String c t). reflexivity.
Qed.

Lemma endswith_join a b suffix :
  has_sep suffix = false ->
  endswith (os_path_join a b) suffix = endswith b suffix.
Proof.
  intros Hs. unfold os_path_join.
  destruct (prefix "/" b); [reflexivity|].
  destruct (String.eqb_spec a EmptyString) as [E|E]; cbn [orb].
  - subst a. reflexivity.
  - destruct (endswith a "/") eqn:S.
    + destruct (endswith_sep_split a S) as (t & ->).
      rewrite append_assoc_string. cbn [append]. apply endswith_after_sep, Hs.
    + cbn [append]. apply endswith_after_sep, Hs.
Qed.

(** *** The directories and files a walk meets *)

(** [reach top n dirpath m]: walking from the tree [n], named [top], the
    node [m] is met under the path string [dirpath]. *)
Inductive reach (top : string) (n : node) : string -> node -> Prop :=
| reach_top : reach top n top n
| reach_sub dirpath es name c :
    reach top n dirpath (Dir es) -> In (name, c) es ->
    reach top n (os_path_join dirpath name) c.

Lemma reach_entry top es name c dirpath m :
  In (name, c) es -> reach (os_path_join top name) c dirpath m ->
  reach top (Dir es) dirpath m.
Proof.
  intros Hin R. induction R as [|dp es' name' c' R IH Hin'].
  - exact (reach_sub top (Dir es) top es name c (reach_top _ _) Hin).
  - exact (reach_sub _ _ _ _ _ _ IH Hin').
Qed.

Lemma os_walk_sound n : forall top t,
  In t (os_walk top n) ->
  exists es, reach top n (fst (fst t)) (Dir es) /\
             snd (fst t) = dirnames es /\ snd t = filenames es.
Proof.
  induction n as [c|es IH] using node_rect_entries; intros top t; cbn.
  - contradiction.
  - intros [H|H].
    + subst t. exists es. cbn. repeat split. constructor.
    + apply in_flat_map in H. destruct H as ([name c] & Hin & Ht). cbn in Ht.
      rewrite Forall_forall in IH.
      destruct (IH _ Hin _ _ Ht) as (es' & R & D & Fl).
      exists es'. repeat split; try assumption.
      exact (reach_entry _ _ _ _ _ _ Hin R).
Qed.

Lemma os_walk_reach top n dirpath m :
  reach top n dirpath m -> incl (os_walk dirpath m) (os_walk top n).
Proof.
  intros R. induction R as [|dp es name c R IH Hin].
  - apply incl_refl.
  - intros t Ht. apply IH. cbn. right.
    apply in_flat_map. exists (name, c). split; assumption.
Qed.

Lemma os_walk_complete top n dirpath es :
  reach top n dirpath (Dir es) ->
  In (dirpath, dirnames es, filenames es) (os_walk top n).
Proof.
  intros R. apply (os_walk_reach _ _ _ _ R). cbn. left. reflexivity.
Qed.

Lemma In_filenames name es :
  In name (filenames es) <-> exists content, In (name, File content) es.
Proof.
  unfold filenames. rewrite in_flat_map. split.
  - intros ([x [c|es']] & Hin & H); cbn in H; [|contradiction].
    destruct H as [<-|[]]. exists c. exact Hin.
  - intros (c & Hin). exists (name, File c). split; [exact Hin|]. cbn. left. reflexivity.
Qed.

Lemma In_dirnames name es :
  In name (dirnames es) <-> exists sub, In (name, Dir sub) es.
Proof.
  unfold dirnames. rewrite in_flat_map. split.
  - intros ([x [c|es']] & Hin & H); cbn in H; [contradiction|].
    destruct H as [<-|[]]. exists es'. exact Hin.
  - intros (c & Hin). exists (name, Dir c). split; [exact Hin|]. cbn. left. reflexivity.
Qed.

Lemma In_get_all_wavfiles top n p :
  In p (get_all_wavfiles top n) <->
  exists dirpath es name,
    reach top n dirpath (Dir es) /\ In name (filenames es) /\
    endswith (os_path_join dirpath name) ".wav" = true /\
    p = os_path_join dirpath name.
Proof.
  unfold get_all_wavfiles. rewrite in_flat_map. split.
  - intros ([[dp ds] fl] & Hw & Hp).
    destruct (os_walk_sound _ _ _ Hw) as (es & R & _ & Fl). cbn in R, Fl. subst fl.
    apply in_flat_map in Hp. destruct Hp as (name & Hn & Hp).
    destruct (endswith (os_path_join dp name) ".wav") eqn:E; [|contradiction].
    destruct Hp as [<-|[]]. exists dp, es, name. repeat split; assumption.
  - intros (dp & es & name & R & Hn & E & ->).
    exists (dp, dirnames es, filenames es). split; [apply os_walk_complete, R|].
    apply in_flat_map. exists name. split; [exact Hn|].
    rewrite E. left. reflexivity.
Qed.

Lemma get_all_wavfiles_end top n :
  Forall (fun p => endswith p ".wav" = true) (get_all_wavfiles top n).
Proof.
  apply Forall_forall. intros p H. apply In_get_all_wavfiles in H.
  destruct H as (dp & es & name & _ & _ & E & ->). exact E.
Qed.

Lemma get_all_wavfiles_Permutation top es es' :
  Permutation es es' ->
  Permutation (get_all_wavfiles top (Dir es)) (get_all_wavfiles top (Dir es')).
Proof.
  intros H. unfold get_all_wavfiles. cbn [os_walk flat_map].
  apply Permutation_app.
  - apply Permutation_flat_map. unfold filenames. apply Permutation_flat_map, H.
  - apply Permutation_flat_map. apply Permutation_flat_map, H.
Qed.

(** *** [create_storage_for_images] *)

Lemma create_storage_resets d fs :
  d <> [] -> clear d fs = true ->
  exists fs', create_storage_for_images d fs = Ok (tt, fs') /\
              get d fs' = Some (Dir []).
Proof.
  intros Hd K. unfold create_storage_for_images, iobind, os_path_exists.
  destruct (get d fs) as [[c|es]|] eqn:G.
  - exfalso. exact (clear_not_file _ _ _ K G).
  - unfold shutil_rmtree. rewrite G.
    destruct (remove_dir d fs es Hd G) as (fs1 & R & G1 & K1). rewrite R.
    destruct (mkdirs_absent d fs1 K1 G1) as (fs2 & M & G2).
    unfold os_makedirs. rewrite M. cbn. exists fs2. split; [reflexivity|exact G2].
  - unfold ret.
    destruct (mkdirs_absent d fs K G) as (fs2 & M & G2).
    unfold os_makedirs. rewrite M. cbn. exists fs2. split; [reflexivity|exact G2].
Qed.

(** *** The render loop *)

Definition is_saved (ev : event) : Prop :=
  match ev with
  | Saved _ _ => True
  | Skipped _ => False
  end.

Section RenderLoopFacts.

Variable save_spectrogram_image : string -> path -> nat -> io string.
Variables CLIPS_PATH SAVE_IMAGE_PATH : path.

Lemma render_clips_never_skips clips out count fs :
  Forall (fun p => endswith p ".wav" = true) clips ->
  Forall is_saved (fst (render_clips save_spectrogram_image clips out count fs)).
Proof.
  intros H. revert count fs. induction H as [|p clips Hp _ IH]; intros count fs; cbn.
  - constructor.
  - rewrite Hp. cbn [negb].
    destruct (save_spectrogram_image p out count fs) as [[s fs']|e]; [|constructor].
    specialize (IH (S count) fs').
    destruct (render_clips save_spectrogram_image clips out (S count) fs') as [evs r].
    cbn in *. constructor; [exact I|exact IH].
Qed.

Lemma render_all_never_skips species : forall count fs,
  Forall is_saved
    (fst (render_all save_spectrogram_image CLIPS_PATH SAVE_IMAGE_PATH species count fs)).
Proof.
  induction species as [|specie rest IH]; intros count fs; cbn [render_all].
  - constructor.
  - destruct (create_storage_for_images (SAVE_IMAGE_PATH ++ [specie]) fs)
      as [[u fs1]|e]; [|constructor].
    set (clips := match get (CLIPS_PATH ++ [specie]) fs1 with
                  | Some n => get_all_wavfiles (path_string (CLIPS_PATH ++ [specie])) n
                  | None => []
                  end).
    assert (Hc : Forall (fun p => endswith p ".wav" = true) clips).
    { unfold clips. destruct (get (CLIPS_PATH ++ [specie]) fs1);
        [apply get_all_wavfiles_end|constructor]. }
    pose proof (render_clips_never_skips clips (SAVE_IMAGE_PATH ++ [specie]) count fs1 Hc) as Hr.
    destruct (render_clips save_spectrogram_image clips (SAVE_IMAGE_PATH ++ [specie]) count fs1)
      as [evs [[count' fs2]|e]]; cbn in Hr; [|exact Hr].
    specialize (IH count' fs2).
    destruct (render_all save_spectrogram_image CLIPS_PATH SAVE_IMAGE_PATH rest count' fs2)
      as [evs' r]. cbn in *. apply Forall_app. split; assumption.
Qed.

End RenderLoopFacts.

End ScannerFacts.

(** ** The split *)

Module SplitterFacts.

Import Float64 Float64Facts Fs FsFacts Splitter ListFacts.
#[local] Open Scope string_scope.
#[local] Open Scope list_scope.

(** *** The test count *)

Lemma test_count_range (n : Z) (ratio : Q) :
  (0 <= n <= 2 ^ 53)%Z -> (0 <= ratio)%Q -> (ratio <= 1)%Q ->
  (0 <= test_count (rnd64 (inject_Z n)) ratio <= n)%Z.
Proof.
  intros Hn H0 H1. unfold test_count, np_round, fmul, fsub.
  assert (Hc : (rnd64 (inject_Z n) == inject_Z n)%Q) by (apply rnd64_Z; lia).
  destruct (rnd64_between 0 1 (1 - ratio)) as [S0 S1];
    [cbn; lia | cbn; lia | change (inject_Z 0) with 0%Q; lra
    | change (inject_Z 1) with 1%Q; lra |].
  change (inject_Z 0) with 0%Q in S0. change (inject_Z 1) with 1%Q in S1.
  set (s := rnd64 (1 - ratio)) in *.
  assert (Hn0 : (0 <= inject_Z n)%Q).
  { change 0%Q with (inject_Z 0). rewrite <- Zle_Qle. lia. }
  assert (P0 : (0 <= rnd64 (inject_Z n) * s)%Q).
  { rewrite Hc. apply Qmult_le_0_compat; assumption. }
  assert (P1 : (rnd64 (inject_Z n) * s <= inject_Z n)%Q).
  { rewrite Hc. rewrite <- (Qmult_1_r (inject_Z n)) at 2.
    rewrite (Qmult_comm (inject_Z n) s), (Qmult_comm (inject_Z n) 1).
    apply Qmult_le_compat_r; assumption. }
  destruct (rnd64_between 0 n (rnd64 (inject_Z n) * s)) as [R0 R1];
    [cbn; lia | lia | exact P0 | exact P1 |].
  apply round_half_even_between; assumption.
Qed.

Lemma test_count_of_none (ratio : Q) : test_count (rnd64 (inject_Z 0)) ratio = 0%Z.
Proof.
  unfold test_count, fmul. change (rnd64 (inject_Z 0)) with 0%Q.
  destruct (fsub 1 ratio) as [a b]. reflexivity.
Qed.

(** *** What a run of moves leaves behind and carries over *)

Fixpoint remaining (ms : list string) (es : list (string * node)) : list (string * node) :=
  match ms with
  | [] => es
  | f :: ms' => remaining ms' (del f es)
  end.

Fixpoint relocated (ms : list string) (es : list (string * node)) : list (string * node) :=
  match ms with
  | [] => []
  | f :: ms' =>
      match assoc f es with
      | Some v => (f, v) :: relocated ms' (del f es)
      | None => relocated ms' (del f es)
      end
  end.

Lemma assoc_remaining x ms : forall es,
  assoc x (remaining ms es) = if in_dec string_dec x ms then None else assoc x es.
Proof.
  induction ms as [|f ms IH]; intros es; cbn [remaining]; [reflexivity|].
  rewrite IH. destruct (in_dec string_dec x ms) as [I|I];
    destruct (in_dec string_dec x (f :: ms)) as [J|J]; try reflexivity.
  - exfalso. apply J. right. exact I.
  - destruct J as [J|J]; [|contradiction]. subst. apply assoc_del_eq.
  - apply assoc_del_neq. intros E. apply J. left. exact E.
Qed.

Lemma relocated_names ms : forall es,
  NoDup ms -> (forall f, In f ms -> assoc f es <> None) ->
  map fst (relocated ms es) = ms.
Proof.
  induction ms as [|f ms IH]; intros es ND Hin; cbn [relocated]; [reflexivity|].
  inversion ND as [|? ? Hf ND']; subst.
  destruct (assoc f es) as [v|] eqn:A; [|exfalso; apply (Hin f); [left; reflexivity|exact A]].
  cbn. f_equal. apply IH; [exact ND'|].
  intros f' Hf'. rewrite assoc_del_neq; [apply Hin; right; exact Hf'|].
  intros E. subst. contradiction.
Qed.

Lemma remaining_relocated ms : forall es,
  NoDup (map fst es) -> NoDup ms -> (forall f, In f ms -> assoc f es <> None) ->
  Permutation (remaining ms es ++ relocated ms es) es.
Proof.
  induction ms as [|f ms IH]; intros es NDe ND Hin; cbn [remaining relocated].
  - rewrite app_nil_r. reflexivity.
  - inversion ND as [|? ? Hf ND']; subst.
    destruct (assoc f es) as [v|] eqn:A; [|exfalso; apply (Hin f); [left; reflexivity|exact A]].
    assert (Hin' : forall f', In f' ms -> assoc f' (del f es) <> None).
    { intros f' Hf'. rewrite assoc_del_neq; [apply Hin; right; exact Hf'|].
      intros E. subst. contradiction. }
    pose proof (IH (del f es) (NoDup_names_del f es NDe) ND' Hin') as P.
    etransitivity; [symmetry; apply Permutation_middle|].
    etransitivity; [apply perm_skip, P|].
    apply del_Permutation; assumption.
Qed.

(** *** Commands *)

Lemma os_listdir_dir p fs es :
  get p fs = Some (Dir es) -> os_listdir p fs = Ok (map fst es, fs).
Proof. intros H. unfold os_listdir. rewrite H. reflexivity. Qed.

Definition unchanged_at (q : path) (fs fs' : node) : Prop :=
  get q fs' = get q fs /\ clear q fs' = clear q fs.

Lemma unchanged_at_trans q fs1 fs2 fs3 :
  unchanged_at q fs1 fs2 -> unchanged_at q fs2 fs3 -> unchanged_at q fs1 fs3.
Proof. intros [A B] [C D]. split; congruence. Qed.

Lemma move_entry src dst f v ses tes fs :
  diverge src dst ->
  get src fs = Some (Dir ses) -> get dst fs = Some (Dir tes) ->
  assoc f ses = Some v -> assoc f tes = None ->
  exists fs',
    shutil_move (src ++ [f]) (dst ++ [f]) fs = Ok (tt, fs') /\
    get src fs' = Some (Dir (del f ses)) /\
    get dst fs' = Some (Dir (tes ++ [(f, v)])) /\
    (forall q, diverge src q -> diverge dst q -> unchanged_at q fs fs').
Proof.
  intros D GS GT AS AT.
  assert (Gsrc : get (src ++ [f]) fs = Some v) by (rewrite get_snoc, GS; exact AS).
  assert (Gdst : get (dst ++ [f]) fs = None) by (rewrite get_snoc, GT; exact AT).
  destruct (remove_snoc src f fs ses GS) as (fs1 & R & GS1).
  pose proof (remove_frame _ _ _ dst R (diverge_app_l _ _ _ D)) as [GT1 _].
  rewrite GT in GT1.
  destruct (put_snoc dst f v fs1 tes GT1) as (fs2 & P & GT2).
  pose proof (put_frame _ _ _ _ src P (diverge_app_l _ _ _ (diverge_sym _ _ D))) as [GS2 _].
  rewrite GS1 in GS2. rewrite upsert_fresh in GT2 by exact AT.
  exists fs2. split; [|split; [exact GS2|split; [exact GT2|]]].
  - unfold shutil_move. rewrite Gdst. unfold os_rename. rewrite Gsrc, Gdst, R, P.
    destruct v; reflexivity.
  - intros q DS DT.
    apply (unchanged_at_trans q fs fs1 fs2).
    + exact (remove_frame _ _ _ q R (diverge_app_l _ _ _ DS)).
    + exact (put_frame _ _ _ _ q P (diverge_app_l _ _ _ DT)).
Qed.

Lemma move_names src dst ms : forall ses tes fs,
  diverge src dst ->
  get src fs = Some (Dir ses) -> get dst fs = Some (Dir tes) ->
  NoDup ms ->
  (forall f, In f ms -> assoc f ses <> None) ->
  (forall f, In f ms -> assoc f tes = None) ->
  exists fs',
    for_each ms (fun f => shutil_move (src ++ [f]) (dst ++ [f])) fs = Ok (tt, fs') /\
    get src fs' = Some (Dir (remaining ms ses)) /\
    get dst fs' = Some (Dir (tes ++ relocated ms ses)) /\
    (forall q, diverge src q -> diverge dst q -> unchanged_at q fs fs').
Proof.
  induction ms as [|f ms IH]; intros ses tes fs D GS GT ND HS HT.
  - exists fs. cbn. rewrite app_nil_r. repeat split; assumption || reflexivity.
  - inversion ND as [|? ? Hf ND']; subst.
    destruct (assoc f ses) as [v|] eqn:A;
      [|exfalso; apply (HS f); [left; reflexivity|exact A]].
    destruct (move_entry src dst f v ses tes fs D GS GT A (HT f (or_introl eq_refl)))
      as (fs1 & M & GS1 & GT1 & F1).
    assert (HS' : forall f', In f' ms -> assoc f' (del f ses) <> None).
    { intros f' Hf'. rewrite assoc_del_neq; [apply HS; right; exact Hf'|].
      intros E. subst. contradiction. }
    assert (HT' : forall f', In f' ms -> assoc f' (tes ++ [(f, v)]) = None).
    { intros f' Hf'. rewrite assoc_app, (HT f' (or_intror Hf')). cbn.
      destruct (String.eqb_spec f' f); [subst; contradiction|reflexivity]. }
    destruct (IH _ _ fs1 D GS1 GT1 ND' HS' HT') as (fs2 & L & GS2 & GT2 & F2).
    exists fs2. split; [|split; [|split]].
    + cbn [for_each]. unfold iobind. rewrite M. exact L.
    + exact GS2.
    + cbn [relocated]. rewrite A. rewrite <- app_assoc in GT2. exact GT2.
    + intros q DS DT. exact (unchanged_at_trans _ _ _ _ (F1 q DS DT) (F2 q DS DT)).
Qed.

Lemma for_each_range src dst files : forall (n a : nat) fs,
  (a + n <= length files)%nat ->
  for_each (seq a n)
    (fun j =>
       match nth_error files j with
       | None => throw IndexError
       | Some f => shutil_move (src ++ [f]) (dst ++ [f])
       end) fs =
  for_each (firstn n (skipn a files)) (fun f => shutil_move (src ++ [f]) (dst ++ [f])) fs.
Proof.
  induction n as [|n IH]; intros a fs H; [reflexivity|].
  destruct (nth_error files a) as [f|] eqn:E;
    [|apply nth_error_None in E; lia].
  assert (Sk : skipn a files = f :: skipn (S a) files).
  { clear - E. revert a E. induction files as [|x l IHl]; intros [|a] E; cbn in *;
      try discriminate.
    - injection E as ->. reflexivity.
    - apply IHl, E. }
  rewrite Sk. cbn [seq firstn for_each]. unfold iobind. rewrite E.
  destruct (shutil_move (src ++ [f]) (dst ++ [f]) fs) as [[u fs1]|e]; [|reflexivity].
  apply IH. lia.
Qed.

Lemma move_files_firstn src dst files (n : nat) fs :
  (n <= length files)%nat ->
  move_files src dst files n fs =
  for_each (firstn n files) (fun f => shutil_move (src ++ [f]) (dst ++ [f])) fs.
Proof. intros H. unfold move_files. rewrite for_each_range by lia. reflexivity. Qed.

Lemma NoDup_firstn {A : Type} (n : nat) (l : list A) : NoDup l -> NoDup (firstn n l).
Proof.
  intros H. rewrite <- (firstn_skipn n l) in H. exact (NoDup_app_remove_r _ _ H).
Qed.

Lemma NoDup_dirnames es : NoDup (map fst es) -> NoDup (dirnames es).
Proof.
  unfold dirnames. induction es as [|[x n] es IH]; cbn; [constructor|].
  intros ND. inversion ND as [|? ? Hx ND']; subst.
  destruct n as [c|sub]; cbn; [exact (IH ND')|].
  constructor; [|exact (IH ND')].
  intros Hin. apply Hx. apply in_flat_map in Hin.
  destruct Hin as ([y m] & Hy & Hm). destruct m; cbn in Hm; [contradiction|].
  destruct Hm as [<-|[]]. exact (in_map fst _ _ Hy).
Qed.

Lemma class_paths_diverge data test d d' :
  diverge data test -> d <> d' ->
  diverge (data ++ [d]) (data ++ [d']) /\
  diverge (test ++ [d]) (data ++ [d']) /\
  diverge (data ++ [d]) (test ++ [d']) /\
  diverge (test ++ [d]) (test ++ [d']).
Proof.
  intros D N. repeat split.
  - apply diverge_snoc, N.
  - apply diverge_app_l, diverge_app_r, diverge_sym, D.
  - apply diverge_app_l, diverge_app_r, D.
  - apply diverge_snoc, N.
Qed.

Lemma entries_at_unchanged q fs fs' :
  unchanged_at q fs fs' -> entries_at q fs' = entries_at q fs.
Proof. intros [G _]. unfold entries_at. rewrite G. reflexivity. Qed.

Section GenerateFacts.

Variable rng : Type.
Variable shuffle : rng -> list string -> list string * rng.
Hypothesis shuffle_perm : forall g l, Permutation (fst (shuffle g l)) l.

Variables data test : path.
Hypothesis separate : diverge data test.

(** What holds of the class [d] before its turn in the transfer loop. *)
Definition class_ready (d : string) (es : list (string * node)) (k : Z) (fs : node) : Prop :=
  get (data ++ [d]) fs = Some (Dir es) /\
  NoDup (map fst es) /\
  clear (test ++ [d]) fs = true /\
  (forall f, In f (map fst es) -> assoc f (entries_at (test ++ [d]) fs) = None) /\
  (Z.to_nat k <= length es)%nat.

(** What holds of it afterwards: the names [ms] were moved. *)
Definition class_split (d : string) (es tes : list (string * node)) (k : Z) (fs' : node) : Prop :=
  exists ms,
    NoDup ms /\ incl ms (map fst es) /\ length ms = Z.to_nat k /\
    get (data ++ [d]) fs' = Some (Dir (remaining ms es)) /\
    get (test ++ [d]) fs' = Some (Dir (tes ++ relocated ms es)).

(** Lines 270-272: the destination directory is there afterwards, created
    when it was absent. *)
Lemma destination_made d fs :
  clear (test ++ [d]) fs = true ->
  exists fs0,
    (present <~ os_path_exists (test ++ [d]) ;;
     (if present then ret tt else os_makedirs (test ++ [d])))%io fs = Ok (tt, fs0) /\
    get (test ++ [d]) fs0 = Some (Dir (entries_at (test ++ [d]) fs)) /\
    (forall q, diverge (test ++ [d]) q -> unchanged_at q fs fs0).
Proof.
  intros K. unfold iobind, os_path_exists, entries_at.
  destruct (get (test ++ [d]) fs) as [[c|tes']|] eqn:GT.
  - exfalso. exact (clear_not_file _ _ _ K GT).
  - exists fs. repeat split; try reflexivity. exact GT.
  - destruct (mkdirs_absent _ _ K GT) as (fs0 & M & G0).
    exists fs0. unfold os_makedirs. rewrite M. cbn. split; [reflexivity|].
    split; [exact G0|]. intros q Dq. exact (mkdirs_frame _ _ _ q M Dq).
Qed.

Lemma transfer_class_spec d es k g fs :
  class_ready d es k fs ->
  exists g' fs',
    transfer_class rng shuffle data test d k g fs = Ok (g', fs') /\
    class_split d es (entries_at (test ++ [d]) fs) k fs' /\
    (forall q, diverge (data ++ [d]) q -> diverge (test ++ [d]) q -> unchanged_at q fs fs').
Proof.
  intros (GS & ND & K & Free & Hk).
  set (tes := entries_at (test ++ [d]) fs) in *.
  assert (Dst : diverge (data ++ [d]) (test ++ [d]))
    by (apply diverge_app_l, diverge_app_r, separate).
  destruct (destination_made d fs K) as (fs0 & E0 & GT0 & F0). fold tes in GT0.
  destruct (F0 (data ++ [d]) (diverge_sym _ _ Dst)) as [GS0 _]. rewrite GS in GS0.
  (* the shuffled names and the ones to move *)
  destruct (shuffle g (map fst es)) as [shuffled g'] eqn:Sh.
  pose proof (shuffle_perm g (map fst es)) as Perm. rewrite Sh in Perm. cbn in Perm.
  set (ms := firstn (Z.to_nat k) shuffled).
  assert (Len : length shuffled = length es)
    by (rewrite (Permutation_length Perm), length_map; reflexivity).
  assert (NDm : NoDup ms).
  { apply NoDup_firstn. exact (Permutation_NoDup (Permutation_sym Perm) ND). }
  assert (Inm : incl ms (map fst es)).
  { intros f Hf. apply In_firstn in Hf. exact (Permutation_in _ Perm Hf). }
  assert (Lm : length ms = Z.to_nat k) by (unfold ms; rewrite length_firstn; lia).
  destruct (move_names (data ++ [d]) (test ++ [d]) ms es tes fs0 Dst GS0 GT0 NDm)
    as (fs1 & Mv & GS1 & GT1 & F1).
  { intros f Hf C. apply assoc_None_notin in C. exact (C (Inm f Hf)). }
  { intros f Hf. apply Free, Inm, Hf. }
  exists g', fs1. split; [|split].
  - unfold transfer_class. unfold iobind in *.
    destruct (os_path_exists (test ++ [d]) fs) as [[present fsx]|e]; [|discriminate].
    destruct ((if present then ret tt else os_makedirs (test ++ [d])) fsx)
      as [[u fsy]|e]; [|discriminate].
    injection E0 as _ ->.
    unfold get_files_from_folder. rewrite (os_listdir_dir _ _ _ GS0). rewrite Sh.
    rewrite move_files_firstn by lia. fold ms. rewrite Mv. reflexivity.
  - exists ms. repeat split; assumption.
  - intros q D1 D2. exact (unchanged_at_trans _ _ _ _ (F0 q D2) (F1 q D1 D2)).
Qed.

Lemma class_ready_unchanged d es k fs fs' :
  class_ready d es k fs ->
  unchanged_at (data ++ [d]) fs fs' -> unchanged_at (test ++ [d]) fs fs' ->
  class_ready d es k fs'.
Proof.
  intros (GS & ND & K & Free & Hk) [G1 _] U2.
  pose proof (entries_at_unchanged _ _ _ U2) as E. destruct U2 as [_ K2].
  repeat split; try assumption; try congruence.
  intros f Hf. rewrite E. apply Free, Hf.
Qed.

Lemma class_split_unchanged d es tes k fs fs' :
  class_split d es tes k fs ->
  unchanged_at (data ++ [d]) fs fs' -> unchanged_at (test ++ [d]) fs fs' ->
  class_split d es tes k fs'.
Proof.
  intros (ms & A & B & C & GS & GT) [G1 _] [G2 _].
  exists ms. repeat split; try assumption; congruence.
Qed.

Definition class_name (c : string * list (string * node) * Z) : string := fst (fst c).
Definition class_count (c : string * list (string * node) * Z) : Z := snd c.

Lemma transfer_spec cls : forall g fs,
  NoDup (map class_name cls) ->
  (forall d es k, In (d, es, k) cls -> class_ready d es k fs) ->
  exists g' fs',
    transfer rng shuffle data test (map class_name cls) (map class_count cls) g fs
      = Ok (g', fs') /\
    (forall d es k, In (d, es, k) cls ->
       class_split d es (entries_at (test ++ [d]) fs) k fs') /\
    (forall q,
       (forall d es k, In (d, es, k) cls ->
          diverge (data ++ [d]) q /\ diverge (test ++ [d]) q) ->
       unchanged_at q fs fs').
Proof.
  induction cls as [|[[d es] k] cls IH]; intros g fs ND Ready.
  - exists g, fs. cbn. repeat split; intros; contradiction || reflexivity.
  - cbn [map class_name class_count fst snd] in *.
    inversion ND as [|? ? Hd ND']; subst.
    destruct (transfer_class_spec d es k g fs (Ready d es k (or_introl eq_refl)))
      as (g1 & fs1 & E1 & Sp1 & F1).
    assert (Other : forall d' es' k', In (d', es', k') cls -> d <> d').
    { intros d' es' k' Hin E. subst d'. apply Hd.
      exact (in_map class_name _ _ Hin). }
    assert (Keep : forall d' es' k', In (d', es', k') cls ->
              unchanged_at (data ++ [d']) fs fs1 /\ unchanged_at (test ++ [d']) fs fs1).
    { intros d' es' k' Hin.
      destruct (class_paths_diverge data test d d' separate (Other _ _ _ Hin))
        as (D1 & D2 & D3 & D4).
      split; apply F1; assumption. }
    destruct (IH g1 fs1 ND') as (g2 & fs2 & E2 & Sp2 & F2).
    { intros d' es' k' Hin. destruct (Keep _ _ _ Hin) as [U1 U2].
      exact (class_ready_unchanged _ _ _ _ _ (Ready _ _ _ (or_intror Hin)) U1 U2). }
    exists g2, fs2. split; [|split].
    + cbn [transfer]. unfold iobind at 1. rewrite E1. exact E2.
    + intros d' es' k' [Hin|Hin].
      * injection Hin as <- <- <-.
        apply (class_split_unchanged _ _ _ _ fs1); [exact Sp1| |];
          apply F2; intros d' es' k' Hin;
          destruct (class_paths_diverge data test d d' separate (Other _ _ _ Hin))
            as (D1 & D2 & D3 & D4);
          split; apply diverge_sym; assumption.
      * destruct (Keep _ _ _ Hin) as [_ U2].
        rewrite <- (entries_at_unchanged _ _ _ U2). exact (Sp2 _ _ _ Hin).
    + intros q Hq. apply (unchanged_at_trans _ _ fs1).
      * destruct (Hq d es k (or_introl eq_refl)) as [D1 D2]. exact (F1 q D1 D2).
      * apply F2. intros d' es' k' Hin. exact (Hq _ _ _ (or_intror Hin)).
Qed.

Lemma count_files_spec dirs : forall fs,
  (forall d, In d dirs -> exists es, get (data ++ [d]) fs = Some (Dir es)) ->
  count_files data dirs fs =
  Ok (map (fun d =>
             rnd64 (inject_Z (Z.of_nat (length (entries_at (data ++ [d]) fs))))) dirs,
      fs).
Proof.
  induction dirs as [|d dirs IH]; intros fs H; [reflexivity|].
  cbn [count_files map]. unfold iobind, get_files_from_folder.
  destruct (H d (or_introl eq_refl)) as (es & G).
  rewrite (os_listdir_dir _ _ _ G).
  rewrite IH by (intros d' Hd'; apply H; right; exact Hd').
  unfold ret, entries_at. rewrite G, length_map. reflexivity.
Qed.

Lemma next_walk_dirs des fs :
  get data fs = Some (Dir des) ->
  exists top, next_walk data fs = Ok ((top, dirnames des, filenames des), fs).
Proof.
  intros G. unfold next_walk. rewrite G. cbn. eexists. reflexivity.
Qed.

(** The whole run.  The tree is well formed, the data root is a directory
    and lies apart from the test root, the ratio is in [0, 1], and for
    every class no file stands on the way to its destination directory and
    no name of the class is taken there.  Then the run returns, and every
    class has been split: the names [ms] were moved, as many as the test
    count says. *)
Lemma generate_spec (ratio : Q) (g : rng) (fs : node) (des : list (string * node)) :
  wf fs = true ->
  get data fs = Some (Dir des) ->
  (0 <= ratio)%Q -> (ratio <= 1)%Q ->
  (forall d es, In (d, Dir es) des ->
     (Z.of_nat (length es) <= 2 ^ 53)%Z /\
     clear (test ++ [d]) fs = true /\
     (forall f, In f (map fst es) -> assoc f (entries_at (test ++ [d]) fs) = None)) ->
  exists g' fs',
    generate_training_and_testing_datasets rng shuffle data test ratio g fs = Ok (g', fs') /\
    (forall d es, In (d, Dir es) des ->
       class_split d es (entries_at (test ++ [d]) fs)
         (test_count (rnd64 (inject_Z (Z.of_nat (length es)))) ratio) fs') /\
    (forall q,
       (forall d, In d (dirnames des) ->
          diverge (data ++ [d]) q /\ diverge (test ++ [d]) q) ->
       unchanged_at q fs fs').
Proof.
  intros W G R0 R1 H.
  pose proof (wf_get _ _ _ W G) as Wd.
  pose proof (wf_names _ Wd) as NDd.
  assert (Class : forall d, In d (dirnames des) ->
            exists es, In (d, Dir es) des /\ get (data ++ [d]) fs = Some (Dir es)).
  { intros d Hd. apply ScannerFacts.In_dirnames in Hd. destruct Hd as (es & Hin).
    exists es. split; [exact Hin|]. rewrite get_snoc, G. exact (In_assoc _ _ _ NDd Hin). }
  set (cls := map (fun d =>
                     (d, entries_at (data ++ [d]) fs,
                      test_count (rnd64 (inject_Z (Z.of_nat
                        (length (entries_at (data ++ [d]) fs))))) ratio))
                  (dirnames des)).
  assert (Names : map class_name cls = dirnames des).
  { unfold cls. rewrite map_map. cbn. apply map_id. }
  assert (Counts : map class_count cls =
            test_counter
              (map (fun d => rnd64 (inject_Z (Z.of_nat
                      (length (entries_at (data ++ [d]) fs))))) (dirnames des)) ratio).
  { unfold cls, test_counter. rewrite !map_map. reflexivity. }
  destruct (transfer_spec cls g fs) as (g' & fs' & E & Sp & F).
  { rewrite Names. apply NoDup_dirnames, NDd. }
  { intros d es k Hin. unfold cls in Hin. apply in_map_iff in Hin.
    destruct Hin as (d0 & Eq & Hd). injection Eq as -> <- <-.
    destruct (Class d Hd) as (es & Hin & Gd).
    unfold entries_at. rewrite Gd.
    destruct (H d es Hin) as (Hn & K & Free).
    repeat split; try assumption.
    - apply wf_names. exact (wf_get _ _ _ W Gd).
    - pose proof (test_count_range (Z.of_nat (length es)) ratio) as T.
      specialize (T ltac:(lia) R0 R1). lia. }
  exists g', fs'. split; [|split].
  - unfold generate_training_and_testing_datasets, iobind.
    destruct (next_walk_dirs des fs G) as (top & ->). cbn [fst snd].
    rewrite count_files_spec by (intros d Hd; destruct (Class d Hd) as (es & _ & Gd); eauto).
    rewrite <- Names at 1. rewrite <- Counts. exact E.
  - intros d es Hin.
    assert (Hd : In d (dirnames des)) by (apply ScannerFacts.In_dirnames; eauto).
    assert (Gd : get (data ++ [d]) fs = Some (Dir es))
      by (rewrite get_snoc, G; exact (In_assoc _ _ _ NDd Hin)).
    apply Sp. unfold cls. apply in_map_iff. exists d. split; [|exact Hd].
    unfold entries_at. rewrite Gd. reflexivity.
  - intros q Hq. apply F. intros d es k Hin. apply Hq.
    rewrite <- Names. exact (in_map class_name _ _ Hin).
Qed.

(** The preconditions of [generate_spec], in one. *)
Definition splittable (ratio : Q) (fs : node) (des : list (string * node)) : Prop :=
  wf fs = true /\
  get data fs = Some (Dir des) /\
  (0 <= ratio)%Q /\ (ratio <= 1)%Q /\
  (forall d es, In (d, Dir es) des ->
     (Z.of_nat (length es) <= 2 ^ 53)%Z /\
     clear (test ++ [d]) fs = true /\
     (forall f, In f (map fst es) -> assoc f (entries_at (test ++ [d]) fs) = None)).

(** A split class in terms of its two directories: [src] stayed, [mv] was
    moved. *)
Lemma class_split_entries d es tes k fs' :
  NoDup (map fst es) ->
  (forall f, In f (map fst es) -> assoc f tes = None) ->
  (0 <= k)%Z ->
  class_split d es tes k fs' ->
  exists src mv,
    get (data ++ [d]) fs' = Some (Dir src) /\
    get (test ++ [d]) fs' = Some (Dir (tes ++ mv)) /\
    Z.of_nat (length mv) = k /\
    Permutation (src ++ mv) es /\
    (forall f v, In (f, v) mv ->
       assoc f es = Some v /\ assoc f src = None /\ assoc f (tes ++ mv) = Some v).
Proof.
  intros ND Free Hk (ms & NDm & Inm & Lm & GS & GT).
  assert (Found : forall f, In f ms -> assoc f es <> None).
  { intros f Hf C. apply assoc_None_notin in C. exact (C (Inm f Hf)). }
  pose proof (relocated_names ms es NDm Found) as Names.
  pose proof (remaining_relocated ms es ND NDm Found) as Perm.
  exists (remaining ms es), (relocated ms es).
  split; [exact GS|]. split; [exact GT|]. split; [|split; [exact Perm|]].
  - rewrite <- (length_map fst), Names, Lm. lia.
  - intros f v Hin.
    assert (Hf : In f ms) by (rewrite <- Names; exact (in_map fst _ _ Hin)).
    split; [|split].
    + apply In_assoc; [exact ND|].
      apply (Permutation_in _ Perm). apply in_or_app. right. exact Hin.
    + rewrite assoc_remaining. destruct (in_dec string_dec f ms); [reflexivity|contradiction].
    + rewrite assoc_app, (Free f (Inm f Hf)).
      apply In_assoc; [rewrite Names; exact NDm|exact Hin].
Qed.

Lemma splittable_class ratio fs des d es :
  splittable ratio fs des -> In (d, Dir es) des ->
  get (data ++ [d]) fs = Some (Dir es) /\ NoDup (map fst es) /\
  (0 <= test_count (rnd64 (inject_Z (Z.of_nat (length es)))) ratio
     <= Z.of_nat (length es))%Z.
Proof.
  intros (W & G & R0 & R1 & H) Hin.
  pose proof (wf_names _ (wf_get _ _ _ W G)) as NDd.
  assert (Gd : get (data ++ [d]) fs = Some (Dir es))
    by (rewrite get_snoc, G; exact (In_assoc _ _ _ NDd Hin)).
  split; [exact Gd|]. split; [exact (wf_names _ (wf_get _ _ _ W Gd))|].
  destruct (H d es Hin) as (Hn & _ & _).
  apply test_count_range; [lia|exact R0|exact R1].
Qed.

Lemma generate_splits ratio g fs des :
  splittable ratio fs des ->
  exists g' fs',
    generate_training_and_testing_datasets rng shuffle data test ratio g fs = Ok (g', fs') /\
    forall d es, In (d, Dir es) des ->
      exists src mv,
        get (data ++ [d]) fs' = Some (Dir src) /\
        get (test ++ [d]) fs' = Some (Dir (entries_at (test ++ [d]) fs ++ mv)) /\
        Z.of_nat (length mv) =
          test_count (rnd64 (inject_Z (Z.of_nat (length es)))) ratio /\
        Permutation (src ++ mv) es /\
        (forall f v, In (f, v) mv ->
           assoc f es = Some v /\ assoc f src = None /\
           assoc f (entries_at (test ++ [d]) fs ++ mv) = Some v).
Proof.
  intros Sp. pose proof Sp as (W & G & R0 & R1 & H).
  destruct (generate_spec ratio g fs des W G R0 R1 H) as (g' & fs' & E & Cs & _).
  exists g', fs'. split; [exact E|]. intros d es Hin.
  destruct (splittable_class _ _ _ _ _ Sp Hin) as (_ & ND & K0 & _).
  destruct (H d es Hin) as (_ & _ & Free).
  exact (class_split_entries _ _ _ _ _ ND Free K0 (Cs d es Hin)).
Qed.

End GenerateFacts.

(** A move raises what the file system raises, never [IndexError]. *)
Lemma shutil_move_no_IndexError src dst fs : shutil_move src dst fs <> Raise IndexError.
Proof.
  unfold shutil_move, os_rename.
  repeat match goal with
         | |- context [match ?x with _ => _ end] => destruct x
         end; discriminate.
Qed.

Lemma for_each_moves_no_IndexError src dst ms : forall fs,
  for_each ms (fun f => shutil_move (src ++ [f]) (dst ++ [f])) fs <> Raise IndexError.
Proof.
  induction ms as [|f ms IH]; intros fs; cbn [for_each]; [discriminate|].
  unfold iobind.
  destruct (shutil_move (src ++ [f]) (dst ++ [f]) fs) as [[u fs1]|e] eqn:E.
  - apply IH.
  - intros C. injection C as ->. exact (shutil_move_no_IndexError _ _ _ E).
Qed.

End SplitterFacts.

(** * Further properties *)

From Stdlib Require DecimalNat.

(** ** The render loop's counter *)

Module RenderFacts.

Import Fs FsFacts Scanner ScannerFacts.
#[local] Open Scope string_scope.
#[local] Open Scope list_scope.

(** The image names of the events, in order. *)
Definition image_names (evs : list event) : list nat :=
  flat_map (fun ev => match ev with Saved _ k => [k] | Skipped _ => [] end) evs.

(** The clips of the events, in order. *)
Definition saved_clips (evs : list event) : list string :=
  flat_map (fun ev => match ev with Saved c _ => [c] | Skipped _ => [] end) evs.

Section RenderCounter.

Variable save_spectrogram_image : string -> path -> nat -> io string.
Variables CLIPS_PATH SAVE_IMAGE_PATH : path.

Lemma render_clips_trace clips : forall out count fs,
  Forall (fun p => endswith p ".wav" = true) clips ->
  let r := render_clips save_spectrogram_image clips out count fs in
  image_names (fst r) = seq count (length (fst r)) /\
  saved_clips (fst r) = firstn (length (fst r)) clips /\
  (forall count' fs', snd r = Ok (count', fs') ->
     length (fst r) = length clips /\ count' = (count + length clips)%nat).
Proof.
  induction clips as [|c clips IH]; intros out count fs H; cbn.
  - split; [reflexivity|]. split; [reflexivity|].
    intros ? ? E. injection E as <- _. split; [reflexivity|lia].
  - inversion H as [|? ? Hc Hr]; subst. rewrite Hc. cbn [negb].
    destruct (save_spectrogram_image c out count fs) as [[s fs1]|e].
    + specialize (IH out (S count) fs1 Hr). cbv zeta in IH.
      destruct (render_clips save_spectrogram_image clips out (S count) fs1)
        as [evs r]. cbn [fst snd] in *.
      destruct IH as (N & C & K). unfold image_names, saved_clips in *.
      cbn [flat_map app length seq firstn]. rewrite N, C.
      split; [reflexivity|]. split; [reflexivity|].
      intros count' fs' E. destruct (K _ _ E) as [L ->]. split; lia.
    + cbn. split; [reflexivity|]. split; [reflexivity|]. intros ? ? E. discriminate.
Qed.

Lemma render_all_trace species : forall count fs,
  let r := render_all save_spectrogram_image CLIPS_PATH SAVE_IMAGE_PATH species count fs in
  image_names (fst r) = seq count (length (fst r)) /\
  (forall count' fs', snd r = Ok (count', fs') ->
     count' = (count + length (fst r))%nat).
Proof.
  induction species as [|specie rest IH]; intros count fs; cbn [render_all].
  - cbn. split; [reflexivity|]. intros ? ? E. injection E as <- _. lia.
  - destruct (create_storage_for_images (SAVE_IMAGE_PATH ++ [specie]) fs)
      as [[u fs1]|e]; [|cbn; split; [reflexivity|discriminate]].
    set (clips := match get (CLIPS_PATH ++ [specie]) fs1 with
                  | Some n => get_all_wavfiles (path_string (CLIPS_PATH ++ [specie])) n
                  | None => []
                  end).
    assert (Hc : Forall (fun p => endswith p ".wav" = true) clips).
    { unfold clips. destruct (get (CLIPS_PATH ++ [specie]) fs1);
        [apply get_all_wavfiles_end|constructor]. }
    pose proof (render_clips_trace clips (SAVE_IMAGE_PATH ++ [specie]) count fs1 Hc) as T.
    cbv zeta in T.
    destruct (render_clips save_spectrogram_image clips (SAVE_IMAGE_PATH ++ [specie]) count fs1)
      as [evs [[count1 fs2]|e]]; cbn [fst snd] in T; destruct T as (N & _ & K).
    + destruct (K _ _ eq_refl) as [L ->].
      specialize (IH (count + length clips)%nat fs2). cbv zeta in IH.
      destruct (render_all save_spectrogram_image CLIPS_PATH SAVE_IMAGE_PATH rest
                  (count + length clips) fs2) as [evs' r].
      cbn [fst snd] in *. destruct IH as (N' & K').
      split.
      * unfold image_names in *. rewrite flat_map_app, N, N', length_app, seq_app, L.
        reflexivity.
      * intros count' fs' E. rewrite (K' _ _ E), length_app, L. lia.
    + cbn [fst snd]. split; [exact N|discriminate].
Qed.

End RenderCounter.

End RenderFacts.

(** ** Storage reset: what it touches and when it raises *)

Module StorageFacts.

Import Fs FsFacts Scanner ScannerFacts.
#[local] Open Scope string_scope.
#[local] Open Scope list_scope.

Lemma mkdirs_blocked p : forall n,
  clear p n = false -> get p n = None -> mkdirs p n = Raise NotADirectoryError.
Proof.
  induction p as [|x p IH]; intros n; cbn.
  - destruct n; discriminate.
  - destruct n as [c|es]; [reflexivity|]. cbn.
    destruct (assoc x es) as [c|]; [|discriminate].
    intros K G. rewrite (IH c K G). reflexivity.
Qed.

Lemma create_storage_frame d fs fs' q :
  create_storage_for_images d fs = Ok (tt, fs') -> diverge d q ->
  get q fs' = get q fs /\ clear q fs' = clear q fs.
Proof.
  unfold create_storage_for_images, iobind, os_path_exists.
  intros E D.
  destruct (get d fs) as [nd|] eqn:G.
  - unfold shutil_rmtree in E. rewrite G in E.
    destruct nd as [c|es]; [discriminate|].
    destruct (remove d fs) as [fs1|] eqn:R; [|discriminate].
    unfold os_makedirs in E.
    destruct (mkdirs d fs1) as [fs2|e] eqn:M; [|discriminate].
    cbn in E. injection E as <-.
    destruct (remove_frame _ _ _ q R D) as [A B].
    destruct (mkdirs_frame _ _ _ q M D) as [A' B'].
    split; congruence.
  - unfold ret, os_makedirs in E.
    destruct (mkdirs d fs) as [fs2|e] eqn:M; [|discriminate].
    cbn in E. injection E as <-.
    exact (mkdirs_frame _ _ _ q M D).
Qed.

Lemma create_storage_blocked d fs :
  d <> [] -> clear d fs = false ->
  create_storage_for_images d fs = Raise NotADirectoryError.
Proof.
  intros Hd K. unfold create_storage_for_images, iobind, os_path_exists.
  destruct (get d fs) as [[c|es]|] eqn:G.
  - unfold shutil_rmtree. rewrite G. reflexivity.
  - rewrite (clear_of_dir _ _ _ G) in K. discriminate.
  - unfold ret, os_makedirs. rewrite (mkdirs_blocked d fs K G). reflexivity.
Qed.

End StorageFacts.

(** ** The split at the ends of the ratio range and beyond *)

Module SplitterMore.

Import Float64 Float64Facts Fs FsFacts Splitter SplitterFacts ListFacts.
#[local] Open Scope string_scope.
#[local] Open Scope list_scope.

Lemma test_count_all (n : Z) (ratio : Q) :
  (0 <= n <= 2 ^ 53)%Z -> (ratio == 0)%Q ->
  test_count (rnd64 (inject_Z n)) ratio = n.
Proof.
  intros Hn R. unfold test_count, np_round, fmul, fsub.
  assert (Hc : (rnd64 (inject_Z n) == inject_Z n)%Q) by (apply rnd64_Z; lia).
  destruct (rnd64_between 1 1 (1 - ratio)) as [S0 S1];
    [cbn; lia | cbn; lia | change (inject_Z 1) with 1%Q; lra
    | change (inject_Z 1) with 1%Q; lra |].
  change (inject_Z 1) with 1%Q in S0, S1.
  set (s := rnd64 (1 - ratio)) in *.
  assert (Hs : (s == 1)%Q) by (apply Qle_antisym; assumption).
  assert (P : (rnd64 (inject_Z n) * s == inject_Z n)%Q) by (rewrite Hc, Hs; ring).
  destruct (rnd64_between n n (rnd64 (inject_Z n) * s)) as [R0 R1];
    [lia | lia | rewrite P; apply Qle_refl | rewrite P; apply Qle_refl |].
  pose proof (round_half_even_between n n _ R0 R1). lia.
Qed.

Lemma test_count_none (c : Q) (ratio : Q) :
  (0 <= c)%Q -> (1 <= ratio)%Q -> (test_count c ratio <= 0)%Z.
Proof.
  intros Hc R. unfold test_count, np_round, fmul, fsub.
  assert (S0 : (rnd64 (1 - ratio) <= 0)%Q).
  { rewrite <- (rnd64_zero 0) by reflexivity. apply rnd64_mono. lra. }
  set (s := rnd64 (1 - ratio)) in *.
  assert (P : (c * s <= 0)%Q).
  { rewrite <- (Qmult_0_r c). rewrite !(Qmult_comm c).
    apply Qmult_le_compat_r; assumption. }
  assert (R0 : (rnd64 (c * s) <= inject_Z 0)%Q).
  { change (inject_Z 0) with 0%Q.
    rewrite <- (rnd64_zero 0) by reflexivity. apply rnd64_mono, P. }
  rewrite <- (round_half_even_Z 0). apply round_half_even_mono, R0.
Qed.

Lemma rnd64_nonneg (q : Q) : (0 <= q)%Q -> (0 <= rnd64 q)%Q.
Proof.
  intros H. rewrite <- (rnd64_zero 0) by reflexivity. apply rnd64_mono, H.
Qed.

Section GenerateMore.

Variable rng : Type.
Variable shuffle : rng -> list string -> list string * rng.
Hypothesis shuffle_perm : forall g l, Permutation (fst (shuffle g l)) l.

Variables data test : path.
Hypothesis separate : diverge data test.

(** [next(os.walk(path_to_data))] on a root that is missing or a file. *)
Lemma generate_without_root ratio g fs :
  (forall es, get data fs <> Some (Dir es)) ->
  generate_training_and_testing_datasets rng shuffle data test ratio g fs
  = Raise StopIteration.
Proof.
  intros H. unfold generate_training_and_testing_datasets, iobind, next_walk.
  destruct (get data fs) as [[c|es]|]; try reflexivity.
  exfalso. exact (H es eq_refl).
Qed.

(** [generate_spec] with the bound on the counts as its hypothesis, in
    place of the range of the ratio. *)
Lemma generate_spec_counts (ratio : Q) (g : rng) (fs : node) (des : list (string * node)) :
  wf fs = true ->
  get data fs = Some (Dir des) ->
  (forall d es, In (d, Dir es) des ->
     (Z.to_nat (test_count (rnd64 (inject_Z (Z.of_nat (length es)))) ratio)
      <= length es)%nat /\
     clear (test ++ [d]) fs = true /\
     (forall f, In f (map fst es) -> assoc f (entries_at (test ++ [d]) fs) = None)) ->
  exists g' fs',
    generate_training_and_testing_datasets rng shuffle data test ratio g fs = Ok (g', fs') /\
    (forall d es, In (d, Dir es) des ->
       class_split data test d es (entries_at (test ++ [d]) fs)
         (test_count (rnd64 (inject_Z (Z.of_nat (length es)))) ratio) fs') /\
    (forall q,
       (forall d, In d (dirnames des) ->
          diverge (data ++ [d]) q /\ diverge (test ++ [d]) q) ->
       unchanged_at q fs fs').
Proof.
  intros W G H.
  pose proof (wf_get _ _ _ W G) as Wd.
  pose proof (wf_names _ Wd) as NDd.
  assert (Class : forall d, In d (dirnames des) ->
            exists es, In (d, Dir es) des /\ get (data ++ [d]) fs = Some (Dir es)).
  { intros d Hd. apply ScannerFacts.In_dirnames in Hd. destruct Hd as (es & Hin).
    exists es. split; [exact Hin|]. rewrite get_snoc, G. exact (In_assoc _ _ _ NDd Hin). }
  set (cls := map (fun d =>
                     (d, entries_at (data ++ [d]) fs,
                      test_count (rnd64 (inject_Z (Z.of_nat
                        (length (entries_at (data ++ [d]) fs))))) ratio))
                  (dirnames des)).
  assert (Names : map class_name cls = dirnames des).
  { unfold cls. rewrite map_map. cbn. apply map_id. }
  assert (Counts : map class_count cls =
            test_counter
              (map (fun d => rnd64 (inject_Z (Z.of_nat
                      (length (entries_at (data ++ [d]) fs))))) (dirnames des)) ratio).
  { unfold cls, test_counter. rewrite !map_map. reflexivity. }
  destruct (transfer_spec rng shuffle shuffle_perm data test separate cls g fs)
    as (g' & fs' & E & Sp & F).
  { rewrite Names. apply NoDup_dirnames, NDd. }
  { intros d es k Hin. unfold cls in Hin. apply in_map_iff in Hin.
    destruct Hin as (d0 & Eq & Hd). injection Eq as -> <- <-.
    destruct (Class d Hd) as (es & Hin & Gd).
    unfold entries_at. rewrite Gd.
    destruct (H d es Hin) as (Hn & K & Free).
    repeat split; try assumption.
    apply wf_names. exact (wf_get _ _ _ W Gd). }
  exists g', fs'. split; [|split].
  - unfold generate_training_and_testing_datasets, iobind.
    destruct (next_walk_dirs data des fs G) as (top & ->). cbn [fst snd].
    rewrite count_files_spec by (intros d Hd; destruct (Class d Hd) as (es & _ & Gd); eauto).
    rewrite <- Names at 1. rewrite <- Counts. exact E.
  - intros d es Hin.
    assert (Hd : In d (dirnames des)) by (apply ScannerFacts.In_dirnames; eauto).
    assert (Gd : get (data ++ [d]) fs = Some (Dir es))
      by (rewrite get_snoc, G; exact (In_assoc _ _ _ NDd Hin)).
    apply Sp. unfold cls. apply in_map_iff. exists d. split; [|exact Hd].
    unfold entries_at. rewrite Gd. reflexivity.
  - intros q Hq. apply F. intros d es k Hin. apply Hq.
    rewrite <- Names. exact (in_map class_name _ _ Hin).
Qed.

(** A class of which no name was moved is as it was. *)
Lemma class_split_none d es tes k fs' :
  (k <= 0)%Z -> class_split data test d es tes k fs' ->
  get (data ++ [d]) fs' = Some (Dir es) /\ get (test ++ [d]) fs' = Some (Dir tes).
Proof.
  intros Hk (ms & _ & _ & L & GS & GT).
  assert (ms = []) by (apply length_zero_iff_nil; lia). subst ms.
  cbn in GS, GT. rewrite app_nil_r in GT. split; assumption.
Qed.

End GenerateMore.

End SplitterMore.

(** ** A run that moves nothing *)

Module SplitterIdle.

Import Float64 Float64Facts Fs FsFacts Splitter SplitterFacts ListFacts.
#[local] Open Scope string_scope.
#[local] Open Scope list_scope.

Section Idle.

Variable rng : Type.
Variable shuffle : rng -> list string -> list string * rng.
Variables data test : path.
Hypothesis separate : diverge data test.

Lemma transfer_class_idle d k g fs es :
  get (data ++ [d]) fs = Some (Dir es) ->
  clear (test ++ [d]) fs = true ->
  Z.to_nat k = 0%nat ->
  exists g' fs',
    transfer_class rng shuffle data test d k g fs = Ok (g', fs') /\
    get (test ++ [d]) fs' = Some (Dir (entries_at (test ++ [d]) fs)) /\
    (forall q, diverge (test ++ [d]) q -> unchanged_at q fs fs').
Proof.
  intros GS K Hk.
  destruct (destination_made test d fs K) as (fs0 & E0 & GT0 & F0).
  assert (Dst : diverge (test ++ [d]) (data ++ [d]))
    by (apply diverge_app_l, diverge_app_r, diverge_sym, separate).
  destruct (F0 _ Dst) as [GS0 _]. rewrite GS in GS0.
  destruct (shuffle g (map fst es)) as [shuffled g'] eqn:Sh.
  exists g', fs0. split; [|split; [exact GT0|exact F0]].
  unfold transfer_class. unfold iobind in *.
  destruct (os_path_exists (test ++ [d]) fs) as [[present fsx]|e]; [|discriminate].
  destruct ((if present then ret tt else os_makedirs (test ++ [d])) fsx)
    as [[u fsy]|e]; [|discriminate].
  injection E0 as _ ->.
  unfold get_files_from_folder. rewrite (os_listdir_dir _ _ _ GS0). rewrite Sh.
  rewrite Hk. reflexivity.
Qed.

Lemma transfer_idle dirs : forall counts g fs,
  NoDup dirs ->
  length counts = length dirs ->
  Forall (fun k => Z.to_nat k = 0%nat) counts ->
  (forall d, In d dirs ->
     (exists es, get (data ++ [d]) fs = Some (Dir es)) /\
     clear (test ++ [d]) fs = true) ->
  exists g' fs',
    transfer rng shuffle data test dirs counts g fs = Ok (g', fs') /\
    (forall d, In d dirs ->
       get (test ++ [d]) fs' = Some (Dir (entries_at (test ++ [d]) fs))) /\
    (forall q, (forall d, In d dirs -> diverge (test ++ [d]) q) -> unchanged_at q fs fs').
Proof.
  induction dirs as [|d dirs IH]; intros counts g fs ND Len Z0 Ready.
  - exists g, fs. destruct counts; cbn; repeat split; intros; contradiction || reflexivity.
  - destruct counts as [|k counts]; [discriminate|].
    inversion ND as [|? ? Hd ND']; subst.
    inversion Z0 as [|? ? Hk Z0']; subst.
    destruct (Ready d (or_introl eq_refl)) as ((es & GS) & K).
    destruct (transfer_class_idle d k g fs es GS K Hk) as (g1 & fs1 & E1 & GT1 & F1).
    assert (Other : forall d', In d' dirs -> d <> d').
    { intros d' Hin E. subst d'. contradiction. }
    destruct (IH counts g1 fs1 ND') as (g2 & fs2 & E2 & Post & F2).
    { cbn in Len. lia. }
    { exact Z0'. }
    { intros d' Hin. destruct (Ready d' (or_intror Hin)) as ((es' & GS') & K').
      destruct (class_paths_diverge data test d d' separate (Other d' Hin))
        as (_ & D2 & _ & D4).
      destruct (F1 _ D2) as [A _]. destruct (F1 _ D4) as [_ B].
      split; [exists es'|]; congruence. }
    exists g2, fs2. split; [|split].
    + cbn [transfer]. unfold iobind at 1. rewrite E1. exact E2.
    + intros d' [<-|Hin].
      * rewrite <- GT1. apply F2. intros d' Hin.
        destruct (class_paths_diverge data test d d' separate (Other d' Hin))
          as (_ & _ & _ & D4).
        apply diverge_sym, D4.
      * destruct (class_paths_diverge data test d d' separate (Other d' Hin))
          as (_ & _ & _ & D4).
        rewrite <- (entries_at_unchanged _ _ _ (F1 _ D4)). exact (Post d' Hin).
    + intros q Hq. apply (unchanged_at_trans _ _ fs1).
      * exact (F1 q (Hq d (or_introl eq_refl))).
      * apply F2. intros d' Hin. exact (Hq d' (or_intror Hin)).
Qed.

(** The whole run when every count is zero or less. *)
Lemma generate_idle ratio g fs des :
  wf fs = true ->
  get data fs = Some (Dir des) ->
  (forall d es, In (d, Dir es) des ->
     (test_count (rnd64 (inject_Z (Z.of_nat (length es)))) ratio <= 0)%Z /\
     clear (test ++ [d]) fs = true) ->
  exists g' fs',
    generate_training_and_testing_datasets rng shuffle data test ratio g fs = Ok (g', fs') /\
    (forall d es, In (d, Dir es) des ->
       get (data ++ [d]) fs' = Some (Dir es) /\
       get (test ++ [d]) fs' = Some (Dir (entries_at (test ++ [d]) fs))) /\
    (forall q, (forall d, In d (dirnames des) -> diverge (test ++ [d]) q) ->
       get q fs' = get q fs).
Proof.
  intros W G H.
  pose proof (wf_names _ (wf_get _ _ _ W G)) as NDd.
  assert (Class : forall d, In d (dirnames des) ->
            exists es, In (d, Dir es) des /\ get (data ++ [d]) fs = Some (Dir es)).
  { intros d Hd. apply ScannerFacts.In_dirnames in Hd. destruct Hd as (es & Hin).
    exists es. split; [exact Hin|]. rewrite get_snoc, G. exact (In_assoc _ _ _ NDd Hin). }
  set (counters := map (fun d => rnd64 (inject_Z (Z.of_nat
                      (length (entries_at (data ++ [d]) fs))))) (dirnames des)).
  destruct (transfer_idle (dirnames des) (test_counter counters ratio) g fs)
    as (g' & fs' & E & Post & F).
  { apply NoDup_dirnames, NDd. }
  { unfold test_counter, counters. rewrite !length_map. reflexivity. }
  { unfold test_counter, counters. rewrite map_map. apply Forall_map, Forall_forall.
    intros d Hd. destruct (Class d Hd) as (es & Hin & Gd).
    unfold entries_at. rewrite Gd. destruct (H d es Hin) as (Hk & _). lia. }
  { intros d Hd. destruct (Class d Hd) as (es & Hin & Gd).
    split; [eauto|]. apply (H d es Hin). }
  exists g', fs'. split; [|split].
  - unfold generate_training_and_testing_datasets, iobind.
    destruct (next_walk_dirs data des fs G) as (top & ->). cbn [fst snd].
    rewrite count_files_spec by (intros d Hd; destruct (Class d Hd) as (es & _ & Gd); eauto).
    exact E.
  - intros d es Hin.
    assert (Hd : In d (dirnames des)) by (apply ScannerFacts.In_dirnames; eauto).
    assert (Gd : get (data ++ [d]) fs = Some (Dir es))
      by (rewrite get_snoc, G; exact (In_assoc _ _ _ NDd Hin)).
    split; [|exact (Post d Hd)].
    rewrite <- Gd. apply F. intros d' _.
    apply diverge_app_l, diverge_app_r, diverge_sym, separate.
  - intros q Hq. apply F, Hq.
Qed.

End Idle.

End SplitterIdle.
(** ** Rounding error and the raster size *)

Module RasterFacts.

Import Float64 Float64Facts Numpy Spectrogram SpectrogramFacts.
#[local] Open Scope Q_scope.

(** Half a unit in the last place of a number in [1, 2). *)
Definition eps : Q := pow2 (-53).

Lemma rnd_pos_error q :
  0 < q -> q * (1 - eps) <= rnd_pos q /\ rnd_pos q <= q * (1 + eps).
Proof.
  intros Hq. unfold rnd_pos.
  set (u := pow2 (ilog2 q - 52)).
  assert (Hu : 0 < u) by apply pow2_pos.
  set (x := q / u).
  assert (Hx : q == x * u) by (unfold x; field; lra).
  destruct (round_half_even_near x) as [A B].
  set (r := inject_Z (round_half_even x)) in *.
  assert (A' : (r - (1#2)) * u <= x * u) by (apply Qmult_le_compat_r; lra).
  assert (B' : x * u <= (r + (1#2)) * u) by (apply Qmult_le_compat_r; lra).
  assert (Hh : (1#2) * u <= q * eps).
  { destruct (ilog2_spec q Hq) as [L _].
    assert (E : (1#2) * u == pow2 (ilog2 q) * eps).
    { unfold u, eps. replace (ilog2 q - 52)%Z with (ilog2 q + -52)%Z by lia.
      rewrite pow2_add.
      assert (T : pow2 (-52) == 2 * pow2 (-53)) by reflexivity.
      rewrite T. ring. }
    rewrite E. apply Qmult_le_compat_r; [exact L|]. apply Qlt_le_weak, pow2_pos. }
  split; lra.
Qed.

Lemma rnd64_error q :
  0 < q -> q * (1 - eps) <= rnd64 q /\ rnd64 q <= q * (1 + eps).
Proof.
  intros Hq. rewrite (rnd64_pos q Hq). apply rnd_pos_error, Hq.
Qed.

(** One axis of the raster: [int((W / dpi) * dpi)]. *)
Lemma raster_axis (W : Z) (dpi : Q) :
  (1 <= W <= 2 ^ 50)%Z -> 0 < dpi ->
  forall inches, truediv (inject_Z W) dpi = Ok inches ->
  (W - 1 <= py_int (fmul inches dpi) <= W)%Z.
Proof.
  intros HW Hd inches E.
  rewrite truediv_ok in E by lra. injection E as <-.
  assert (W1 : 1 <= inject_Z W) by (change 1 with (inject_Z 1); rewrite <- Zle_Qle; lia).
  assert (W2 : inject_Z W <= inject_Z (2 ^ 50)) by (rewrite <- Zle_Qle; lia).
  set (w := inject_Z W) in *.
  assert (Hq : 0 < w / dpi).
  { apply Qlt_shift_div_l; lra. }
  destruct (rnd64_error _ Hq) as [A B].
  set (i := rnd64 (w / dpi)) in *.
  assert (A' : w / dpi * (1 - eps) * dpi <= i * dpi) by (apply Qmult_le_compat_r; lra).
  assert (B' : i * dpi <= w / dpi * (1 + eps) * dpi) by (apply Qmult_le_compat_r; lra).
  assert (Ea : w / dpi * (1 - eps) * dpi == w * (1 - eps)) by (field; lra).
  assert (Eb : w / dpi * (1 + eps) * dpi == w * (1 + eps)) by (field; lra).
  rewrite Ea in A'. rewrite Eb in B'.
  assert (He : eps == 1 # 9007199254740992) by reflexivity.
  assert (W3 : w <= 1125899906842624) by exact W2.
  assert (Hp : 0 < i * dpi).
  { apply Qlt_le_trans with (w * (1 - eps)); [|exact A'].
    rewrite He. apply Qmult_lt_0_compat; [lra|reflexivity]. }
  destruct (rnd64_error _ Hp) as [C D].
  unfold fmul. set (p := i * dpi) in *. set (r := rnd64 p) in *.
  assert (We : w * eps <= 1 # 8) by (rewrite He; lra).
  assert (Pe : p * eps <= 1 # 4).
  { apply Qle_trans with (w * (1 + eps) * eps).
    - apply Qmult_le_compat_r; [exact B'|rewrite He; discriminate].
    - rewrite He. lra. }
  assert (Lo : inject_Z (W - 1) <= r).
  { replace (W - 1)%Z with (W + -1)%Z by lia.
    rewrite inject_Z_plus. change (inject_Z (-1)) with (- (1)). fold w. lra. }
  assert (Hi : r < inject_Z (W + 1)).
  { rewrite inject_Z_plus. change (inject_Z 1) with 1. fold w. lra. }
  assert (R0 : 0 <= r) by (apply Qle_trans with (inject_Z (W - 1)); [|exact Lo];
                           change 0 with (inject_Z 0); rewrite <- Zle_Qle; lia).
  rewrite (py_int_floor r R0).
  destruct (Qfloor_bounds r) as [F1 F2].
  split.
  - apply Qfloor_resp_le in Lo. rewrite Qfloor_Z in Lo. exact Lo.
  - assert (inject_Z (Qfloor r) < inject_Z (W + 1)) by lra.
    rewrite <- Zlt_Qlt in H. lia.
Qed.

(** *** Densities that divide exactly *)

Lemma ilog2_Z_range n : (0 < n <= 2 ^ 53)%Z -> (0 <= ilog2 (inject_Z n) <= 53)%Z.
Proof.
  intros [Hn Hb].
  assert (Hq : 0 < inject_Z n) by (rewrite Zlt_Qlt in Hn; exact Hn).
  assert (E0 : ilog2 1 = 0%Z) by (apply ilog2_unique; vm_compute; congruence).
  assert (E53 : ilog2 (inject_Z (2 ^ 53)) = 53%Z) by (apply ilog2_unique; vm_compute; congruence).
  split.
  - rewrite <- E0. apply ilog2_mono; [reflexivity|]. change 1 with (inject_Z 1).
    rewrite <- Zle_Qle. lia.
  - rewrite <- E53. apply ilog2_mono; [assumption|]. rewrite <- Zle_Qle. lia.
Qed.

(** A whole number of at most 53 bits scaled by a power of two is a
    float. *)
Lemma rnd_pos_dyadic n k :
  (0 < n <= 2 ^ 53)%Z ->
  rnd_pos (inject_Z n * pow2 k) == inject_Z n * pow2 k.
Proof.
  intros Hn.
  assert (Hq : 0 < inject_Z n) by (destruct Hn as [Hn _]; rewrite Zlt_Qlt in Hn; exact Hn).
  pose proof (pow2_pos k) as Pk.
  assert (Hv : 0 < inject_Z n * pow2 k) by (apply Qmult_lt_0_compat; assumption).
  destruct (ilog2_Z_range n Hn) as [L0 L53].
  destruct (ilog2_spec _ Hq) as [S1 S2].
  set (e := ilog2 (inject_Z n)) in *.
  assert (El : ilog2 (inject_Z n * pow2 k) = (e + k)%Z).
  { apply ilog2_unique.
    - rewrite pow2_add. apply Qmult_le_compat_r; [exact S1|lra].
    - replace (e + k + 1)%Z with (e + 1 + k)%Z by lia. rewrite pow2_add.
      apply Qmult_lt_compat_r; assumption. }
  destruct (Z.eq_dec e 53) as [E|N].
  - rewrite E in S1. rewrite (pow2_Z 53) in S1 by lia. rewrite <- Zle_Qle in S1.
    assert (n = 2 ^ 53)%Z by lia. subst n.
    apply (rnd_pos_exact _ (2 ^ 52)); [assumption|]. rewrite El, E.
    replace (53 + k - 52)%Z with (1 + k)%Z by lia. rewrite pow2_add.
    assert (T : inject_Z (2 ^ 53) == inject_Z (2 ^ 52) * pow2 1) by reflexivity.
    rewrite T. ring.
  - apply (rnd_pos_exact _ (n * 2 ^ (52 - e))); [assumption|]. rewrite El.
    rewrite inject_Z_mult. rewrite <- (pow2_Z (52 - e)) by lia.
    rewrite <- Qmult_assoc, <- pow2_add.
    replace (52 - e + (e + k - 52))%Z with k by lia. reflexivity.
Qed.

Lemma rnd64_dyadic x n k :
  (0 < n <= 2 ^ 53)%Z -> x == inject_Z n * pow2 k -> rnd64 x == x.
Proof.
  intros Hn E.
  assert (Hq : 0 < inject_Z n) by (destruct Hn as [Hn _]; rewrite Zlt_Qlt in Hn; exact Hn).
  pose proof (pow2_pos k) as Pk.
  assert (Hv : 0 < inject_Z n * pow2 k) by (apply Qmult_lt_0_compat; assumption).
  assert (V : rnd64 (inject_Z n * pow2 k) == inject_Z n * pow2 k).
  { rewrite (rnd64_pos _ Hv). apply rnd_pos_dyadic, Hn. }
  apply Qle_antisym.
  - rewrite E at 2. rewrite <- V. apply rnd64_mono. rewrite E. apply Qle_refl.
  - rewrite E at 1. rewrite <- V. apply rnd64_mono. rewrite E. apply Qle_refl.
Qed.

Lemma raster_axis_exact (W : Z) (dpi : Q) (k : Z) :
  (1 <= W <= 2 ^ 53)%Z -> dpi == pow2 k ->
  forall inches, truediv (inject_Z W) dpi = Ok inches ->
  py_int (fmul inches dpi) = W.
Proof.
  intros HW Hd inches E.
  pose proof (pow2_pos k) as Pk.
  rewrite truediv_ok in E by lra. injection E as <-.
  assert (I : rnd64 (inject_Z W / dpi) == inject_Z W / dpi).
  { apply (rnd64_dyadic _ W (- k)); [lia|].
    rewrite Hd. unfold Qdiv. apply Qmult_comp; [reflexivity|].
    replace (- k)%Z with (0 - k)%Z by lia. rewrite pow2_sub.
    change (pow2 0) with 1. field. lra. }
  assert (P : rnd64 (inject_Z W / dpi) * dpi == inject_Z W).
  { rewrite I. field. lra. }
  unfold fmul.
  destruct (rnd64_between W W (rnd64 (inject_Z W / dpi) * dpi)) as [R0 R1];
    [lia | lia | rewrite P; apply Qle_refl | rewrite P; apply Qle_refl |].
  assert (R : rnd64 (rnd64 (inject_Z W / dpi) * dpi) == inject_Z W)
    by (apply Qle_antisym; assumption).
  rewrite py_int_floor.
  - rewrite R. apply Qfloor_Z.
  - rewrite R. change 0 with (inject_Z 0). rewrite <- Zle_Qle. lia.
Qed.

(** *** How far the product is from the requested size *)


End RasterFacts.
(** ** Division by zero, the order of the bins and the shape of the result *)

Module TransformFacts.

Import Float64 Float64Facts Numpy Spectrogram SpectrogramFacts.
#[local] Open Scope Q_scope.

Lemma rnd64_eq_zero q : rnd64 q == 0 -> q == 0.
Proof.
  intros H. destruct (Qlt_le_dec 0 q) as [P|N].
  - pose proof (rnd64_pos_lt q P). lra.
  - destruct (Qlt_le_dec q 0) as [P'|N']; [|lra].
    pose proof (rnd64_neg q P') as E.
    assert (0 < rnd_pos (- q)) by (apply rnd_pos_pos; lra). lra.
Qed.

Lemma truediv_zero x y : y == 0 -> truediv x y = Raise ZeroDivisionError.
Proof.
  intros H. unfold truediv. apply Qeq_bool_iff in H. rewrite H. reflexivity.
Qed.

Lemma truediv_cases x y :
  (y == 0 /\ truediv x y = Raise ZeroDivisionError) \/
  (~ y == 0 /\ truediv x y = Ok (rnd64 (x / y))).
Proof.
  destruct (Qeq_dec y 0) as [E|N].
  - left. split; [exact E|apply truediv_zero, E].
  - right. split; [exact N|apply truediv_ok, N].
Qed.

(** Lines 129-131 raise exactly on a zero window size or sampling rate. *)
Lemma bins_cases sampling_rate n_fft min_freq max_freq :
  ((n_fft = 0%Z \/ sampling_rate == 0) /\
   bins sampling_rate n_fft min_freq max_freq = Raise ZeroDivisionError) \/
  ((n_fft <> 0%Z /\ ~ sampling_rate == 0) /\
   exists b, bins sampling_rate n_fft min_freq max_freq = Ok b).
Proof.
  unfold bins, f_step, bin.
  destruct (Z.eq_dec n_fft 0) as [->|Hn].
  { left. split; [left; reflexivity|reflexivity]. }
  assert (Hn' : ~ inject_Z n_fft == 0).
  { intros E. apply Hn. unfold Qeq in E. cbn in E. lia. }
  rewrite (truediv_ok _ _ Hn'). cbn [Py.bind].
  destruct (Qeq_dec sampling_rate 0) as [Hs|Hs].
  - left. split; [right; exact Hs|].
    assert (Z0 : sampling_rate / inject_Z n_fft == 0) by (rewrite Hs; field; exact Hn').
    rewrite (rnd64_zero _ Z0). reflexivity.
  - right. split; [split; assumption|].
    assert (St : ~ rnd64 (sampling_rate / inject_Z n_fft) == 0).
    { intros E. apply rnd64_eq_zero in E. apply Hs.
      assert (sampling_rate == sampling_rate / inject_Z n_fft * inject_Z n_fft)
        by (field; exact Hn').
      rewrite H, E. ring. }
    rewrite !(truediv_ok _ _ St). cbn [Py.bind]. eexists. reflexivity.
Qed.

Lemma figsize_cases img_size dpi :
  (dpi == 0 /\ figsize img_size dpi = Raise ZeroDivisionError) \/
  (~ dpi == 0 /\ exists s, figsize img_size dpi = Ok s).
Proof.
  unfold figsize.
  destruct (Qeq_dec dpi 0) as [E|N].
  - left. split; [exact E|]. rewrite (truediv_zero _ _ E). reflexivity.
  - right. split; [exact N|]. rewrite !(truediv_ok _ _ N). cbn. eexists. reflexivity.
Qed.

(** The bins keep the order of the frequencies. *)
Lemma bins_ordered sampling_rate n_fft min_freq max_freq min_bin max_bin :
  0 < sampling_rate -> (0 < n_fft)%Z -> 0 <= min_freq -> min_freq <= max_freq ->
  bins sampling_rate n_fft min_freq max_freq = Ok (min_bin, max_bin) ->
  (0 <= min_bin <= max_bin)%Z.
Proof.
  intros Hs Hn H0 H1 B.
  destruct (f_step_positive _ _ Hs Hn) as (step & Es & Ps).
  unfold bins, bin in B. rewrite Es in B. cbn [Py.bind] in B.
  assert (St : ~ step == 0) by lra.
  rewrite !(truediv_ok _ _ St) in B. cbn [Py.bind] in B.
  injection B as <- <-.
  assert (Q0 : 0 <= min_freq / step) by (apply Qle_shift_div_l; lra).
  assert (Q1 : min_freq / step <= max_freq / step).
  { unfold Qdiv. apply Qmult_le_compat_r; [exact H1|].
    apply Qlt_le_weak, Qinv_lt_0_compat, Ps. }
  assert (R0 : 0 <= rnd64 (min_freq / step)).
  { rewrite <- (rnd64_zero 0) by reflexivity. apply rnd64_mono, Q0. }
  pose proof (rnd64_mono _ _ Q1) as R1.
  rewrite !py_int_floor by lra.
  split.
  - change 0%Z with (Qfloor 0). apply Qfloor_resp_le, R0.
  - apply Qfloor_resp_le, R1.
Qed.

Lemma length_slice_rows {A : Type} (lo hi : Z) (Y : matrix A) :
  (0 <= lo)%Z -> (0 <= hi)%Z ->
  length (slice_rows lo hi Y) = Nat.min (Z.to_nat (hi - lo)) (length Y - Z.to_nat lo).
Proof.
  intros Hlo Hhi. rewrite slice_rows_nonneg by assumption.
  rewrite length_firstn, length_skipn. reflexivity.
Qed.

Section Shape.

Variables C F : Type.
Variable magnitude : C -> F.
Variable decibel : F -> F -> F.
Variable floor_at : F -> F -> F.
Variable array_max : list F -> F.

Lemma amplitude_to_db_shape (S : matrix F) ref db :
  amplitude_to_db F decibel floor_at array_max S ref = Ok db ->
  map (@length F) db = map (@length F) S.
Proof.
  unfold amplitude_to_db. destruct (zero_size S); [discriminate|].
  intros E. injection E as <-. rewrite !map_map.
  apply map_ext. intros row. rewrite !length_map. reflexivity.
Qed.

Lemma transform_shape Y sampling_rate n_fft max_freq min_freq ref db :
  transform C F magnitude decibel floor_at array_max
    Y sampling_rate n_fft max_freq min_freq ref = Ok db ->
  exists min_bin max_bin,
    bins sampling_rate n_fft min_freq max_freq = Ok (min_bin, max_bin) /\
    map (@length F) db = map (@length C) (crop min_bin max_bin Y).
Proof.
  unfold transform.
  destruct (bins sampling_rate n_fft min_freq max_freq) as [[a b]|e]; [|discriminate].
  cbn [Py.bind fst snd]. intros E. exists a, b. split; [reflexivity|].
  rewrite (amplitude_to_db_shape _ _ _ E), map_map.
  apply map_ext. intros row. apply length_map.
Qed.

Lemma transform_cases Y sampling_rate n_fft max_freq min_freq ref :
  ((n_fft = 0%Z \/ sampling_rate == 0) /\
   transform C F magnitude decibel floor_at array_max
     Y sampling_rate n_fft max_freq min_freq ref = Raise ZeroDivisionError) \/
  ((n_fft <> 0%Z /\ ~ sampling_rate == 0) /\
   (transform C F magnitude decibel floor_at array_max
      Y sampling_rate n_fft max_freq min_freq ref = Raise ValueError \/
    exists db, transform C F magnitude decibel floor_at array_max
      Y sampling_rate n_fft max_freq min_freq ref = Ok db)).
Proof.
  unfold transform.
  destruct (bins_cases sampling_rate n_fft min_freq max_freq) as [[H ->]|[H [b ->]]].
  - left. split; [exact H|reflexivity].
  - right. split; [exact H|]. cbn [Py.bind]. unfold amplitude_to_db.
    destruct (zero_size _); [left; reflexivity|right; eexists; reflexivity].
Qed.

End Shape.

End TransformFacts.
(** ** Image names and save paths *)

Module NamingFacts.

Import Fs Spectrogram.
#[local] Open Scope string_scope.

Lemma to_uint_nonnil (n : nat) : Nat.to_uint n <> Decimal.Nil.
Proof.
  intros E. assert (N : n = 0%nat).
  { rewrite <- (DecimalNat.Unsigned.of_to n), E. reflexivity. }
  subst n. discriminate.
Qed.

(** [str] of a counter is read back as the counter. *)
Lemma str_inj (a b : nat) : str a = str b -> a = b.
Proof.
  unfold str. intros E.
  apply DecimalNat.Unsigned.to_uint_inj.
  pose proof (DecimalString.NilZero.usu _ (to_uint_nonnil a)) as Ua.
  pose proof (DecimalString.NilZero.usu _ (to_uint_nonnil b)) as Ub.
  rewrite E in Ua. congruence.
Qed.

(** It starts with a digit. *)
Lemma str_head (n : nat) (s : string) : prefix "/" (str n ++ s) = false.
Proof.
  unfold str. destruct (Nat.to_uint n); reflexivity.
Qed.

Lemma append_cancel_l (p s t : string) : p ++ s = p ++ t -> s = t.
Proof.
  induction p as [|c p IH]; cbn; intros E; [exact E|].
  injection E as E. exact (IH E).
Qed.

Lemma length_append (s t : string) :
  String.length (s ++ t) = (String.length s + String.length t)%nat.
Proof.
  induction s as [|c s IH]; cbn; [reflexivity|]. rewrite IH. reflexivity.
Qed.

Lemma append_cancel_r (t : string) : forall s s', s ++ t = s' ++ t -> s = s'.
Proof.
  induction s as [|c s IH]; intros [|c' s'] E.
  - reflexivity.
  - exfalso. apply (f_equal String.length) in E. cbn in E.
    rewrite length_append in E. lia.
  - exfalso. apply (f_equal String.length) in E. cbn in E.
    rewrite length_append in E. lia.
  - cbn in E. injection E as -> E. f_equal. exact (IH _ E).
Qed.

(** Joining onto the same directory keeps relative names apart. *)
Lemma os_path_join_inj (a x y : string) :
  prefix "/" x = false -> prefix "/" y = false ->
  os_path_join a x = os_path_join a y -> x = y.
Proof.
  unfold os_path_join. intros -> ->.
  destruct ((a =? "") || endswith a "/"); intros E.
  - exact (append_cancel_l _ _ _ E).
  - apply append_cancel_l in E. exact (append_cancel_l _ _ _ E).
Qed.

Lemma save_path_inj (output_path : string) (a b : nat) :
  os_path_join output_path (str a ++ ".png") = os_path_join output_path (str b ++ ".png") ->
  a = b.
Proof.
  intros E. apply os_path_join_inj in E; try apply str_head.
  apply append_cancel_r in E. exact (str_inj _ _ E).
Qed.

End NamingFacts.
(** ** The split beyond the preconditions of the claims *)

Module SplitterEdge.

Import Float64 Float64Facts Fs FsFacts Splitter SplitterFacts SplitterMore ListFacts.
#[local] Open Scope string_scope.
#[local] Open Scope list_scope.

(** *** The count is monotone *)

Lemma test_count_mono_counter (c1 c2 ratio : Q) :
  (c1 <= c2)%Q -> (ratio <= 1)%Q -> (test_count c1 ratio <= test_count c2 ratio)%Z.
Proof.
  intros Hc R. unfold test_count, np_round, fmul, fsub.
  assert (S0 : (0 <= rnd64 (1 - ratio))%Q) by (apply rnd64_nonneg; lra).
  apply round_half_even_mono, rnd64_mono.
  apply Qmult_le_compat_r; assumption.
Qed.

Lemma test_count_mono_ratio (c r1 r2 : Q) :
  (0 <= c)%Q -> (r1 <= r2)%Q -> (test_count c r2 <= test_count c r1)%Z.
Proof.
  intros Hc R. unfold test_count, np_round, fmul, fsub.
  assert (S : (rnd64 (1 - r2) <= rnd64 (1 - r1))%Q) by (apply rnd64_mono; lra).
  apply round_half_even_mono, rnd64_mono.
  rewrite !(Qmult_comm c). apply Qmult_le_compat_r; assumption.
Qed.

(** *** An even split *)

Lemma round_half_even_half (m : Z) (x : Q) :
  (x == inject_Z m + (1 # 2))%Q ->
  round_half_even x = if Z.even m then m else (m + 1)%Z.
Proof.
  intros E.
  assert (Fl : Qfloor x = m).
  { destruct (Qfloor_bounds x) as [F1 F2].
    assert (L : (inject_Z m <= x)%Q) by lra.
    apply Qfloor_resp_le in L. rewrite Qfloor_Z in L.
    assert (U : (inject_Z (Qfloor x) < inject_Z (m + 1))%Q).
    { rewrite inject_Z_plus. change (inject_Z 1) with 1%Q. lra. }
    rewrite <- Zlt_Qlt in U. lia. }
  unfold round_half_even. rewrite Fl.
  destruct (Qcompare_spec (x - inject_Z m) (1 # 2)) as [C|C|C]; [reflexivity|lra|lra].
Qed.

Lemma test_count_half (n : Z) (ratio : Q) :
  (0 <= n <= 2 ^ 53)%Z -> (ratio == 1 # 2)%Q ->
  test_count (rnd64 (inject_Z n)) ratio = round_half_even (inject_Z n * (1 # 2)).
Proof.
  intros Hn R. unfold test_count, np_round, fmul, fsub.
  assert (Hc : (rnd64 (inject_Z n) == inject_Z n)%Q) by (apply rnd64_Z; lia).
  assert (Hs : (rnd64 (1 - ratio) == 1 # 2)%Q).
  { rewrite (RasterFacts.rnd64_dyadic (1 - ratio) 1 (-1)).
    - rewrite R. reflexivity.
    - cbn. lia.
    - rewrite R. reflexivity. }
  set (s := rnd64 (1 - ratio)) in *.
  assert (P : (rnd64 (inject_Z n) * s == inject_Z n * (1 # 2))%Q)
    by (rewrite Hc, Hs; reflexivity).
  assert (Rp : (rnd64 (rnd64 (inject_Z n) * s) == inject_Z n * (1 # 2))%Q).
  { destruct (Z.eq_dec n 0) as [->|N0].
    - rewrite rnd64_zero; [reflexivity|]. rewrite P. reflexivity.
    - rewrite (RasterFacts.rnd64_dyadic _ n (-1)); [exact P|lia|].
      rewrite P. reflexivity. }
  rewrite Rp. reflexivity.
Qed.

(** *** Indices past the end of the listing *)

Lemma for_each_app {A : Type} (l1 l2 : list A) (body : A -> io unit) : forall fs,
  for_each (l1 ++ l2) body fs =
  match for_each l1 body fs with
  | Ok (_, fs') => for_each l2 body fs'
  | Raise e => Raise e
  end.
Proof.
  induction l1 as [|a l1 IH]; intros fs; cbn [app for_each]; [reflexivity|].
  unfold iobind. destruct (body a fs) as [[u fs1]|e]; [apply IH|reflexivity].
Qed.

Lemma move_files_beyond src dst files (n : nat) fs :
  (length files < n)%nat ->
  move_files src dst files n fs =
  match move_files src dst files (length files) fs with
  | Ok _ => Raise IndexError
  | Raise e => Raise e
  end.
Proof.
  intros H. unfold move_files.
  replace n with (length files + S (n - length files - 1))%nat at 1 by lia.
  rewrite seq_app, for_each_app.
  destruct (for_each (seq 0 (length files)) _ fs) as [[u fs1]|e]; [|reflexivity].
  cbn [seq for_each Nat.add]. unfold iobind.
  assert (E : nth_error files (length files) = None) by (apply nth_error_None; lia).
  rewrite E. reflexivity.
Qed.

Section Run.

Variable rng : Type.
Variable shuffle : rng -> list string -> list string * rng.
Hypothesis shuffle_perm : forall g l, Permutation (fst (shuffle g l)) l.

Variables data test : path.
Hypothesis separate : diverge data test.

(** The loop body for one class, with the names it moves made explicit:
    the first [k] of the shuffled listing, or all of them and then an
    [IndexError] when [k] exceeds the listing. *)
Lemma transfer_class_run d es k g fs :
  get (data ++ [d]) fs = Some (Dir es) ->
  NoDup (map fst es) ->
  clear (test ++ [d]) fs = true ->
  (forall f, In f (map fst es) -> assoc f (entries_at (test ++ [d]) fs) = None) ->
  let shuffled := fst (shuffle g (map fst es)) in
  let ms := firstn (Z.to_nat k) shuffled in
  exists fs',
    get (data ++ [d]) fs' = Some (Dir (remaining ms es)) /\
    get (test ++ [d]) fs' = Some (Dir (entries_at (test ++ [d]) fs ++ relocated ms es)) /\
    (forall q, diverge (data ++ [d]) q -> diverge (test ++ [d]) q -> unchanged_at q fs fs') /\
    transfer_class rng shuffle data test d k g fs =
    if (Z.to_nat k <=? length es)%nat
    then Ok (snd (shuffle g (map fst es)), fs')
    else Raise IndexError.
Proof.
  intros GS ND K Free shuffled ms.
  set (tes := entries_at (test ++ [d]) fs) in *.
  assert (Dst : diverge (data ++ [d]) (test ++ [d]))
    by (apply diverge_app_l, diverge_app_r, separate).
  destruct (destination_made test d fs K) as (fs0 & E0 & GT0 & F0). fold tes in GT0.
  destruct (F0 (data ++ [d]) (diverge_sym _ _ Dst)) as [GS0 _]. rewrite GS in GS0.
  pose proof (shuffle_perm g (map fst es)) as Perm. fold shuffled in Perm.
  assert (Len : length shuffled = length es)
    by (rewrite (Permutation_length Perm), length_map; reflexivity).
  assert (NDm : NoDup ms).
  { apply NoDup_firstn. exact (Permutation_NoDup (Permutation_sym Perm) ND). }
  assert (Inm : incl ms (map fst es)).
  { intros f Hf. apply In_firstn in Hf. exact (Permutation_in _ Perm Hf). }
  destruct (move_names (data ++ [d]) (test ++ [d]) ms es tes fs0 Dst GS0 GT0 NDm)
    as (fs1 & Mv & GS1 & GT1 & F1).
  { intros f Hf C. apply assoc_None_notin in C. exact (C (Inm f Hf)). }
  { intros f Hf. apply Free, Inm, Hf. }
  exists fs1. split; [exact GS1|]. split; [exact GT1|]. split.
  { intros q D1 D2. exact (unchanged_at_trans _ _ _ _ (F0 q D2) (F1 q D1 D2)). }
  unfold transfer_class. unfold iobind in *.
  destruct (os_path_exists (test ++ [d]) fs) as [[present fsx]|e]; [|discriminate].
  destruct ((if present then ret tt else os_makedirs (test ++ [d])) fsx)
    as [[u fsy]|e]; [|discriminate].
  injection E0 as _ ->.
  unfold get_files_from_folder. rewrite (os_listdir_dir _ _ _ GS0).
  destruct (shuffle g (map fst es)) as [sh g'] eqn:Sh. cbn [fst snd] in *.
  subst shuffled.
  destruct (Nat.leb_spec (Z.to_nat k) (length es)) as [Hk|Hk].
  - rewrite move_files_firstn by lia. fold ms. rewrite Mv. reflexivity.
  - rewrite move_files_beyond by lia.
    rewrite move_files_firstn by lia.
    assert (Ems : ms = firstn (length sh) sh).
    { unfold ms. rewrite !firstn_all2 by lia. reflexivity. }
    rewrite <- Ems, Mv. reflexivity.
Qed.

(** *** A count past the listing *)

Lemma test_count_past (n : Z) (ratio : Q) :
  (1 <= n <= 2 ^ 52)%Z -> (ratio <= - (1))%Q ->
  (n < test_count (rnd64 (inject_Z n)) ratio)%Z.
Proof.
  intros Hn R. unfold test_count, np_round, fmul, fsub.
  assert (Hc : (rnd64 (inject_Z n) == inject_Z n)%Q) by (apply rnd64_Z; lia).
  assert (S2 : (2 <= rnd64 (1 - ratio))%Q).
  { assert (E : (rnd64 (inject_Z 2) == inject_Z 2)%Q) by (apply rnd64_Z; cbn; lia).
    change (inject_Z 2) with 2%Q in E at 2. rewrite <- E.
    apply rnd64_mono. change (inject_Z 2) with 2%Q. lra. }
  set (s := rnd64 (1 - ratio)) in *.
  assert (N1 : (1 <= inject_Z n)%Q)
    by (change 1%Q with (inject_Z 1); rewrite <- Zle_Qle; lia).
  assert (P : (inject_Z (2 * n) <= rnd64 (inject_Z n) * s)%Q).
  { rewrite Hc, inject_Z_mult. change (inject_Z 2) with 2%Q.
    rewrite (Qmult_comm 2). rewrite !(Qmult_comm (inject_Z n)).
    apply Qmult_le_compat_r; lra. }
  assert (R2 : (inject_Z (2 * n) <= rnd64 (rnd64 (inject_Z n) * s))%Q).
  { assert (E : (rnd64 (inject_Z (2 * n)) == inject_Z (2 * n))%Q) by (apply rnd64_Z; lia).
    rewrite <- E. apply rnd64_mono, P. }
  pose proof (round_half_even_mono _ _ R2) as M.
  rewrite round_half_even_Z in M. lia.
Qed.

(** A class before its turn, without a bound on its count. *)
Definition class_clear (d : string) (es : list (string * node)) (fs : node) : Prop :=
  get (data ++ [d]) fs = Some (Dir es) /\
  NoDup (map fst es) /\
  clear (test ++ [d]) fs = true /\
  (forall f, In f (map fst es) -> assoc f (entries_at (test ++ [d]) fs) = None).

Lemma class_clear_unchanged d es fs fs' :
  class_clear d es fs ->
  unchanged_at (data ++ [d]) fs fs' -> unchanged_at (test ++ [d]) fs fs' ->
  class_clear d es fs'.
Proof.
  intros (GS & ND & K & Free) [G1 _] U2.
  pose proof (entries_at_unchanged _ _ _ U2) as E. destruct U2 as [_ K2].
  repeat split; try assumption; try congruence.
  intros f Hf. rewrite E. apply Free, Hf.
Qed.

Lemma transfer_past_listing cls : forall g fs,
  NoDup (map class_name cls) ->
  (forall d es k, In (d, es, k) cls -> class_clear d es fs) ->
  (exists d es k, In (d, es, k) cls /\ (length es < Z.to_nat k)%nat) ->
  transfer rng shuffle data test (map class_name cls) (map class_count cls) g fs
  = Raise IndexError.
Proof.
  induction cls as [|[[d es] k] cls IH]; intros g fs ND Ready Past.
  - destruct Past as (? & ? & ? & [] & _).
  - cbn [map class_name class_count fst snd transfer].
    inversion ND as [|? ? Hd ND']; subst.
    destruct (Ready d es k (or_introl eq_refl)) as (GS & NDe & K & Free).
    destruct (transfer_class_run d es k g fs GS NDe K Free) as (fs' & _ & _ & Fr & E).
    unfold iobind. rewrite E.
    destruct (Nat.leb_spec (Z.to_nat k) (length es)) as [Hk|Hk]; [|reflexivity].
    apply IH.
    + exact ND'.
    + intros d' es' k' Hin.
      assert (N : d <> d').
      { intros ->. apply Hd. exact (in_map class_name _ _ Hin). }
      destruct (class_paths_diverge data test d d' separate N) as (D1 & D2 & D3 & D4).
      apply (class_clear_unchanged d' es' fs fs').
      * apply (Ready d' es' k'). right. exact Hin.
      * apply Fr; assumption.
      * apply Fr; assumption.
    + destruct Past as (d' & es' & k' & [Eq|Hin] & Hp).
      * injection Eq as <- <- <-. lia.
      * exists d', es', k'. split; assumption.
Qed.

Lemma generate_past_listing ratio g fs des :
  wf fs = true ->
  get data fs = Some (Dir des) ->
  (forall d es, In (d, Dir es) des ->
     clear (test ++ [d]) fs = true /\
     (forall f, In f (map fst es) -> assoc f (entries_at (test ++ [d]) fs) = None)) ->
  (exists d es, In (d, Dir es) des /\
     (length es < Z.to_nat (test_count (rnd64 (inject_Z (Z.of_nat (length es)))) ratio))%nat) ->
  generate_training_and_testing_datasets rng shuffle data test ratio g fs
  = Raise IndexError.
Proof.
  intros W G H Past.
  pose proof (wf_names _ (wf_get _ _ _ W G)) as NDd.
  assert (Class : forall d, In d (dirnames des) ->
            exists es, In (d, Dir es) des /\ get (data ++ [d]) fs = Some (Dir es)).
  { intros d Hd. apply ScannerFacts.In_dirnames in Hd. destruct Hd as (es & Hin).
    exists es. split; [exact Hin|]. rewrite get_snoc, G. exact (In_assoc _ _ _ NDd Hin). }
  set (cls := map (fun d =>
                     (d, entries_at (data ++ [d]) fs,
                      test_count (rnd64 (inject_Z (Z.of_nat
                        (length (entries_at (data ++ [d]) fs))))) ratio))
                  (dirnames des)).
  assert (Names : map class_name cls = dirnames des).
  { unfold cls. rewrite map_map. cbn. apply map_id. }
  assert (Counts : map class_count cls =
            test_counter
              (map (fun d => rnd64 (inject_Z (Z.of_nat
                      (length (entries_at (data ++ [d]) fs))))) (dirnames des)) ratio).
  { unfold cls, test_counter. rewrite !map_map. reflexivity. }
  unfold generate_training_and_testing_datasets, iobind.
  destruct (next_walk_dirs data des fs G) as (top & ->). cbn [fst snd].
  rewrite count_files_spec by (intros d Hd; destruct (Class d Hd) as (es & _ & Gd); eauto).
  rewrite <- Names at 1. rewrite <- Counts.
  apply transfer_past_listing.
  - rewrite Names. apply NoDup_dirnames, NDd.
  - intros d es k Hin. unfold cls in Hin. apply in_map_iff in Hin.
    destruct Hin as (d0 & Eq & Hd). injection Eq as -> <- <-.
    destruct (Class d Hd) as (es & Hin & Gd).
    unfold entries_at at 1. rewrite Gd.
    destruct (H d es Hin) as (K & Free).
    repeat split; try assumption.
    apply wf_names. exact (wf_get _ _ _ W Gd).
  - destruct Past as (d & es & Hin & Hp).
    assert (Gd : get (data ++ [d]) fs = Some (Dir es))
      by (rewrite get_snoc, G; exact (In_assoc _ _ _ NDd Hin)).
    exists d, es, (test_count (rnd64 (inject_Z (Z.of_nat (length es)))) ratio).
    split; [|exact Hp].
    unfold cls. apply in_map_iff. exists d. split.
    + unfold entries_at. rewrite Gd. reflexivity.
    + apply ScannerFacts.In_dirnames. eauto.
Qed.

(** *** A name already taken by a file in the test directory *)

Lemma move_entry_over src dst f c c' ses tes fs :
  diverge src dst ->
  get src fs = Some (Dir ses) -> get dst fs = Some (Dir tes) ->
  assoc f ses = Some (File c) -> assoc f tes = Some (File c') ->
  exists fs',
    shutil_move (src ++ [f]) (dst ++ [f]) fs = Ok (tt, fs') /\
    get src fs' = Some (Dir (del f ses)) /\
    get dst fs' = Some (Dir (upsert f (File c) tes)).
Proof.
  intros D GS GT AS AT.
  assert (Gsrc : get (src ++ [f]) fs = Some (File c)) by (rewrite get_snoc, GS; exact AS).
  assert (Gdst : get (dst ++ [f]) fs = Some (File c')) by (rewrite get_snoc, GT; exact AT).
  destruct (remove_snoc src f fs ses GS) as (fs1 & R & GS1).
  pose proof (remove_frame _ _ _ dst R (diverge_app_l _ _ _ D)) as [GT1 _].
  rewrite GT in GT1.
  destruct (put_snoc dst f (File c) fs1 tes GT1) as (fs2 & P & GT2).
  pose proof (put_frame _ _ _ _ src P (diverge_app_l _ _ _ (diverge_sym _ _ D))) as [GS2 _].
  rewrite GS1 in GS2.
  exists fs2. split; [|split; [exact GS2|exact GT2]].
  unfold shutil_move. rewrite Gdst. unfold os_rename. rewrite Gsrc, Gdst, R, P.
  reflexivity.
Qed.

Lemma length_upsert_taken x v es :
  assoc x es <> None -> length (upsert x v es) = length es.
Proof.
  induction es as [|[y n] es IH]; cbn; [congruence|].
  destruct (x =? y); cbn; [reflexivity|]. intros H. rewrite (IH H). reflexivity.
Qed.

Lemma transfer_class_over d es tes g fs f rest c c' :
  get (data ++ [d]) fs = Some (Dir es) ->
  get (test ++ [d]) fs = Some (Dir tes) ->
  fst (shuffle g (map fst es)) = f :: rest ->
  assoc f es = Some (File c) -> assoc f tes = Some (File c') ->
  exists fs',
    transfer_class rng shuffle data test d 1 g fs
      = Ok (snd (shuffle g (map fst es)), fs') /\
    get (data ++ [d]) fs' = Some (Dir (del f es)) /\
    get (test ++ [d]) fs' = Some (Dir (upsert f (File c) tes)).
Proof.
  intros GS GT Sh AS AT.
  assert (Dst : diverge (data ++ [d]) (test ++ [d]))
    by (apply diverge_app_l, diverge_app_r, separate).
  destruct (move_entry_over _ _ f c c' es tes fs Dst GS GT AS AT) as (fs' & M & GS' & GT').
  exists fs'. split; [|split; assumption].
  unfold transfer_class, iobind, os_path_exists. rewrite GT. unfold ret.
  unfold get_files_from_folder. rewrite (os_listdir_dir _ _ _ GS).
  destruct (shuffle g (map fst es)) as [sh g'] eqn:E. cbn [fst snd] in *. subst sh.
  change (Z.to_nat 1) with 1%nat. unfold move_files. cbn [seq for_each nth_error].
  unfold iobind. rewrite M. reflexivity.
Qed.

(** *** What the run leaves alone *)

Lemma generate_frame ratio g fs des :
  splittable data test ratio fs des ->
  exists g' fs',
    generate_training_and_testing_datasets rng shuffle data test ratio g fs = Ok (g', fs') /\
    (forall f c, In (f, File c) des -> get (data ++ [f]) fs' = Some (File c)) /\
    (forall q, diverge data q -> diverge test q -> get q fs' = get q fs).
Proof.
  intros (W & G & R0 & R1 & H).
  destruct (generate_spec rng shuffle shuffle_perm data test separate ratio g fs des
              W G R0 R1 H) as (g' & fs' & E & _ & F).
  pose proof (wf_names _ (wf_get _ _ _ W G)) as NDd.
  exists g', fs'. split; [exact E|]. split.
  - intros f c Hin.
    assert (Gf : get (data ++ [f]) fs = Some (File c))
      by (rewrite get_snoc, G; exact (In_assoc _ _ _ NDd Hin)).
    rewrite <- Gf. apply F. intros d Hd.
    apply ScannerFacts.In_dirnames in Hd. destruct Hd as (es & Hd).
    assert (N : d <> f).
    { intros ->. pose proof (In_assoc _ _ _ NDd Hin) as A1.
      pose proof (In_assoc _ _ _ NDd Hd) as A2. congruence. }
    destruct (class_paths_diverge data test d f separate N) as (D1 & D2 & _).
    split; assumption.
  - intros q Dq Tq. apply F. intros d _.
    split; apply diverge_app_l; assumption.
Qed.

(** *** A ratio of zero *)

Lemma generate_all ratio g fs des :
  (ratio == 0)%Q ->
  splittable data test ratio fs des ->
  exists g' fs',
    generate_training_and_testing_datasets rng shuffle data test ratio g fs = Ok (g', fs') /\
    forall d es, In (d, Dir es) des ->
      exists mv,
        get (data ++ [d]) fs' = Some (Dir []) /\
        get (test ++ [d]) fs' = Some (Dir (entries_at (test ++ [d]) fs ++ mv)) /\
        Permutation mv es.
Proof.
  intros R Sp.
  destruct (generate_splits rng shuffle shuffle_perm data test separate ratio g fs des Sp)
    as (g' & fs' & E & Cs).
  exists g', fs'. split; [exact E|]. intros d es Hin.
  destruct (Cs d es Hin) as (src & mv & GS & GT & Lm & P & _).
  destruct Sp as (_ & _ & _ & _ & H). destruct (H d es Hin) as (Hn & _ & _).
  rewrite test_count_all in Lm by (try exact R; lia).
  pose proof (Permutation_length P) as L. rewrite length_app in L.
  assert (src = []) by (apply length_zero_iff_nil; lia). subst src.
  exists mv. split; [exact GS|]. split; [exact GT|exact P].
Qed.

(** *** A data root with no class directory *)

Lemma generate_no_class ratio g fs des :
  get data fs = Some (Dir des) -> dirnames des = [] ->
  generate_training_and_testing_datasets rng shuffle data test ratio g fs = Ok (g, fs).
Proof.
  intros G N. unfold generate_training_and_testing_datasets, iobind.
  destruct (next_walk_dirs data des fs G) as (top & ->). cbn [fst snd].
  rewrite N. reflexivity.
Qed.

End Run.

End SplitterEdge.
(** ** Storage reset and render loop: the remaining cases *)

Module RenderEdge.

Import Fs FsFacts Scanner ScannerFacts StorageFacts RenderFacts.
#[local] Open Scope string_scope.
#[local] Open Scope list_scope.

(** Lines 179-185 return exactly when no file stands on the path. *)
Lemma create_storage_cases d fs :
  d <> [] ->
  (clear d fs = true /\
   exists fs', create_storage_for_images d fs = Ok (tt, fs') /\ get d fs' = Some (Dir [])) \/
  (clear d fs = false /\
   create_storage_for_images d fs = Raise NotADirectoryError).
Proof.
  intros Hd. destruct (clear d fs) eqn:K.
  - left. split; [reflexivity|]. exact (create_storage_resets d fs Hd K).
  - right. split; [reflexivity|]. exact (create_storage_blocked d fs Hd K).
Qed.

Lemma snoc_not_nil {A : Type} (p : list A) (x : A) : p ++ [x] <> [].
Proof. destruct p; discriminate. Qed.

Section SamePath.

Variable save_spectrogram_image : string -> path -> nat -> io string.
Variable SHARED_PATH : path.

(** With the images stored where the clips are, the reset of a species'
    directory comes before its clips are listed. *)
Lemma render_same_path species : forall count fs,
  fst (render_all save_spectrogram_image SHARED_PATH SHARED_PATH species count fs) = [].
Proof.
  induction species as [|specie rest IH]; intros count fs; cbn [render_all];
    [reflexivity|].
  destruct (create_storage_cases (SHARED_PATH ++ [specie]) fs (snoc_not_nil _ _))
    as [(_ & fs1 & -> & G)|(_ & ->)]; [|reflexivity].
  rewrite G. cbn [get_all_wavfiles os_walk flat_map dirnames filenames render_clips app].
  specialize (IH count fs1).
  destruct (render_all save_spectrogram_image SHARED_PATH SHARED_PATH rest count fs1)
    as [evs r]. cbn [fst] in *. exact IH.
Qed.

End SamePath.

End RenderEdge.
(** ** Where [StopIteration] can come from *)

Module SplitterErrors.

Import Float64 Fs FsFacts Splitter SplitterFacts.
#[local] Open Scope string_scope.
#[local] Open Scope list_scope.

(** The command never raises [e]. *)
Definition never {A : Type} (e : exn) (c : io A) : Prop :=
  forall fs, c fs <> Raise e.

Lemma never_bind {A B : Type} (e : exn) (c : io A) (k : A -> io B) :
  never e c -> (forall a, never e (k a)) -> never e (iobind c k).
Proof.
  intros Hc Hk fs. unfold iobind.
  destruct (c fs) as [[a fs1]|e'] eqn:E.
  - apply Hk.
  - intros H. injection H as ->. exact (Hc fs E).
Qed.

Lemma never_ret {A : Type} (e : exn) (a : A) : never e (ret a).
Proof. intros fs. discriminate. Qed.

Lemma never_for_each {A : Type} (e : exn) (body : A -> io unit) (l : list A) :
  (forall a, never e (body a)) -> never e (for_each l body).
Proof.
  intros H. induction l as [|a l IH]; cbn [for_each].
  - apply never_ret.
  - apply never_bind; [apply H|intros _; exact IH].
Qed.

Lemma mkdirs_no_StopIteration p : forall n, mkdirs p n <> Raise StopIteration.
Proof.
  induction p as [|x p IH]; intros n; cbn; [discriminate|].
  destruct n as [c|es]; [discriminate|].
  destruct (assoc x es) as [c|]; [|discriminate].
  specialize (IH c). destruct (mkdirs p c); cbn; [discriminate|congruence].
Qed.

Lemma os_makedirs_never p : never StopIteration (os_makedirs p).
Proof.
  intros fs. unfold os_makedirs. pose proof (mkdirs_no_StopIteration p fs).
  destruct (mkdirs p fs); cbn; [discriminate|congruence].
Qed.

Lemma os_listdir_never p : never StopIteration (os_listdir p).
Proof.
  intros fs. unfold os_listdir. destruct (get p fs) as [[c|es]|]; discriminate.
Qed.

Lemma os_rename_never src dst : never StopIteration (os_rename src dst).
Proof.
  intros fs. unfold os_rename.
  destruct (get src fs) as [v|]; [|discriminate].
  destruct v, (get dst fs) as [[c|es]|]; try discriminate;
    destruct (remove src fs) as [fs1|]; try discriminate;
    destruct (put dst _ fs1); discriminate.
Qed.

Lemma shutil_move_never src dst : never StopIteration (shutil_move src dst).
Proof.
  intros fs. unfold shutil_move.
  destruct (get dst fs) as [[c|es]|]; try apply os_rename_never.
  destruct (get (dst ++ [last src ""]) fs); [discriminate|apply os_rename_never].
Qed.

Lemma move_files_never src dst files n :
  never StopIteration (move_files src dst files n).
Proof.
  unfold move_files. apply never_for_each. intros j.
  destruct (nth_error files j); [apply shutil_move_never|].
  intros fs. discriminate.
Qed.

Lemma count_files_never data dirs : never StopIteration (count_files data dirs).
Proof.
  induction dirs as [|d dirs IH]; cbn [count_files]; [apply never_ret|].
  apply never_bind; [apply os_listdir_never|]. intros files.
  apply never_bind; [exact IH|]. intros counts. apply never_ret.
Qed.

Section Generate.

Variable rng : Type.
Variable shuffle : rng -> list string -> list string * rng.
Variables data test : path.

Lemma transfer_class_never d k g :
  never StopIteration (transfer_class rng shuffle data test d k g).
Proof.
  unfold transfer_class.
  apply never_bind; [intros fs; discriminate|]. intros present.
  apply never_bind.
  { destruct present; [apply never_ret|apply os_makedirs_never]. }
  intros _. apply never_bind; [apply os_listdir_never|]. intros files.
  destruct (shuffle g files) as [shuffled g'].
  apply never_bind; [apply move_files_never|]. intros _. apply never_ret.
Qed.

Lemma transfer_never dirs : forall counts g,
  never StopIteration (transfer rng shuffle data test dirs counts g).
Proof.
  induction dirs as [|d dirs IH]; intros [|k counts] g; cbn [transfer];
    try apply never_ret.
  apply never_bind; [apply transfer_class_never|]. intros g'. apply IH.
Qed.

(** The run raises [StopIteration] exactly when the walk of the data root
    yields nothing. *)
Lemma generate_StopIteration ratio g fs :
  generate_training_and_testing_datasets rng shuffle data test ratio g fs
    = Raise StopIteration
  <-> forall es, get data fs <> Some (Dir es).
Proof.
  split.
  - intros E es G.
    unfold generate_training_and_testing_datasets, iobind in E.
    destruct (next_walk_dirs data es fs G) as (top & N). rewrite N in E.
    cbn [fst snd] in E.
    destruct (count_files data (dirnames es) fs) as [[counts fs1]|e] eqn:Cf.
    + exact (transfer_never _ _ _ _ E).
    + injection E as ->. exact (count_files_never _ _ _ Cf).
  - intros H. unfold generate_training_and_testing_datasets, iobind, next_walk.
    destruct (get data fs) as [[c|es]|]; try reflexivity.
    exfalso. exact (H es eq_refl).
Qed.

End Generate.

End SplitterErrors.
(** ** The walk yields every file once *)

Module WalkFacts.

Import Fs FsFacts Scanner ScannerFacts NamingFacts.
#[local] Open Scope string_scope.
#[local] Open Scope list_scope.

(** A name as a file system has it: not empty, and without a separator. *)
Definition name_ok (s : string) : bool := negb (s =? "") && negb (has_sep s).

Fixpoint names_ok (n : node) : bool :=
  match n with
  | File _ => true
  | Dir es => forallb (fun e => name_ok (fst e) && names_ok (snd e)) es
  end.

(** What [os.path.join] puts before a relative name. *)
Definition pre (a : string) : string :=
  if (a =? "") || endswith a "/" then a else (a ++ "/")%string.

(** The files below a directory by the path relative to it. *)
Fixpoint rel (n : node) : list string :=
  match n with
  | File _ => []
  | Dir es =>
      filenames es
        ++ flat_map
             (fun e => map (fun r => (fst e ++ "/" ++ r)%string) (rel (snd e))) es
  end.

(** The paths of all files the walk meets. *)
Definition all_files (top : string) (n : node) : list string :=
  flat_map (fun t => map (os_path_join (fst (fst t))) (snd t)) (os_walk top n).

(** *** Strings *)

Lemma name_ok_spec s : name_ok s = true -> s <> "" /\ has_sep s = false.
Proof.
  unfold name_ok. intros H. apply andb_true_iff in H. destruct H as [A B].
  apply negb_true_iff in A, B. split; [|exact B].
  intros ->. discriminate.
Qed.

Lemma name_ok_relative s : name_ok s = true -> prefix "/" s = false.
Proof.
  intros H. apply name_ok_spec in H. destruct H as [N S].
  destruct s as [|c s]; [reflexivity|]. cbn in S. apply orb_false_iff in S.
  destruct S as [S _]. cbn [prefix].
  destruct (Ascii.ascii_dec "/" c) as [E|E]; [|reflexivity].
  subst c. rewrite Ascii.eqb_refl in S. discriminate.
Qed.

Lemma join_pre a b : prefix "/" b = false -> os_path_join a b = (pre a ++ b)%string.
Proof.
  intros H. unfold os_path_join, pre. rewrite H.
  destruct ((a =? "") || endswith a "/"); [reflexivity|].
  rewrite append_assoc_string. reflexivity.
Qed.

Lemma append_nonempty u d : d <> "" -> (u ++ d)%string <> "".
Proof. intros H. destruct u; cbn; [exact H|discriminate]. Qed.

Lemma endswith_sep_free d : has_sep d = false -> endswith d "/" = false.
Proof.
  induction d as [|c d IH]; cbn [has_sep endswith]; intros H.
  - reflexivity.
  - apply orb_false_iff in H. destruct H as [Hc Hd]. rewrite (IH Hd), orb_false_r.
    destruct d as [|c' d'].
    + cbn. destruct (Ascii.eqb_spec c "/"); [discriminate|].
      destruct (Ascii.eqb_spec c "/"); [contradiction|]. reflexivity.
    + cbn. destruct (Ascii.eqb c "/"); reflexivity.
Qed.

Lemma endswith_append_name u d :
  d <> "" -> endswith (u ++ d) "/" = endswith d "/".
Proof.
  intros H. induction u as [|c u IH]; [reflexivity|].
  cbn [append endswith]. rewrite IH.
  pose proof (append_nonempty u d H) as N.
  destruct (u ++ d)%string as [|c' w] eqn:E; [contradiction|].
  cbn. destruct (Ascii.eqb c "/"); reflexivity.
Qed.

Lemma pre_join top d :
  name_ok d = true -> pre (os_path_join top d) = (pre top ++ d ++ "/")%string.
Proof.
  intros H. rewrite (join_pre top d (name_ok_relative d H)).
  apply name_ok_spec in H. destruct H as [N S].
  unfold pre at 1.
  assert (E1 : ((pre top ++ d)%string =? "") = false).
  { apply String.eqb_neq. apply append_nonempty, N. }
  rewrite E1, (endswith_append_name _ _ N), (endswith_sep_free d S). cbn [orb].
  apply append_assoc_string.
Qed.

Lemma sep_prefix_inj d : forall d' r r',
  has_sep d = false -> has_sep d' = false ->
  (d ++ String "/" r)%string = (d' ++ String "/" r')%string -> d = d'.
Proof.
  induction d as [|c d IH]; intros [|c' d'] r r' S S' E; cbn in *.
  - reflexivity.
  - injection E as <- _. cbn in S'. discriminate.
  - injection E as -> _. cbn in S. discriminate.
  - injection E as <- E. apply orb_false_iff in S, S'.
    f_equal. exact (IH _ _ _ (proj2 S) (proj2 S') E).
Qed.

(** *** Lists *)

Lemma flat_map_flat_map {A B D : Type} (f : A -> list B) (g : B -> list D) (l : list A) :
  flat_map g (flat_map f l) = flat_map (fun a => flat_map g (f a)) l.
Proof.
  induction l as [|a l IH]; cbn; [reflexivity|].
  rewrite flat_map_app, IH. reflexivity.
Qed.

Lemma map_flat_map {A B D : Type} (f : A -> list B) (g : B -> D) (l : list A) :
  map g (flat_map f l) = flat_map (fun a => map g (f a)) l.
Proof.
  induction l as [|a l IH]; cbn; [reflexivity|].
  rewrite map_app, IH. reflexivity.
Qed.

Lemma flat_map_ext_in {A B : Type} (f g : A -> list B) (l : list A) :
  (forall a, In a l -> f a = g a) -> flat_map f l = flat_map g l.
Proof.
  induction l as [|a l IH]; cbn; intros H; [reflexivity|].
  rewrite (H a (or_introl eq_refl)), IH; [reflexivity|].
  intros b Hb. apply H. right. exact Hb.
Qed.

Lemma NoDup_map_injective {A B : Type} (f : A -> B) (l : list A) :
  (forall x y, f x = f y -> x = y) -> NoDup l -> NoDup (map f l).
Proof.
  intros Inj ND. apply NoDup_map_NoDup_ForallPairs; [|exact ND].
  intros x y _ _. apply Inj.
Qed.

Lemma NoDup_filenames es : NoDup (map fst es) -> NoDup (filenames es).
Proof.
  unfold filenames. induction es as [|[x n] es IH]; cbn; [constructor|].
  intros ND. inversion ND as [|? ? Hx ND']; subst.
  destruct n as [c|sub]; cbn; [|exact (IH ND')].
  constructor; [|exact (IH ND')].
  intros Hin. apply Hx. apply in_flat_map in Hin.
  destruct Hin as ([y m] & Hy & Hm). destruct m; cbn in Hm; [|contradiction].
  destruct Hm as [<-|[]]. exact (in_map fst _ _ Hy).
Qed.

(** *** The walk in relative paths *)

Lemma names_ok_entry es x c :
  names_ok (Dir es) = true -> In (x, c) es -> name_ok x = true /\ names_ok c = true.
Proof.
  cbn [names_ok]. intros H Hin. rewrite forallb_forall in H.
  specialize (H _ Hin). cbn in H. apply andb_true_iff in H. exact H.
Qed.

Lemma all_files_rel n : forall top,
  names_ok n = true -> all_files top n = map (fun r => (pre top ++ r)%string) (rel n).
Proof.
  induction n as [c|es IH] using node_rect_entries; intros top OK.
  - reflexivity.
  - rewrite Forall_forall in IH.
    unfold all_files. cbn [os_walk flat_map fst snd rel].
    rewrite map_app. f_equal.
    + apply map_ext_in. intros f Hf. apply join_pre, name_ok_relative.
      apply In_filenames in Hf. destruct Hf as (content & Hin).
      exact (proj1 (names_ok_entry _ _ _ OK Hin)).
    + rewrite flat_map_flat_map, map_flat_map.
      apply flat_map_ext_in. intros [d c] Hin. cbn [fst snd].
      destruct (names_ok_entry _ _ _ OK Hin) as [Nd Nc].
      change (flat_map (fun t => map (os_path_join (fst (fst t))) (snd t))
                (os_walk (os_path_join top d) c))
        with (all_files (os_path_join top d) c).
      pose proof (IH _ Hin (os_path_join top d) Nc) as R. cbn [snd] in R.
      rewrite R, (pre_join top d Nd), map_map.
      apply map_ext. intros r. rewrite !append_assoc_string. reflexivity.
Qed.

Lemma rel_sub_has_sep d r : has_sep (d ++ "/" ++ r)%string = true.
Proof. apply has_sep_app. Qed.

Lemma NoDup_rel n : wf n = true -> names_ok n = true -> NoDup (rel n).
Proof.
  induction n as [c|es IH] using node_rect_entries; intros W OK.
  - constructor.
  - rewrite Forall_forall in IH. cbn [rel].
    pose proof (wf_names _ W) as ND.
    apply NoDup_app.
    + apply NoDup_filenames, ND.
    + assert (Sub : forall x c, In (x, c) es -> wf c = true /\ name_ok x = true /\ names_ok c = true).
      { intros x c Hin. split.
        - exact (wf_assoc _ _ _ W (In_assoc _ _ _ ND Hin)).
        - exact (names_ok_entry _ _ _ OK Hin). }
      clear W OK. induction es as [|[d c] es IHes]; cbn [flat_map]; [constructor|].
      cbn [map fst] in ND. inversion ND as [|? ? Hd ND']; subst.
      destruct (Sub d c (or_introl eq_refl)) as (Wc & Nd & Nc).
      apply NoDup_app.
      * cbn [fst snd]. apply NoDup_map_injective.
        -- intros x y E. exact (append_cancel_l _ _ _ (append_cancel_l _ _ _ E)).
        -- apply (IH (d, c)); [left; reflexivity|exact Wc|exact Nc].
      * apply IHes.
        -- intros e He. apply IH. right. exact He.
        -- exact ND'.
        -- intros x c' Hin. apply Sub. right. exact Hin.
      * cbn [fst snd]. intros p Hp Hq.
        apply in_map_iff in Hp. destruct Hp as (r & <- & _).
        apply in_flat_map in Hq. destruct Hq as ([d' c'] & Hin' & Hq).
        cbn [fst snd] in Hq. apply in_map_iff in Hq. destruct Hq as (r' & E & _).
        destruct (Sub d' c' (or_intror Hin')) as (_ & Nd' & _).
        apply name_ok_spec in Nd, Nd'.
        apply sep_prefix_inj in E; [|tauto|tauto].
        subst d'. apply Hd. exact (in_map fst _ _ Hin').
    + intros p Hf Hs.
      apply In_filenames in Hf. destruct Hf as (content & Hin).
      destruct (names_ok_entry _ _ _ OK Hin) as [Np _].
      apply name_ok_spec in Np. destruct Np as [_ Sp].
      apply in_flat_map in Hs. destruct Hs as ([d c] & _ & Hs).
      cbn [fst snd] in Hs. apply in_map_iff in Hs. destruct Hs as (r & <- & _).
      rewrite rel_sub_has_sep in Sp. discriminate.
Qed.

Lemma get_all_wavfiles_filter top n :
  get_all_wavfiles top n = filter (fun p => endswith p ".wav") (all_files top n).
Proof.
  unfold get_all_wavfiles, all_files.
  induction (os_walk top n) as [|[[root dirs] files] l IH]; cbn [flat_map fst snd];
    [reflexivity|].
  rewrite filter_app, IH. f_equal.
  clear IH. induction files as [|f files IHf]; cbn [flat_map map filter]; [reflexivity|].
  rewrite IHf. destruct (endswith (os_path_join root f) ".wav"); reflexivity.
Qed.

Lemma NoDup_get_all_wavfiles top n :
  wf n = true -> names_ok n = true -> NoDup (get_all_wavfiles top n).
Proof.
  intros W OK. rewrite get_all_wavfiles_filter. apply NoDup_filter.
  rewrite (all_files_rel n top OK). apply NoDup_map_injective.
  - intros x y E. exact (append_cancel_l _ _ _ E).
  - exact (NoDup_rel n W OK).
Qed.

End WalkFacts.
(** ** What a render run leaves in the output directories *)

Module RenderOutput.

Import Fs FsFacts Scanner ScannerFacts SplitterFacts StorageFacts RenderEdge NamingFacts.
#[local] Open Scope string_scope.
#[local] Open Scope list_scope.

(** Line 162: the file name of the image of a counter. *)
Definition image_file (k : nat) : string := (Spectrogram.str k ++ ".png")%string.

(** What a call of [save_spectrogram_image] that returns has done to the
    tree (lines 162-163): the output directory was there, the image is in
    it under [<image_name>.png], and nothing else has changed. *)
Definition writes_image (save : string -> path -> nat -> io string) : Prop :=
  forall clip out count fs p fs',
    save clip out count fs = Ok (p, fs') ->
    exists es content,
      get out fs = Some (Dir es) /\
      get out fs' = Some (Dir (upsert (image_file count) (File content) es)) /\
      (forall q, diverge out q -> unchanged_at q fs fs').

(** The clips of a species, as the loop lists them. *)
Definition clips_of (CLIPS_PATH : path) (specie : string) (fs : node) : list string :=
  match get (CLIPS_PATH ++ [specie]) fs with
  | Some n => get_all_wavfiles (path_string (CLIPS_PATH ++ [specie])) n
  | None => []
  end.

Lemma image_file_inj a b : image_file a = image_file b -> a = b.
Proof.
  unfold image_file. intros E. apply append_cancel_r in E. exact (str_inj _ _ E).
Qed.

Lemma unchanged_at_refl q fs : unchanged_at q fs fs.
Proof. split; reflexivity. Qed.

Section Output.

Variable save_spectrogram_image : string -> path -> nat -> io string.
Hypothesis contract : writes_image save_spectrogram_image.

Lemma render_clips_output clips : forall out count fs es evs count' fs',
  Forall (fun p => endswith p ".wav" = true) clips ->
  get out fs = Some (Dir es) ->
  (forall k, (count <= k)%nat -> assoc (image_file k) es = None) ->
  render_clips save_spectrogram_image clips out count fs = (evs, Ok (count', fs')) ->
  map fst (entries_at out fs') = map fst es ++ map image_file (seq count (length clips)) /\
  count' = (count + length clips)%nat /\
  (forall q, diverge out q -> unchanged_at q fs fs').
Proof.
  induction clips as [|c clips IH]; intros out count fs es evs count' fs' Wav G Fresh E.
  - cbn in E. injection E as _ <- <-. unfold entries_at. rewrite G. cbn.
    rewrite app_nil_r. split; [reflexivity|]. split; [lia|].
    intros q _. apply unchanged_at_refl.
  - inversion Wav as [|? ? Hc Hr]; subst. cbn [render_clips] in E.
    rewrite Hc in E. cbn [negb] in E.
    destruct (save_spectrogram_image c out count fs) as [[p fs1]|e] eqn:Sv;
      [|discriminate].
    destruct (contract _ _ _ _ _ _ Sv) as (es0 & content & G0 & G1 & F1).
    rewrite G in G0. injection G0 as <-.
    rewrite upsert_fresh in G1 by (apply Fresh; lia).
    destruct (render_clips save_spectrogram_image clips out (S count) fs1)
      as [evs1 r1] eqn:R.
    injection E as _ ->.
    destruct (IH out (S count) fs1 _ evs1 count' fs' Hr G1) as (N & K & F2).
    + intros k Hk. rewrite assoc_app, (Fresh k) by lia. cbn.
      destruct (String.eqb_spec (image_file k) (image_file count)) as [Eq|Ne];
        [|reflexivity].
      apply image_file_inj in Eq. lia.
    + exact R.
    + split; [|split].
      * rewrite N, map_app, <- app_assoc. reflexivity.
      * cbn [length]. lia.
      * intros q D. exact (unchanged_at_trans _ _ _ _ (F1 q D) (F2 q D)).
Qed.

Variables CLIPS_PATH SAVE_IMAGE_PATH : path.
Hypothesis separate : diverge SAVE_IMAGE_PATH CLIPS_PATH.

Lemma clips_of_unchanged specie fs fs' :
  unchanged_at (CLIPS_PATH ++ [specie]) fs fs' ->
  clips_of CLIPS_PATH specie fs' = clips_of CLIPS_PATH specie fs.
Proof. intros [G _]. unfold clips_of. rewrite G. reflexivity. Qed.

Lemma render_all_output species : forall count fs evs count' fs',
  NoDup species ->
  render_all save_spectrogram_image CLIPS_PATH SAVE_IMAGE_PATH species count fs
    = (evs, Ok (count', fs')) ->
  (forall s, In s species ->
     exists first,
       (count <= first)%nat /\
       (first + length (clips_of CLIPS_PATH s fs) <= count')%nat /\
       map fst (entries_at (SAVE_IMAGE_PATH ++ [s]) fs')
       = map image_file (seq first (length (clips_of CLIPS_PATH s fs)))) /\
  (count <= count')%nat /\
  (forall q, (forall s, In s species -> diverge (SAVE_IMAGE_PATH ++ [s]) q) ->
     unchanged_at q fs fs').
Proof.
  induction species as [|s rest IH]; intros count fs evs count' fs' ND E.
  - cbn in E. injection E as _ <- <-. split; [intros s []|].
    split; [lia|]. intros q _. apply unchanged_at_refl.
  - inversion ND as [|? ? Hs ND']; subst. cbn [render_all] in E.
    destruct (create_storage_cases (SAVE_IMAGE_PATH ++ [s]) fs (snoc_not_nil _ _))
      as [(_ & fs1 & C & G1)|(_ & C)]; rewrite C in E; [|discriminate].
    assert (F1 : forall q, diverge (SAVE_IMAGE_PATH ++ [s]) q -> unchanged_at q fs fs1).
    { intros q D. exact (create_storage_frame _ _ _ _ C D). }
    assert (DC : forall s', diverge (SAVE_IMAGE_PATH ++ [s]) (CLIPS_PATH ++ [s'])).
    { intros s'. apply diverge_app_l, diverge_app_r, separate. }
    change (match get (CLIPS_PATH ++ [s]) fs1 with
            | Some n => get_all_wavfiles (path_string (CLIPS_PATH ++ [s])) n
            | None => []
            end) with (clips_of CLIPS_PATH s fs1) in E.
    rewrite (clips_of_unchanged s fs fs1 (F1 _ (DC s))) in E.
    set (clips := clips_of CLIPS_PATH s fs) in *.
    assert (Wav : Forall (fun p => endswith p ".wav" = true) clips).
    { unfold clips, clips_of. destruct (get (CLIPS_PATH ++ [s]) fs);
        [apply get_all_wavfiles_end|constructor]. }
    destruct (render_clips save_spectrogram_image clips (SAVE_IMAGE_PATH ++ [s]) count fs1)
      as [evs1 [[count1 fs2]|e]] eqn:R; [|discriminate].
    destruct (render_clips_output clips _ count fs1 [] evs1 count1 fs2 Wav G1) as (N & K & F2).
    { intros k _. reflexivity. }
    { exact R. }
    destruct (render_all save_spectrogram_image CLIPS_PATH SAVE_IMAGE_PATH rest count1 fs2)
      as [evs2 r2] eqn:R2.
    injection E as _ ->.
    destruct (IH count1 fs2 evs2 count' fs' ND' R2) as (Each & Le & F3).
    assert (F12 : forall q, diverge (SAVE_IMAGE_PATH ++ [s]) q -> unchanged_at q fs fs2).
    { intros q D. exact (unchanged_at_trans _ _ _ _ (F1 q D) (F2 q D)). }
    split; [|split].
    + intros s' [<-|Hin].
      * exists count. fold clips. split; [lia|]. split; [lia|].
        assert (U : unchanged_at (SAVE_IMAGE_PATH ++ [s]) fs2 fs').
        { apply F3. intros s' Hin. apply diverge_snoc. intros ->. contradiction. }
        rewrite (entries_at_unchanged _ _ _ U). exact N.
      * destruct (Each s' Hin) as (first & A & B & Names).
        rewrite (clips_of_unchanged s' fs fs2 (F12 _ (DC s'))) in B, Names.
        exists first. split; [lia|]. split; [exact B|exact Names].
    + lia.
    + intros q Dq. apply (unchanged_at_trans _ _ fs2).
      * apply F12, Dq. left. reflexivity.
      * apply F3. intros s' Hin. apply Dq. right. exact Hin.
Qed.

End Output.

End RenderOutput.
(** ** Bins in exact arithmetic *)

Module BinFacts.

Import Float64 Float64Facts Numpy Spectrogram SpectrogramFacts RasterFacts.
#[local] Open Scope Q_scope.

(** The float quotient of a whole number [a] by a whole number [d] has
    the floor of the exact quotient, as long as [a] has at most 53 bits. *)
Lemma floor_of_rounded_quotient (a d : Z) (q : Q) :
  (0 <= a < 2 ^ 53)%Z -> (0 < d)%Z -> q == inject_Z a / inject_Z d ->
  0 <= rnd64 q /\ Qfloor (rnd64 q) = (a / d)%Z.
Proof.
  intros Ha Hd Hq.
  assert (D0 : 0 < inject_Z d) by (change 0 with (inject_Z 0); rewrite <- Zlt_Qlt; lia).
  set (m := (a / d)%Z).
  assert (M0 : (0 <= m)%Z) by (apply Z.div_pos; lia).
  assert (M1 : (m * d <= a)%Z) by (unfold m; rewrite Z.mul_comm; apply Z.mul_div_le; lia).
  assert (M2 : (a + 1 <= (m + 1) * d)%Z).
  { pose proof (Z.mul_succ_div_gt a d Hd) as G. fold m in G. lia. }
  assert (Mb : (m <= a)%Z) by nia.
  set (r := / inject_Z d).
  assert (R0 : 0 < r) by (apply Qinv_lt_0_compat, D0).
  assert (R1 : inject_Z d * r == 1) by (unfold r; field; lra).
  assert (Eq : q == inject_Z a * r) by (rewrite Hq; reflexivity).
  assert (Lo : inject_Z m <= q).
  { rewrite Eq. rewrite Zle_Qle, inject_Z_mult in M1.
    assert (inject_Z m * inject_Z d * r <= inject_Z a * r)
      by (apply Qmult_le_compat_r; lra).
    assert (inject_Z m * inject_Z d * r == inject_Z m) by (rewrite <- Qmult_assoc, R1; ring).
    lra. }
  assert (Hi : q <= inject_Z m + 1 - r).
  { rewrite Eq. rewrite Zle_Qle, inject_Z_mult, !inject_Z_plus in M2.
    change (inject_Z 1) with 1 in M2.
    assert ((inject_Z a + 1) * r <= (inject_Z m + 1) * inject_Z d * r)
      by (apply Qmult_le_compat_r; lra).
    assert ((inject_Z m + 1) * inject_Z d * r == inject_Z m + 1)
      by (rewrite <- Qmult_assoc, R1; ring).
    lra. }
  assert (A0 : 0 <= inject_Z a) by (change 0 with (inject_Z 0); rewrite <- Zle_Qle; lia).
  assert (Q0 : 0 <= q) by (rewrite Eq; apply Qmult_le_0_compat; lra).
  assert (L : inject_Z m <= rnd64 q).
  { rewrite <- (rnd64_Z m) by lia. apply rnd64_mono, Lo. }
  assert (U : rnd64 q < inject_Z m + 1).
  { destruct (Qlt_le_dec 0 q) as [P|N].
    - destruct (rnd64_error q P) as [_ B].
      assert (He : eps == 1 # 9007199254740992) by reflexivity.
      assert (Ae : inject_Z a * eps < 1).
      { assert (inject_Z a <= inject_Z (2 ^ 53 - 1)) by (rewrite <- Zle_Qle; lia).
        assert (T : inject_Z (2 ^ 53 - 1) == 9007199254740991) by reflexivity.
        rewrite He. lra. }
      assert (Qe : q * eps < r).
      { rewrite Eq.
        assert (inject_Z a * eps * r < 1 * r) by (apply Qmult_lt_compat_r; assumption).
        assert (inject_Z a * r * eps == inject_Z a * eps * r) by ring.
        lra. }
      assert (q * (1 + eps) == q + q * eps) by ring.
      lra.
    - assert (Z0 : q == 0) by lra. rewrite (rnd64_zero q Z0).
      assert (0 <= inject_Z m) by (change 0 with (inject_Z 0); rewrite <- Zle_Qle; lia).
      lra. }
  assert (P0 : 0 <= rnd64 q).
  { apply Qle_trans with (inject_Z m); [|exact L].
    change 0 with (inject_Z 0). rewrite <- Zle_Qle. lia. }
  split; [exact P0|].
  destruct (Qfloor_bounds (rnd64 q)) as [F1 F2].
  apply Qfloor_resp_le in L. rewrite Qfloor_Z in L.
  assert (inject_Z (Qfloor (rnd64 q)) < inject_Z (m + 1)).
  { rewrite inject_Z_plus. change (inject_Z 1) with 1. lra. }
  rewrite <- Zlt_Qlt in H. lia.
Qed.

(** Line 129 for a window size that is a power of two. *)
Lemma f_step_exact (sampling_rate k : Z) :
  (1 <= sampling_rate <= 2 ^ 53)%Z -> (0 <= k)%Z ->
  exists step,
    f_step (inject_Z sampling_rate) (2 ^ k) = Ok step /\
    step == inject_Z sampling_rate / inject_Z (2 ^ k).
Proof.
  intros Hs Hk. unfold f_step.
  assert (P : 0 < inject_Z (2 ^ k)).
  { rewrite <- (pow2_Z k) by lia. apply pow2_pos. }
  rewrite truediv_ok by lra. eexists. split; [reflexivity|].
  apply (rnd64_dyadic _ sampling_rate (- k)); [lia|].
  unfold Qdiv. apply Qmult_comp; [reflexivity|].
  rewrite <- (pow2_Z k) by lia.
  replace (- k)%Z with (0 - k)%Z by lia. rewrite pow2_sub.
  change (pow2 0) with 1. pose proof (pow2_pos k). field. lra.
Qed.

Lemma bin_exact (freq sampling_rate k : Z) (step : Q) :
  (1 <= sampling_rate)%Z -> (0 <= k)%Z ->
  (0 <= freq)%Z -> (freq * 2 ^ k < 2 ^ 53)%Z ->
  step == inject_Z sampling_rate / inject_Z (2 ^ k) ->
  bin (inject_Z freq) step = Ok ((freq * 2 ^ k) / sampling_rate)%Z.
Proof.
  intros Hs Hk Hf Hb St. unfold bin.
  assert (P : 0 < inject_Z (2 ^ k)).
  { rewrite <- (pow2_Z k) by lia. apply pow2_pos. }
  assert (S0 : 0 < inject_Z sampling_rate)
    by (change 0 with (inject_Z 0); rewrite <- Zlt_Qlt; lia).
  assert (Sp : 0 < step).
  { rewrite St. apply Qlt_shift_div_l; lra. }
  rewrite truediv_ok by lra. cbn [Py.bind].
  assert (A : (0 <= freq * 2 ^ k)%Z) by (apply Z.mul_nonneg_nonneg; lia).
  destruct (floor_of_rounded_quotient (freq * 2 ^ k) sampling_rate (inject_Z freq / step))
    as [P0 Fl]; [lia|lia| |].
  - rewrite St, inject_Z_mult. field. split; lra.
  - rewrite (py_int_floor _ P0), Fl. reflexivity.
Qed.

End BinFacts.

(** ** Arguments in the range of binary64 *)

Module BandFacts.

Import Float64 Float64Facts Numpy Spectrogram SpectrogramFacts.
#[local] Open Scope Q_scope.

(** A non-negative argument whose quotients by the other arguments
    neither overflow nor underflow in binary64, and which is exact as a
    float when it is a whole number: zero, or between 2^-64 and 2^53. *)
Definition in_band (x : Q) : Prop := x == 0 \/ (pow2 (-64) <= x /\ x <= pow2 53).

Lemma in_band_nonneg x : in_band x -> 0 <= x.
Proof.
  intros [E|[L _]]; [lra|]. pose proof (pow2_pos (-64)). lra.
Qed.

(** Lines 129-131 by their float formulas. *)
Lemma bins_by_formula sampling_rate n_fft min_freq max_freq :
  0 < sampling_rate -> (0 < n_fft)%Z -> 0 <= min_freq -> 0 <= max_freq ->
  let f_step := rnd64 (sampling_rate / inject_Z n_fft) in
  0 <= rnd64 (min_freq / f_step) /\ 0 <= rnd64 (max_freq / f_step) /\
  bins sampling_rate n_fft min_freq max_freq
  = Ok (Qfloor (rnd64 (min_freq / f_step)), Qfloor (rnd64 (max_freq / f_step))).
Proof.
  intros Hs Hn Hmin Hmax f_step.
  assert (N0 : 0 < inject_Z n_fft)
    by (change 0 with (inject_Z 0); rewrite <- Zlt_Qlt; exact Hn).
  assert (Ps : 0 < f_step).
  { apply rnd64_pos_lt. apply Qlt_shift_div_l; lra. }
  assert (Q1 : 0 <= rnd64 (min_freq / f_step)).
  { rewrite <- (rnd64_zero 0) by reflexivity. apply rnd64_mono.
    apply Qle_shift_div_l; lra. }
  assert (Q2 : 0 <= rnd64 (max_freq / f_step)).
  { rewrite <- (rnd64_zero 0) by reflexivity. apply rnd64_mono.
    apply Qle_shift_div_l; lra. }
  split; [exact Q1|]. split; [exact Q2|].
  unfold bins, f_step, Spectrogram.f_step, bin.
  rewrite (truediv_ok sampling_rate (inject_Z n_fft)) by lra. cbn [Py.bind].
  fold f_step. rewrite !(truediv_ok _ f_step) by lra. cbn [Py.bind].
  rewrite !py_int_floor by assumption. reflexivity.
Qed.

End BandFacts.

(** * The claims about [save_spectrogram_image] *)

(** Integer stand-ins for the numeric kernels, and the STFT matrix of a
    clip of one frame at [n_fft = 512], to run the embedding on. *)
Definition sample_stft : Numpy.matrix Z := repeat [1%Z] 257.

Definition sample_max (l : list Z) : Z := fold_right Z.max 0%Z l.

Definition sample_mean (l : list Z) : Z :=
  (fold_right Z.add 0 l / Z.of_nat (length l))%Z.

Definition sample_decibel (ref m : Z) : Z := (m - ref)%Z.

Definition sample_floor_at (peak v : Z) : Z := Z.max v (peak - 80).

Section TransformClaims.

Import Float64 Float64Facts Numpy Spectrogram SpectrogramFacts.
Import RasterFacts BandFacts.
#[local] Open Scope Q_scope.

Variables C F : Type.
Variable magnitude : C -> F.
Variable decibel : F -> F -> F.
Variable floor_at : F -> F -> F.
Variable array_max : list F -> F.

Lemma zero_size_map (M : matrix C) :
  zero_size (map (map magnitude) M) = zero_size M.
Proof.
  unfold zero_size. induction M as [|row M IH]; [reflexivity|].
  cbn. rewrite IH. destruct row; reflexivity.
Qed.

(** C1, as the code has it.  The sampling rate lies between 2^-64 and
    2^53, the window size between 1 and 2^53, and each frequency bound is
    zero or between 2^-64 and 2^53, so that no quotient of lines 129-131
    overflows or underflows; the STFT matrix has [1 + n_fft / 2] rows with
    at least one frame.  Then [f_step] is the float quotient
    [sampling_rate / n_fft], the bins are the floors of the float
    quotients [min_freq / f_step] and [max_freq / f_step], and the
    transform raises (the [ValueError] of a maximum over a zero-size
    array) exactly when the crop is empty, that is when
    [max_bin <= min_bin] or [min_bin] lies beyond the last row; in every
    other case it returns the decibel matrix. *)
Theorem transform_fails_iff_crop_is_empty
    (Y : matrix C) (sampling_rate : Q) (n_fft : Z) (max_freq min_freq : Q)
    (ref : policy F) :
  pow2 (-64) <= sampling_rate -> sampling_rate <= pow2 53 ->
  (1 <= n_fft <= 2 ^ 53)%Z ->
  in_band min_freq -> in_band max_freq ->
  length Y = Z.to_nat (1 + n_fft / 2) ->
  Forall (fun row => row <> []) Y ->
  let step := rnd64 (sampling_rate / inject_Z n_fft) in
  let min_bin := Qfloor (rnd64 (min_freq / step)) in
  let max_bin := Qfloor (rnd64 (max_freq / step)) in
  f_step sampling_rate n_fft = Ok step /\
  bins sampling_rate n_fft min_freq max_freq = Ok (min_bin, max_bin) /\
  (transform C F magnitude decibel floor_at array_max
     Y sampling_rate n_fft max_freq min_freq ref = Raise ValueError
   <-> (max_bin <= min_bin \/ 1 + n_fft / 2 <= min_bin)%Z) /\
  ((min_bin < max_bin /\ min_bin < 1 + n_fft / 2)%Z ->
   succeeds (transform C F magnitude decibel floor_at array_max
               Y sampling_rate n_fft max_freq min_freq ref)).
Proof.
  intros Slo _ Hn Bmin Bmax Hrows Hcols step min_bin max_bin.
  assert (Hs : 0 < sampling_rate) by (pose proof (pow2_pos (-64)); lra).
  assert (N0 : 0 < inject_Z n_fft)
    by (change 0 with (inject_Z 0); rewrite <- Zlt_Qlt; lia).
  destruct (bins_by_formula sampling_rate n_fft min_freq max_freq Hs)
    as (P1 & P2 & B); [lia|apply in_band_nonneg, Bmin|apply in_band_nonneg, Bmax|].
  fold step in P1, P2, B. fold min_bin max_bin in B.
  split.
  { unfold f_step. apply truediv_ok. lra. }
  split; [exact B|].
  assert (L1 : (0 <= min_bin)%Z) by (change 0%Z with (Qfloor 0); apply Qfloor_resp_le, P1).
  assert (L2 : (0 <= max_bin)%Z) by (change 0%Z with (Qfloor 0); apply Qfloor_resp_le, P2).
  assert (Hdiv : (0 <= n_fft / 2)%Z) by (apply Z.div_pos; lia).
  pose proof (slice_rows_empty_iff min_bin max_bin Y L1 L2) as Hempty.
  rewrite Hrows, Z2Nat.id in Hempty by lia.
  pose proof (zero_size_rows (slice_rows min_bin max_bin Y)
                (Forall_slice_rows _ _ _ _ Hcols)) as Hz.
  unfold transform. rewrite B. cbn [Py.bind fst snd]. unfold crop, amplitude_to_db.
  rewrite zero_size_map.
  destruct (zero_size (slice_rows min_bin max_bin Y)) eqn:Z.
  - assert (E : slice_rows min_bin max_bin Y = []) by (apply Hz; reflexivity).
    apply Hempty in E. split.
    + split; [intros _; exact E | reflexivity].
    + intros. exfalso. lia.
  - assert (N : ~ ((max_bin <= min_bin)%Z \/ (1 + n_fft / 2 <= min_bin)%Z)).
    { intros E. apply Hempty in E. apply Hz in E. congruence. }
    split.
    + split; [discriminate | intros E; contradiction].
    + intros _. eexists. reflexivity.
Qed.

(** C6.  The sampling rate lies between 2^-64 and 2^53, the window size
    between 1 and 2^53, and each frequency bound is zero or between 2^-64
    and 2^53.  Then [f_step] is [sampling_rate / n_fft] rounded to a float
    (within a factor [1 +- 2^-53] of the quotient), the bins are the
    floors of the float quotients [min_freq / f_step] and
    [max_freq / f_step], row [i] of the crop is row [min_bin + i] of the
    STFT matrix for exactly the [i] below [max_bin - min_bin], and
    magnitude and decibel mapping are applied to the cropped matrix. *)
Theorem crop_is_the_half_open_bin_range
    (Y : matrix C) (sampling_rate : Q) (n_fft : Z) (max_freq min_freq : Q)
    (ref : policy F) :
  pow2 (-64) <= sampling_rate -> sampling_rate <= pow2 53 ->
  (1 <= n_fft <= 2 ^ 53)%Z ->
  in_band min_freq -> in_band max_freq ->
  let step := rnd64 (sampling_rate / inject_Z n_fft) in
  let min_bin := Qfloor (rnd64 (min_freq / step)) in
  let max_bin := Qfloor (rnd64 (max_freq / step)) in
  f_step sampling_rate n_fft = Ok step /\
  (sampling_rate / inject_Z n_fft * (1 - pow2 (-53)) <= step /\
   step <= sampling_rate / inject_Z n_fft * (1 + pow2 (-53))) /\
  bins sampling_rate n_fft min_freq max_freq = Ok (min_bin, max_bin) /\
  (forall i : nat,
     nth_error (crop min_bin max_bin Y) i =
     if (Z.of_nat i <? max_bin - min_bin)%Z
     then nth_error Y (Z.to_nat min_bin + i)
     else None) /\
  transform C F magnitude decibel floor_at array_max
    Y sampling_rate n_fft max_freq min_freq ref =
  amplitude_to_db F decibel floor_at array_max
    (map (map magnitude) (crop min_bin max_bin Y)) ref.
Proof.
  intros Slo _ Hn Bmin Bmax step min_bin max_bin.
  assert (Hs : 0 < sampling_rate) by (pose proof (pow2_pos (-64)); lra).
  assert (N0 : 0 < inject_Z n_fft)
    by (change 0 with (inject_Z 0); rewrite <- Zlt_Qlt; lia).
  destruct (bins_by_formula sampling_rate n_fft min_freq max_freq Hs)
    as (P1 & P2 & B); [lia|apply in_band_nonneg, Bmin|apply in_band_nonneg, Bmax|].
  fold step in P1, P2, B. fold min_bin max_bin in B.
  split.
  { unfold f_step. apply truediv_ok. lra. }
  split.
  { apply (rnd64_error (sampling_rate / inject_Z n_fft)).
    apply Qlt_shift_div_l; lra. }
  split; [exact B|]. split.
  - intros i. apply nth_error_slice_rows.
    + change 0%Z with (Qfloor 0). apply Qfloor_resp_le, P1.
    + change 0%Z with (Qfloor 0). apply Qfloor_resp_le, P2.
  - unfold transform. rewrite B. reflexivity.
Qed.

End TransformClaims.

(** The window 30000-40000 Hz at 48000 Hz and [n_fft = 512] lies above
    the 257 rows of the STFT matrix: the bins are 320 and 426, so
    [min_bin < max_bin], and the transform raises all the same. *)
Lemma transform_raises_on_a_window_above_the_spectrum :
  Spectrogram.bins 48000 512 30000 40000 = Ok (320, 426)%Z /\
  (320 < 426)%Z /\
  Spectrogram.transform Z Z Z.abs sample_decibel sample_floor_at sample_max
    sample_stft 48000 512 40000 30000 (Numpy.Reduction sample_max) = Raise ValueError.
Proof. vm_compute. repeat split; reflexivity. Qed.

(** A negative bound counts rows from the end: with [min_freq = 0] and
    [max_freq = -100] the bins are 0 and -1, the crop is all rows but the
    last, and the transform returns although [max_bin < min_bin]. *)
Remark transform_returns_on_a_negative_upper_bound :
  Spectrogram.bins 48000 512 0 (-100) = Ok (0, -1)%Z /\
  length (Spectrogram.crop 0 (-1) sample_stft) = 256%nat /\
  exists Ydb,
    Spectrogram.transform Z Z Z.abs sample_decibel sample_floor_at sample_max
      sample_stft 48000 512 (-100) 0 (Numpy.Reduction sample_max) = Ok Ydb.
Proof. vm_compute. repeat split. eexists. reflexivity. Qed.

Lemma sample_rate_in_range :
  (Float64.pow2 (-64) <= 48000 /\ 48000 <= Float64.pow2 53)%Q.
Proof. split; vm_compute; discriminate. Defined.

Lemma sample_band (f : Z) :
  (1 <= f <= 2 ^ 53)%Z -> BandFacts.in_band (inject_Z f).
Proof.
  intros [L U]. right. split.
  - apply Qle_trans with 1%Q; [vm_compute; discriminate|].
    change 1%Q with (inject_Z 1). rewrite <- Zle_Qle. exact L.
  - change (Float64.pow2 53) with (inject_Z (2 ^ 53)). rewrite <- Zle_Qle. exact U.
Defined.

Lemma transform_fails_iff_crop_is_empty_witness :
  Spectrogram.f_step 48000 512 = Ok (Float64.rnd64 (48000 / inject_Z 512)) /\
  Spectrogram.bins 48000 512 3000 22000 = Ok (32, 234)%Z /\
  (Spectrogram.transform Z Z Z.abs sample_decibel sample_floor_at sample_max
     sample_stft 48000 512 22000 3000 (Numpy.Reduction sample_max) = Raise ValueError
   <-> (234 <= 32 \/ 1 + 512 / 2 <= 32)%Z) /\
  ((32 < 234 /\ 32 < 1 + 512 / 2)%Z ->
   succeeds (Spectrogram.transform Z Z Z.abs sample_decibel sample_floor_at
               sample_max sample_stft 48000 512 22000 3000
               (Numpy.Reduction sample_max))).
Proof.
  apply (transform_fails_iff_crop_is_empty Z Z Z.abs sample_decibel sample_floor_at
           sample_max sample_stft 48000 512 22000 (inject_Z 3000)
           (Numpy.Reduction sample_max)).
  - exact (proj1 sample_rate_in_range).
  - exact (proj2 sample_rate_in_range).
  - split; discriminate.
  - apply (sample_band 3000). split; discriminate.
  - apply (sample_band 22000). split; discriminate.
  - reflexivity.
  - apply Forall_forall. intros row H. apply repeat_spec in H. subst. discriminate.
Defined.

(** * The claim about the size of the raster *)

Section CanvasClaim.

Import Float64 Float64Facts Spectrogram SpectrogramFacts RasterFacts.
#[local] Open Scope Q_scope.

(** The pixel count of an axis is the library's: [canvas] maps the length
    of the axis in dots, the float product of its inches by the density,
    to the number of pixels.  A canvas absorbs the rounding of that
    product when a length within 2^-27 of a whole number [n] gets [n]
    pixels. *)
Definition absorbs (canvas : Q -> Z) : Prop :=
  forall (x : Q) (n : Z),
    (1 <= n <= 2 ^ 23)%Z ->
    inject_Z n - pow2 (-27) <= x -> x <= inject_Z n + pow2 (-27) ->
    canvas x = n.



Variables C F : Type.
Variable magnitude : C -> F.
Variable decibel : F -> F -> F.
Variable floor_at : F -> F -> F.
Variable array_max : list F -> F.



End CanvasClaim.


(** A canvas that truncates the length, as [raster_size] does, absorbs
    nothing: at the configured size and 143 dots per inch the product
    [(413 / 143) * 143] lies just below 413 and such a canvas has 412
    columns. *)
Remark truncating_canvas_is_one_column_short_at_143_dpi :
  (exists img,
     Spectrogram.save_spectrogram_image Z Z Z.abs sample_decibel sample_floor_at
       sample_max sample_stft "img-data/common" 0 48000 512 143 22000 3000
       (413, 202) (Numpy.Reduction sample_max) (Numpy.Reduction sample_mean)
       (Numpy.Fixed 0%Z) = Ok img /\
     Spectrogram.save_path Z img = "img-data/common/0.png"%string /\
     Spectrogram.pixels Z img = (412, 202)%Z) /\
  ~ absorbs Float64.py_int.
Proof.
  split.
  - vm_compute. eexists. repeat split.
  - intros Ab.
    specialize (Ab (Float64.fmul (Float64.rnd64 (inject_Z 413 / 143)) 143) 413%Z).
    assert (E : Float64.py_int (Float64.fmul (Float64.rnd64 (inject_Z 413 / 143)) 143)
                = 412%Z) by (vm_compute; reflexivity).
    rewrite E in Ab. discriminate Ab.
    + split; discriminate.
    + vm_compute. discriminate.
    + vm_compute. discriminate.
Qed.

(** At 96 and at 144 dots per inch the same size comes out exact on a
    truncating canvas too. *)
Lemma raster_is_exact_at_96_and_144_dpi :
  Spectrogram.saved_image_size (413, 202) 96 = Ok (413, 202)%Z /\
  Spectrogram.saved_image_size (413, 202) 144 = Ok (413, 202)%Z.
Proof. vm_compute. split; reflexivity. Qed.

(** * The claims about the scanner *)

Section ScannerClaims.

Import Fs FsFacts Scanner ScannerFacts.
#[local] Open Scope string_scope.
#[local] Open Scope list_scope.

(** C5.  Whatever stood at the path before (nothing, an empty directory
    or a directory with contents; [clear] rules out only a file on the
    path), one call returns with the directory present and empty and
    nothing left below it; a second call right after does the same, and so
    does a call on any tree in which entries were put into the directory
    in between. *)
Theorem create_storage_leaves_an_empty_directory (d : path) (fs : node) :
  d <> [] -> clear d fs = true ->
  exists fs1,
    create_storage_for_images d fs = Ok (tt, fs1) /\
    get d fs1 = Some (Dir []) /\
    (forall x r, get (d ++ x :: r) fs1 = None) /\
    (exists fs2,
       create_storage_for_images d fs1 = Ok (tt, fs2) /\ get d fs2 = Some (Dir [])) /\
    (forall fs1' es, get d fs1' = Some (Dir es) ->
       exists fs2,
         create_storage_for_images d fs1' = Ok (tt, fs2) /\ get d fs2 = Some (Dir [])).
Proof.
  intros Hd K.
  assert (Again : forall fs' es, get d fs' = Some (Dir es) ->
            exists fs2, create_storage_for_images d fs' = Ok (tt, fs2) /\
                        get d fs2 = Some (Dir [])).
  { intros fs' es G. apply create_storage_resets; [exact Hd|].
    exact (clear_of_dir _ _ _ G). }
  destruct (create_storage_resets d fs Hd K) as (fs1 & E & G).
  exists fs1. split; [exact E|]. split; [exact G|]. split; [|split].
  - intros x r. rewrite get_app, G. reflexivity.
  - exact (Again fs1 [] G).
  - exact Again.
Qed.

(** C7.  The paths yielded are those of the files met by descending from
    the root whose name ends in [".wav"], whatever the listing order; over
    the tree [{a.wav, b.txt, sub/c.wav}], listed in any order, they are
    [a.wav] and [sub/c.wav]. *)
Theorem get_all_wavfiles_yields_the_wav_files :
  (forall top n p,
     In p (get_all_wavfiles top n) <->
     exists dirpath es name content,
       reach top n dirpath (Dir es) /\ In (name, File content) es /\
       endswith name ".wav" = true /\ p = os_path_join dirpath name) /\
  (forall a b c es,
     Permutation es
       [("a.wav", File a); ("b.txt", File b); ("sub", Dir [("c.wav", File c)])] ->
     Permutation (get_all_wavfiles "root" (Dir es)) ["root/a.wav"; "root/sub/c.wav"]).
Proof.
  split.
  - intros top n p. rewrite In_get_all_wavfiles. split.
    + intros (dp & es & name & R & Hn & E & ->).
      apply In_filenames in Hn. destruct Hn as (content & Hin).
      rewrite endswith_join in E by reflexivity.
      exists dp, es, name, content. repeat split; assumption.
    + intros (dp & es & name & content & R & Hin & E & ->).
      exists dp, es, name. repeat split; try assumption.
      * apply In_filenames. exists content. exact Hin.
      * rewrite endswith_join by reflexivity. exact E.
  - intros a b c es P.
    rewrite (get_all_wavfiles_Permutation "root" _ _ P). reflexivity.
Qed.

(** C9.  Every path the generator yields ends in [".wav"], so no
    iteration of the render loop takes the [continue] branch: all its
    events are saves. *)
Theorem render_loop_never_skips_a_clip
    (save_spectrogram_image : string -> path -> nat -> io string)
    (CLIPS_PATH SAVE_IMAGE_PATH : path) (species : list string)
    (count : nat) (fs : node) :
  (forall top n, Forall (fun p => endswith p ".wav" = true) (get_all_wavfiles top n)) /\
  Forall is_saved
    (fst (render_all save_spectrogram_image CLIPS_PATH SAVE_IMAGE_PATH
            species count fs)).
Proof.
  split; [exact get_all_wavfiles_end|apply render_all_never_skips].
Qed.

End ScannerClaims.

(** * The claims about the split *)

Section SplitterClaims.

Import Float64 Float64Facts Fs FsFacts Splitter SplitterFacts.
#[local] Open Scope string_scope.
#[local] Open Scope list_scope.

Variable rng : Type.
Variable shuffle : rng -> list string -> list string * rng.

(** C2.  In a splittable tree the run returns and, for every class of [N]
    entries, the destination directory has gained
    [round(N * (1 - ratio))] entries and [N] less that many remain in the
    source directory, the product being taken in floats and [round]
    being round-half-to-even: the integer within one half of its argument,
    the even one at a tie.  For 10 files and a ratio of 0.7 the count is
    3, and 7 remain. *)
Theorem split_moves_the_rounded_share
    (data test : path) (ratio : Q) (g : rng) (fs : node)
    (des : list (string * node)) :
  (forall g l, Permutation (fst (shuffle g l)) l) ->
  diverge data test ->
  splittable data test ratio fs des ->
  (exists g' fs',
     generate_training_and_testing_datasets rng shuffle data test ratio g fs
       = Ok (g', fs') /\
     forall d es, In (d, Dir es) des ->
       let n := Z.of_nat (length es) in
       let k := round_half_even (fmul (rnd64 (inject_Z n)) (fsub 1 ratio)) in
       exists src mv,
         get (data ++ [d]) fs' = Some (Dir src) /\
         get (test ++ [d]) fs' = Some (Dir (entries_at (test ++ [d]) fs ++ mv)) /\
         Z.of_nat (length mv) = k /\
         Z.of_nat (length src) = (n - k)%Z) /\
  (forall x : Q,
     (inject_Z (round_half_even x) - (1 # 2) <= x)%Q /\
     (x <= inject_Z (round_half_even x) + (1 # 2))%Q /\
     ((x == inject_Z (Qfloor x) + (1 # 2))%Q -> Z.even (round_half_even x) = true)) /\
  (test_count (rnd64 10) (rnd64 (7 # 10)) = 3 /\ 10 - 3 = 7)%Z.
Proof.
  intros Perm Sep Sp. split; [|split].
  - destruct (generate_splits rng shuffle Perm data test Sep ratio g fs des Sp)
      as (g' & fs' & E & Cs).
    exists g', fs'. split; [exact E|]. intros d es Hin n k.
    destruct (Cs d es Hin) as (src & mv & GS & GT & Lm & P & _).
    exists src, mv. repeat split; try assumption.
    apply Permutation_length in P. rewrite length_app in P.
    unfold test_count, np_round in Lm. fold n in Lm. fold k in Lm. subst n. lia.
  - intros x. destruct (round_half_even_near x) as [A B].
    repeat split; [exact A|exact B|apply round_half_even_tie].
  - vm_compute. split; reflexivity.
Qed.

(** The count is the rounding of the float product, not of the product
    of the decimal numbers: for 15 files and a ratio of 0.9 the float
    product is just below 3/2 and the count is 1. *)
Remark test_count_is_taken_in_floats :
  test_count (rnd64 15) (rnd64 (9 # 10)) = 1%Z /\
  round_half_even (15 * (1 - (9 # 10))) = 2%Z.
Proof. vm_compute. split; reflexivity. Qed.

(** C3.  In a splittable tree the run returns and, for every class, the
    entries left in the source directory together with the entries moved
    are the entries the class had, each once; every moved entry is in the
    destination directory under its name, with its contents, and is gone
    from the source directory; and when the destination directory was
    absent or empty the two directories hold as many entries afterwards as
    the class had before. *)
Theorem split_moves_files_without_loss
    (data test : path) (ratio : Q) (g : rng) (fs : node)
    (des : list (string * node)) :
  (forall g l, Permutation (fst (shuffle g l)) l) ->
  diverge data test ->
  splittable data test ratio fs des ->
  exists g' fs',
    generate_training_and_testing_datasets rng shuffle data test ratio g fs
      = Ok (g', fs') /\
    forall d es, In (d, Dir es) des ->
      exists src mv,
        get (data ++ [d]) fs' = Some (Dir src) /\
        get (test ++ [d]) fs' = Some (Dir (entries_at (test ++ [d]) fs ++ mv)) /\
        Permutation (src ++ mv) es /\
        (forall f v, In (f, v) mv ->
           get ((data ++ [d]) ++ [f]) fs = Some v /\
           get ((test ++ [d]) ++ [f]) fs' = Some v /\
           get ((data ++ [d]) ++ [f]) fs' = None) /\
        (entries_at (test ++ [d]) fs = [] ->
         (length (entries_at (data ++ [d]) fs')
          + length (entries_at (test ++ [d]) fs') = length es)%nat).
Proof.
  intros Perm Sep Sp.
  destruct (generate_splits rng shuffle Perm data test Sep ratio g fs des Sp)
    as (g' & fs' & E & Cs).
  exists g', fs'. split; [exact E|]. intros d es Hin.
  destruct (splittable_class _ _ _ _ _ _ _ Sp Hin) as (Gd & _ & _).
  destruct (Cs d es Hin) as (src & mv & GS & GT & _ & P & Each).
  exists src, mv. repeat split; try assumption.
  - rewrite get_snoc, Gd. apply (Each f v H).
  - rewrite get_snoc, GT. apply (Each f v H).
  - rewrite get_snoc, GS. apply (Each f v H).
  - intros Empty. unfold entries_at at 1 2. rewrite GS, GT, Empty. cbn [app].
    rewrite <- length_app. exact (Permutation_length P).
Qed.

(** C8, as the code has it.  For a class with no files the run moves
    nothing: the source directory is as it was, and the destination
    directory of the class has the entries it had; but the destination
    directory is there afterwards, created when it was absent. *)
Theorem split_of_an_empty_class_moves_nothing
    (data test : path) (ratio : Q) (g : rng) (fs : node)
    (des : list (string * node)) (d : string) :
  (forall g l, Permutation (fst (shuffle g l)) l) ->
  diverge data test ->
  splittable data test ratio fs des ->
  In (d, Dir []) des ->
  exists g' fs',
    generate_training_and_testing_datasets rng shuffle data test ratio g fs
      = Ok (g', fs') /\
    get (data ++ [d]) fs' = get (data ++ [d]) fs /\
    get (test ++ [d]) fs' = Some (Dir (entries_at (test ++ [d]) fs)).
Proof.
  intros Perm Sep Sp Hin.
  destruct (generate_splits rng shuffle Perm data test Sep ratio g fs des Sp)
    as (g' & fs' & E & Cs).
  exists g', fs'. split; [exact E|].
  destruct (splittable_class _ _ _ _ _ _ _ Sp Hin) as (Gd & _ & _).
  destruct (Cs d [] Hin) as (src & mv & GS & GT & Lm & P & _).
  cbn [length] in Lm. rewrite test_count_of_none in Lm.
  destruct mv; [|discriminate]. rewrite app_nil_r in *.
  apply Permutation_sym, Permutation_nil in P. subst src.
  split; [congruence|exact GT].
Qed.

(** C10.  For a ratio in [0, 1] and [N] file names (at most 2^53, so that
    the float that holds the count is exact) the test count lies between 0
    and [N]; every index of the moving loop is therefore an index of the
    shuffled array, and the loop never raises [IndexError]. *)
Theorem test_count_is_within_the_class
    (files : list string) (ratio : Q) (g : rng) :
  (forall g l, Permutation (fst (shuffle g l)) l) ->
  (0 <= ratio)%Q -> (ratio <= 1)%Q ->
  (Z.of_nat (length files) <= 2 ^ 53)%Z ->
  let k := test_count (rnd64 (inject_Z (Z.of_nat (length files)))) ratio in
  (0 <= k <= Z.of_nat (length files))%Z /\
  (forall j, In j (seq 0 (Z.to_nat k)) ->
     exists f, nth_error (fst (shuffle g files)) j = Some f) /\
  (forall path_to_original path_to_save fs,
     move_files path_to_original path_to_save (fst (shuffle g files)) (Z.to_nat k) fs
     <> Raise IndexError).
Proof.
  intros Perm R0 R1 Hn k.
  assert (K : (0 <= k <= Z.of_nat (length files))%Z)
    by (apply test_count_range; [lia|exact R0|exact R1]).
  pose proof (Permutation_length (Perm g files)) as Len.
  split; [exact K|]. split.
  - intros j Hj. apply in_seq in Hj.
    destruct (nth_error (fst (shuffle g files)) j) as [f|] eqn:E; [eauto|].
    apply nth_error_None in E. lia.
  - intros src dst fs. rewrite move_files_firstn by lia.
    apply for_each_moves_no_IndexError.
Qed.

End SplitterClaims.

(** * The theorems at concrete inputs *)

Section Instances.

Import Float64 Fs Scanner Splitter SplitterFacts.
#[local] Open Scope string_scope.
#[local] Open Scope list_scope.

(** An image corpus with a class of ten images and a class of none. *)
Definition sample_corpus : node :=
  Dir [("img-data",
        Dir [("common",
              Dir [("0.png", File "0"); ("1.png", File "1"); ("2.png", File "2");
                   ("3.png", File "3"); ("4.png", File "4"); ("5.png", File "5");
                   ("6.png", File "6"); ("7.png", File "7"); ("8.png", File "8");
                   ("9.png", File "9")]);
             ("empty", Dir [])])].

(** A shuffle that reverses, with the number of calls as its state. *)
Definition sample_shuffle (g : nat) (l : list string) : list string * nat :=
  (rev l, S g).

Lemma sample_shuffle_perm (g : nat) (l : list string) :
  Permutation (fst (sample_shuffle g l)) l.
Proof. apply Permutation_sym, Permutation_rev. Defined.

Lemma sample_corpus_splittable :
  exists des,
    get ["img-data"] sample_corpus = Some (Dir des) /\
    splittable ["img-data"] ["test-data"] (rnd64 (7 # 10)) sample_corpus des.
Proof.
  eexists. split; [reflexivity|].
  split; [reflexivity|]. split; [reflexivity|].
  split; [vm_compute; discriminate|]. split; [vm_compute; discriminate|].
  intros d es [H|[H|[]]]; injection H as <- <-;
    (split; [vm_compute; discriminate|]); (split; [reflexivity|]);
    intros f Hf; reflexivity.
Defined.

Lemma sample_roots_diverge : diverge ["img-data"] ["test-data"].
Proof. left. discriminate. Defined.

Lemma transform_crop_witness :
  Spectrogram.f_step 48000 512 = Ok (rnd64 (48000 / inject_Z 512)) /\
  ((48000 / inject_Z 512 * (1 - pow2 (-53)) <= rnd64 (48000 / inject_Z 512))%Q /\
   (rnd64 (48000 / inject_Z 512) <= 48000 / inject_Z 512 * (1 + pow2 (-53)))%Q) /\
  Spectrogram.bins 48000 512 3000 22000 = Ok (32, 234)%Z /\
  (forall i : nat,
     nth_error (Spectrogram.crop 32 234 sample_stft) i =
     if (Z.of_nat i <? 234 - 32)%Z
     then nth_error sample_stft (Z.to_nat 32 + i)
     else None) /\
  Spectrogram.transform Z Z Z.abs sample_decibel sample_floor_at sample_max
    sample_stft 48000 512 22000 3000 (Numpy.Reduction sample_max) =
  Numpy.amplitude_to_db Z sample_decibel sample_floor_at sample_max
    (map (map Z.abs) (Spectrogram.crop 32 234 sample_stft))
    (Numpy.Reduction sample_max).
Proof.
  apply (crop_is_the_half_open_bin_range Z Z Z.abs sample_decibel sample_floor_at
           sample_max sample_stft 48000 512 22000 (inject_Z 3000)
           (Numpy.Reduction sample_max)).
  - exact (proj1 sample_rate_in_range).
  - exact (proj2 sample_rate_in_range).
  - split; discriminate.
  - apply (sample_band 3000). split; discriminate.
  - apply (sample_band 22000). split; discriminate.
Defined.

Lemma create_storage_witness :
  exists fs1,
    create_storage_for_images ["img-data"; "common"] sample_corpus = Ok (tt, fs1) /\
    get ["img-data"; "common"] fs1 = Some (Dir []).
Proof.
  destruct (create_storage_leaves_an_empty_directory
              ["img-data"; "common"] sample_corpus) as (fs1 & E & G & _).
  - discriminate.
  - reflexivity.
  - exists fs1. split; [exact E|exact G].
Defined.

Lemma split_share_witness :
  exists g' fs',
    generate_training_and_testing_datasets nat sample_shuffle
      ["img-data"] ["test-data"] (rnd64 (7 # 10)) 0%nat sample_corpus = Ok (g', fs') /\
    length (entries_at ["test-data"; "common"] fs') = 3%nat /\
    length (entries_at ["img-data"; "common"] fs') = 7%nat.
Proof.
  destruct sample_corpus_splittable as (des & G & Sp).
  destruct (split_moves_the_rounded_share nat sample_shuffle
              ["img-data"] ["test-data"] (rnd64 (7 # 10)) 0%nat sample_corpus des
              sample_shuffle_perm sample_roots_diverge Sp)
    as ((g' & fs' & E & Cs) & _ & _).
  exists g', fs'. split; [exact E|].
  injection G as <-.
  destruct (Cs "common" _ (or_introl eq_refl)) as (src & mv & GS & GT & Lm & Ls).
  unfold entries_at. cbn [app] in GS, GT. rewrite GS, GT.
  change (entries_at ["test-data"; "common"] sample_corpus) with (@nil (string * node)).
  cbn [app]. cbv zeta in Lm, Ls.
  match type of Lm with
  | _ = ?k => assert (K : k = 3%Z) by (vm_compute; reflexivity); rewrite K in Lm, Ls
  end.
  cbn [length] in Ls. split; lia.
Defined.

Lemma split_without_loss_witness :
  exists g' fs',
    generate_training_and_testing_datasets nat sample_shuffle
      ["img-data"] ["test-data"] (rnd64 (7 # 10)) 0%nat sample_corpus = Ok (g', fs') /\
    (length (entries_at ["img-data"; "common"] fs')
     + length (entries_at ["test-data"; "common"] fs') = 10)%nat.
Proof.
  destruct sample_corpus_splittable as (des & G & Sp).
  destruct (split_moves_files_without_loss nat sample_shuffle
              ["img-data"] ["test-data"] (rnd64 (7 # 10)) 0%nat sample_corpus des
              sample_shuffle_perm sample_roots_diverge Sp)
    as (g' & fs' & E & Cs).
  exists g', fs'. split; [exact E|].
  injection G as <-.
  destruct (Cs "common" _ (or_introl eq_refl)) as (src & mv & _ & _ & _ & _ & Total).
  exact (Total eq_refl).
Defined.

Lemma split_of_an_empty_class_witness :
  exists g' fs',
    generate_training_and_testing_datasets nat sample_shuffle
      ["img-data"] ["test-data"] (rnd64 (7 # 10)) 0%nat sample_corpus = Ok (g', fs') /\
    get ["img-data"; "empty"] fs' = Some (Dir []) /\
    get ["test-data"; "empty"] fs' = Some (Dir []).
Proof.
  destruct sample_corpus_splittable as (des & G & Sp).
  injection G as <-.
  destruct (split_of_an_empty_class_moves_nothing nat sample_shuffle
              ["img-data"] ["test-data"] (rnd64 (7 # 10)) 0%nat sample_corpus _ "empty"
              sample_shuffle_perm sample_roots_diverge Sp)
    as (g' & fs' & E & GS & GT).
  - right. left. reflexivity.
  - exists g', fs'. split; [exact E|]. split; [exact GS|exact GT].
Defined.

(** The test directory of the class with no files is absent before the
    run and present after it. *)
Lemma split_creates_the_directory_of_an_empty_class :
  get ["test-data"; "empty"] sample_corpus = None /\
  exists g' fs',
    generate_training_and_testing_datasets nat sample_shuffle
      ["img-data"] ["test-data"] (rnd64 (7 # 10)) 0%nat sample_corpus = Ok (g', fs') /\
    get ["test-data"; "empty"] fs' = Some (Dir []).
Proof.
  split; [reflexivity|]. vm_compute. do 2 eexists. split; reflexivity.
Qed.

Lemma test_count_witness :
  let files := ["0.png"; "1.png"; "2.png"; "3.png"; "4.png";
                "5.png"; "6.png"; "7.png"; "8.png"; "9.png"] in
  let k := test_count (rnd64 (inject_Z (Z.of_nat (length files)))) (rnd64 (7 # 10)) in
  (0 <= k <= Z.of_nat (length files))%Z.
Proof.
  intros files k.
  apply (test_count_is_within_the_class nat sample_shuffle files (rnd64 (7 # 10)) 0%nat).
  - exact sample_shuffle_perm.
  - vm_compute. discriminate.
  - vm_compute. discriminate.
  - vm_compute. discriminate.
Defined.

End Instances.
(** * The notebook's configuration *)

Module Config.

#[local] Open Scope string_scope.

(** Lines 57-68 and 298-299. *)
Definition SAVE_IMAGE_PATH : Fs.path := ["img-data"].
Definition SPECIES : list string := ["common"; "bottlenose"; "melon-headed"].
Definition SAMPLING_RATE : Q := 48000.
Definition FFT_NUM : Z := 512.
Definition DPI : Q := 96.
Definition MAX_FREQ : Q := 22000.
Definition MIN_FREQ : Q := 3000.
Definition IMAGE_SIZE : Q * Q := (413, 202)%Q.
Definition TEST_DATA : Fs.path := ["test-data"].
Definition TRAIN_TEST_RATIO : Q := Float64.rnd64 (7 # 10).

End Config.
(** * Further properties of [save_spectrogram_image] *)

Section TransformProperties.

Import Float64 Float64Facts Numpy Spectrogram SpectrogramFacts.
Import RasterFacts TransformFacts NamingFacts.
#[local] Open Scope Q_scope.

Variables C F : Type.
Variable magnitude : C -> F.
Variable decibel : F -> F -> F.
Variable floor_at : F -> F -> F.
Variable array_max : list F -> F.

(** X1.  The window size lies between 0 and 2^53 and the sampling rate
    and each frequency bound is zero or between 2^-64 and 2^53, so that no
    quotient of lines 129-131 overflows or underflows.  Then a call raises
    [ZeroDivisionError] in exactly three cases: the window size is zero,
    the sampling rate is zero (the frequency step is then zero and the bin
    of [min_freq] divides by it), or the density is zero and the decibel
    conversion got through, so that [plt.figure] is reached. *)
Theorem save_raises_ZeroDivisionError_exactly_on_a_zero_parameter
    (Y : matrix C) (output_path : string) (image_name : nat)
    (sampling_rate : Q) (n_fft : Z) (dpi max_freq min_freq : Q) (img_size : Q * Q)
    (ref clim_lo clim_hi : policy F) :
  (0 <= n_fft <= 2 ^ 53)%Z ->
  BandFacts.in_band sampling_rate ->
  BandFacts.in_band min_freq -> BandFacts.in_band max_freq ->
  (save_spectrogram_image C F magnitude decibel floor_at array_max
     Y output_path image_name sampling_rate n_fft dpi max_freq min_freq img_size
     ref clim_lo clim_hi = Raise ZeroDivisionError
   <-> (n_fft = 0%Z \/ sampling_rate == 0 \/
        (dpi == 0 /\
         succeeds (transform C F magnitude decibel floor_at array_max
                     Y sampling_rate n_fft max_freq min_freq ref)))).
Proof.
  intros _ _ _ _.
  unfold save_spectrogram_image.
  destruct (transform_cases C F magnitude decibel floor_at array_max
              Y sampling_rate n_fft max_freq min_freq ref)
    as [[H ->]|[[Hn Hs] [->|[db ->]]]]; cbn [Py.bind].
  - split; [intros _|reflexivity]. destruct H; [left|right; left]; assumption.
  - split; [discriminate|].
    intros [H|[H|[_ [db H]]]]; [contradiction|contradiction|discriminate].
  - destruct (figsize_cases img_size dpi) as [[Hd ->]|[Hd [s ->]]]; cbn [Py.bind].
    + split; [intros _|reflexivity]. right. right. split; [exact Hd|]. exists db. reflexivity.
    + split; [discriminate|].
      intros [H|[H|[H _]]]; contradiction.
Qed.

(** X2.  For a positive sampling rate and window size and
    [0 <= min_freq <= max_freq] the bins come out in the same order,
    [0 <= min_bin <= max_bin], and a decibel matrix that is returned has
    the shape of the crop: [max_bin - min_bin] rows, or as many as the
    spectrum has from [min_bin] on when that is fewer, and row [i] has as
    many frames as row [min_bin + i] of the spectrum. *)
Theorem decibel_matrix_has_the_shape_of_the_crop
    (Y : matrix C) (sampling_rate : Q) (n_fft : Z) (max_freq min_freq : Q)
    (ref : policy F) (db : matrix F) :
  0 < sampling_rate -> (0 < n_fft)%Z -> 0 <= min_freq -> min_freq <= max_freq ->
  transform C F magnitude decibel floor_at array_max
    Y sampling_rate n_fft max_freq min_freq ref = Ok db ->
  exists min_bin max_bin,
    bins sampling_rate n_fft min_freq max_freq = Ok (min_bin, max_bin) /\
    (0 <= min_bin <= max_bin)%Z /\
    length db = Nat.min (Z.to_nat (max_bin - min_bin)) (length Y - Z.to_nat min_bin) /\
    (forall (i : nat) (row : list F), nth_error db i = Some row ->
       exists src, nth_error Y (Z.to_nat min_bin + i) = Some src /\
                   length row = length src).
Proof.
  intros Hs Hn H0 H1 E.
  destruct (transform_shape C F magnitude decibel floor_at array_max _ _ _ _ _ _ _ E)
    as (a & b & B & Sh).
  pose proof (bins_ordered _ _ _ _ _ _ Hs Hn H0 H1 B) as Ord.
  exists a, b. split; [exact B|]. split; [exact Ord|]. split.
  - rewrite <- (length_map (@length F)), Sh, length_map.
    apply length_slice_rows; lia.
  - intros i row Hi.
    pose proof (map_nth_error (@length F) _ _ Hi) as Li.
    rewrite Sh in Li. rewrite nth_error_map in Li.
    unfold crop in Li. rewrite nth_error_slice_rows in Li by lia.
    destruct (Z.of_nat i <? b - a)%Z; [|discriminate].
    destruct (nth_error Y (Z.to_nat a + i)) as [src|]; [|discriminate].
    exists src. split; [reflexivity|]. cbn in Li. congruence.
Qed.

(** X3.  For a density between 2^-64 and 2^64 and an image size of whole
    numbers between 1 and 2^50, the raster that is saved is the requested
    size or one pixel less on either axis, never more and never two less:
    the two float roundings of [(W / dpi) * dpi] stay within a quarter of a
    pixel of [W] before [int] truncates.  (The bounds on the density keep
    the quotient in the range of binary64; the proof needs only that it is
    positive.) *)
Theorem raster_is_at_most_one_pixel_short
    (Y : matrix C) (output_path : string) (image_name : nat)
    (sampling_rate : Q) (n_fft : Z) (dpi max_freq min_freq : Q) (W H : Z)
    (ref clim_lo clim_hi : policy F) (img : saved_image F) :
  pow2 (-64) <= dpi -> dpi <= pow2 64 ->
  (1 <= W <= 2 ^ 50)%Z -> (1 <= H <= 2 ^ 50)%Z ->
  save_spectrogram_image C F magnitude decibel floor_at array_max
    Y output_path image_name sampling_rate n_fft dpi max_freq min_freq
    (inject_Z W, inject_Z H) ref clim_lo clim_hi = Ok img ->
  (W - 1 <= fst (pixels F img) <= W)%Z /\ (H - 1 <= snd (pixels F img) <= H)%Z.
Proof.
  intros Hlo _ HW HH.
  assert (Hd : 0 < dpi) by (pose proof (pow2_pos (-64)); lra).
  unfold save_spectrogram_image.
  destruct (transform C F magnitude decibel floor_at array_max
              Y sampling_rate n_fft max_freq min_freq ref) as [db|e];
    [|discriminate]. cbn [Py.bind]. unfold figsize. cbn [fst snd].
  destruct (truediv (inject_Z W) dpi) as [w|e] eqn:Ew; [|discriminate].
  destruct (truediv (inject_Z H) dpi) as [h|e] eqn:Eh; [|discriminate].
  cbn [Py.bind]. intros E. injection E as <-. cbn [pixels raster_size fst snd].
  split; [exact (raster_axis W dpi HW Hd w Ew)|exact (raster_axis H dpi HH Hd h Eh)].
Qed.

(** X4.  Two calls into the same output directory with distinct image
    names return distinct save paths: images saved under distinct counters
    never land on one file. *)
Theorem save_paths_of_distinct_counters_differ
    (Y Y' : matrix C) (output_path : string) (a b : nat)
    (sampling_rate : Q) (n_fft : Z) (dpi max_freq min_freq : Q) (img_size : Q * Q)
    (ref clim_lo clim_hi : policy F) (img img' : saved_image F) :
  a <> b ->
  save_spectrogram_image C F magnitude decibel floor_at array_max
    Y output_path a sampling_rate n_fft dpi max_freq min_freq img_size
    ref clim_lo clim_hi = Ok img ->
  save_spectrogram_image C F magnitude decibel floor_at array_max
    Y' output_path b sampling_rate n_fft dpi max_freq min_freq img_size
    ref clim_lo clim_hi = Ok img' ->
  save_path F img <> save_path F img'.
Proof.
  unfold save_spectrogram_image. intros N E E'.
  destruct (transform C F magnitude decibel floor_at array_max
              Y sampling_rate n_fft max_freq min_freq ref) as [db|e];
    [|discriminate].
  destruct (transform C F magnitude decibel floor_at array_max
              Y' sampling_rate n_fft max_freq min_freq ref) as [db'|e];
    [|discriminate].
  cbn [Py.bind] in E, E'.
  destruct (figsize img_size dpi) as [s|e]; [|discriminate].
  cbn [Py.bind] in E, E'. injection E as <-. injection E' as <-.
  cbn [save_path]. intros P. apply N. exact (save_path_inj _ _ _ P).
Qed.

(** X5.  With the notebook's configuration (48000 Hz, a window of 512,
    3000 to 22000 Hz, 413 by 202 pixels at 96 dots per inch) the bins are
    32 and 234; for every spectrum of 257 rows with at least one frame the
    transform returns a decibel matrix of 202 rows, one per pixel row of
    the image, and the raster has the configured size. *)
Theorem configured_transform_has_one_row_per_pixel_row
    (Y : matrix C) (ref : policy F) :
  length Y = 257%nat -> Forall (fun row => row <> []) Y ->
  bins Config.SAMPLING_RATE Config.FFT_NUM Config.MIN_FREQ Config.MAX_FREQ
    = Ok (32, 234)%Z /\
  (exists db,
     transform C F magnitude decibel floor_at array_max
       Y Config.SAMPLING_RATE Config.FFT_NUM Config.MAX_FREQ Config.MIN_FREQ ref
       = Ok db /\
     inject_Z (Z.of_nat (length db)) == snd Config.IMAGE_SIZE) /\
  saved_image_size Config.IMAGE_SIZE Config.DPI = Ok (413, 202)%Z.
Proof.
  intros L NE.
  assert (B : bins Config.SAMPLING_RATE Config.FFT_NUM Config.MIN_FREQ Config.MAX_FREQ
              = Ok (32, 234)%Z) by (vm_compute; reflexivity).
  split; [exact B|]. split; [|vm_compute; reflexivity].
  unfold transform. rewrite B. cbn [Py.bind fst snd]. unfold crop, amplitude_to_db.
  assert (Len : length (slice_rows 32 234 Y) = 202%nat).
  { rewrite length_slice_rows by lia. rewrite L. reflexivity. }
  assert (Z0 : zero_size (map (map magnitude) (slice_rows 32 234 Y)) = false).
  { destruct (zero_size (map (map magnitude) (slice_rows 32 234 Y))) eqn:Z; [|reflexivity].
    apply zero_size_rows in Z.
    - apply (f_equal (@length _)) in Z. rewrite length_map, Len in Z. discriminate.
    - apply Forall_map.
      eapply Forall_impl; [|apply Forall_slice_rows, NE].
      intros row Hrow Hm. apply Hrow. destruct row; [reflexivity|discriminate]. }
  rewrite Z0. eexists. split; [reflexivity|].
  rewrite !length_map, Len. reflexivity.
Qed.

(** X20.  When the density is a power of two between 2^-64 and 2^64 (64,
    128, a half, ...) the quotient [W / dpi] is a float, nothing is lost
    in the two roundings, and the raster has exactly the requested size,
    for every whole-number size up to 2^53. *)
Theorem raster_is_exact_at_a_power_of_two_density
    (Y : matrix C) (output_path : string) (image_name : nat)
    (sampling_rate : Q) (n_fft : Z) (dpi max_freq min_freq : Q) (W H k : Z)
    (ref clim_lo clim_hi : policy F) (img : saved_image F) :
  (1 <= W <= 2 ^ 53)%Z -> (1 <= H <= 2 ^ 53)%Z ->
  (-64 <= k <= 64)%Z -> dpi == pow2 k ->
  save_spectrogram_image C F magnitude decibel floor_at array_max
    Y output_path image_name sampling_rate n_fft dpi max_freq min_freq
    (inject_Z W, inject_Z H) ref clim_lo clim_hi = Ok img ->
  pixels F img = (W, H).
Proof.
  intros HW HH _ Hd. unfold save_spectrogram_image.
  destruct (transform C F magnitude decibel floor_at array_max
              Y sampling_rate n_fft max_freq min_freq ref) as [db|e];
    [|discriminate]. cbn [Py.bind]. unfold figsize. cbn [fst snd].
  destruct (truediv (inject_Z W) dpi) as [w|e] eqn:Ew; [|discriminate].
  destruct (truediv (inject_Z H) dpi) as [h|e] eqn:Eh; [|discriminate].
  cbn [Py.bind]. intros E. injection E as <-. cbn [pixels raster_size fst snd].
  unfold raster_size. cbn [fst snd].
  f_equal; [exact (raster_axis_exact W dpi k HW Hd w Ew)
           |exact (raster_axis_exact H dpi k HH Hd h Eh)].
Qed.

(** X23.  For a window size that is a power of two (up to 2^53), a
    whole-number sampling rate and whole-number frequencies with
    [freq * n_fft < 2^53], the float arithmetic of lines 129-131 loses
    nothing: the bins are exactly [floor (freq * n_fft / sampling_rate)]. *)
Theorem bins_are_exact_for_a_power_of_two_window
    (sampling_rate k min_freq max_freq : Z) :
  (1 <= sampling_rate <= 2 ^ 53)%Z -> (0 <= k <= 53)%Z ->
  (0 <= min_freq)%Z -> (min_freq * 2 ^ k < 2 ^ 53)%Z ->
  (0 <= max_freq)%Z -> (max_freq * 2 ^ k < 2 ^ 53)%Z ->
  bins (inject_Z sampling_rate) (2 ^ k) (inject_Z min_freq) (inject_Z max_freq)
  = Ok ((min_freq * 2 ^ k) / sampling_rate, (max_freq * 2 ^ k) / sampling_rate)%Z.
Proof.
  intros Hs [Hk _] H1 B1 H2 B2. unfold bins.
  destruct (BinFacts.f_step_exact sampling_rate k Hs Hk) as (step & -> & St).
  cbn [Py.bind].
  rewrite (BinFacts.bin_exact min_freq sampling_rate k step) by (assumption || lia).
  cbn [Py.bind].
  rewrite (BinFacts.bin_exact max_freq sampling_rate k step) by (assumption || lia).
  reflexivity.
Qed.

(** Other window sizes can lose a bin: at 48000 Hz and a window of 90 the
    step [48000 / 90] is not a float, the quotients [8000 / f_step] and
    [16000 / f_step] come out just below 15 and 30, and the bins are 14 and
    29. *)
Remark bins_lose_one_at_a_window_of_90 :
  bins 48000 90 8000 16000 = Ok (14, 29)%Z /\
  ((8000 * 90) / 48000 = 15 /\ (16000 * 90) / 48000 = 30)%Z.
Proof. vm_compute. repeat split; reflexivity. Qed.

End TransformProperties.
(** * Further properties of the scanner and the render loop *)

Section ScannerProperties.

Import Fs FsFacts Scanner ScannerFacts RenderFacts StorageFacts RenderEdge.
Import WalkFacts RenderOutput.
#[local] Open Scope string_scope.
#[local] Open Scope list_scope.

Variable save_spectrogram_image : string -> path -> nat -> io string.

(** X6.  Over the whole run, across species, the images are named by
    consecutive counters from the initial one, one per event, so no name
    is used twice; a run that returns ends with the counter advanced by
    the number of images. *)
Theorem render_loop_names_images_by_consecutive_counters
    (CLIPS_PATH SAVE_IMAGE_PATH : path) (species : list string)
    (count : nat) (fs : node) :
  let r := render_all save_spectrogram_image CLIPS_PATH SAVE_IMAGE_PATH
             species count fs in
  image_names (fst r) = seq count (length (fst r)) /\
  NoDup (image_names (fst r)) /\
  (forall count' fs', snd r = Ok (count', fs') ->
     count' = (count + length (fst r))%nat).
Proof.
  intros r.
  destruct (render_all_trace save_spectrogram_image CLIPS_PATH SAVE_IMAGE_PATH
              species count fs) as [N K].
  fold r in N, K. split; [exact N|]. split; [|exact K].
  rewrite N. apply seq_NoDup.
Qed.

(** X7.  The inner loop saves the clips that [get_all_wavfiles] yields in
    the order in which they are yielded, each once, up to the first call
    that raises; when no call raises every clip has been saved and the
    counter has advanced by their number. *)
Theorem render_loop_saves_the_clips_in_the_order_yielded
    (top : string) (n : node) (curr_output_dir : path) (count : nat) (fs : node) :
  let clips := get_all_wavfiles top n in
  let r := render_clips save_spectrogram_image clips curr_output_dir count fs in
  saved_clips (fst r) = firstn (length (fst r)) clips /\
  (forall count' fs', snd r = Ok (count', fs') ->
     saved_clips (fst r) = clips /\ count' = (count + length clips)%nat).
Proof.
  intros clips r.
  destruct (render_clips_trace save_spectrogram_image clips curr_output_dir count fs
              (get_all_wavfiles_end top n)) as (_ & S & K).
  fold r in S, K. split; [exact S|].
  intros count' fs' E. destruct (K _ _ E) as [L ->]. split; [|reflexivity].
  rewrite S, L. apply firstn_all.
Qed.

(** X8.  With the images stored where the clips are read, nothing is ever
    rendered: the reset of a species' directory empties it before its
    clips are listed, so the run has no event at all. *)
Theorem render_into_the_clip_directory_saves_nothing
    (SHARED_PATH : path) (species : list string) (count : nat) (fs : node) :
  fst (render_all save_spectrogram_image SHARED_PATH SHARED_PATH species count fs)
  = [].
Proof. apply render_same_path. Qed.

(** X9.  A reset that returns has changed nothing outside the directory
    it was given: every path that diverges from it leads to what it led
    to before. *)
Theorem create_storage_leaves_other_paths_alone
    (directory_to_store_images : path) (fs fs' : node) (q : path) :
  create_storage_for_images directory_to_store_images fs = Ok (tt, fs') ->
  diverge directory_to_store_images q ->
  get q fs' = get q fs.
Proof.
  intros E D. exact (proj1 (create_storage_frame _ _ _ _ E D)).
Qed.

(** X10.  The reset returns exactly when no file stands at the path or
    at one of its ancestors; with a file there it raises
    [NotADirectoryError], from [shutil.rmtree] for a file at the path and
    from [os.makedirs] for a file above it. *)
Theorem create_storage_returns_iff_no_file_is_in_the_way
    (directory_to_store_images : path) (fs : node) :
  directory_to_store_images <> [] ->
  (succeeds (create_storage_for_images directory_to_store_images fs)
   <-> clear directory_to_store_images fs = true) /\
  (clear directory_to_store_images fs = false ->
   create_storage_for_images directory_to_store_images fs
   = Raise NotADirectoryError).
Proof.
  intros Hd.
  destruct (create_storage_cases directory_to_store_images fs Hd)
    as [(K & fs' & E & _)|(K & E)].
  - split; [|congruence]. split; [intros _; exact K|].
    intros _. exists (tt, fs'). exact E.
  - split; [|intros _; exact E]. split; [|congruence].
    intros [a Ea]. congruence.
Qed.

(** X21.  In a well-formed tree whose names are not empty and hold no
    separator, [get_all_wavfiles] yields no path twice, so the inner loop
    saves no clip twice. *)
Theorem get_all_wavfiles_yields_no_path_twice
    (top : string) (n : node) (curr_output_dir : path) (count : nat) (fs : node) :
  wf n = true -> names_ok n = true ->
  NoDup (get_all_wavfiles top n) /\
  NoDup (saved_clips
           (fst (render_clips save_spectrogram_image (get_all_wavfiles top n)
                   curr_output_dir count fs))).
Proof.
  intros W OK. pose proof (NoDup_get_all_wavfiles top n W OK) as ND.
  split; [exact ND|].
  destruct (render_clips_trace save_spectrogram_image (get_all_wavfiles top n)
              curr_output_dir count fs (get_all_wavfiles_end top n)) as (_ & S & _).
  rewrite S. apply SplitterFacts.NoDup_firstn, ND.
Qed.

(** X22.  Suppose every call of [save_spectrogram_image] that returns has
    written its image as [<image_name>.png] into its output directory and
    changed nothing else, the species are distinct and the image root lies
    apart from the clip root.  Then after a run that returns, the output
    directory of every species holds exactly one image per clip of the
    species, named by consecutive counters of this run, and nothing else:
    what it held before is gone. *)
Theorem render_run_leaves_one_image_per_clip
    (CLIPS_PATH SAVE_IMAGE_PATH : path) (species : list string)
    (count : nat) (fs : node) (evs : list event) (count' : nat) (fs' : node) :
  writes_image save_spectrogram_image ->
  diverge SAVE_IMAGE_PATH CLIPS_PATH ->
  NoDup species ->
  render_all save_spectrogram_image CLIPS_PATH SAVE_IMAGE_PATH species count fs
    = (evs, Ok (count', fs')) ->
  forall s, In s species ->
    exists first,
      (count <= first)%nat /\
      (first + length (clips_of CLIPS_PATH s fs) <= count')%nat /\
      map fst (entries_at (SAVE_IMAGE_PATH ++ [s]) fs')
      = map image_file (seq first (length (clips_of CLIPS_PATH s fs))).
Proof.
  intros Contract Sep ND E.
  exact (proj1 (render_all_output save_spectrogram_image Contract
                  CLIPS_PATH SAVE_IMAGE_PATH Sep species count fs evs count' fs' ND E)).
Qed.

End ScannerProperties.

(** * Further properties of the split *)

Section SplitterProperties.

Import Float64 Float64Facts Fs FsFacts Splitter SplitterFacts.
Import SplitterMore SplitterIdle SplitterEdge SplitterErrors.
#[local] Open Scope string_scope.
#[local] Open Scope list_scope.

Variable rng : Type.
Variable shuffle : rng -> list string -> list string * rng.

(** X11.  The run raises [StopIteration] exactly when the data root is
    missing or is a file: [next] is then called on a walk that yields
    nothing.  No later step raises it. *)
Theorem split_raises_StopIteration_iff_the_data_root_is_no_directory
    (data test : path) (ratio : Q) (g : rng) (fs : node) :
  generate_training_and_testing_datasets rng shuffle data test ratio g fs
    = Raise StopIteration
  <-> forall es, get data fs <> Some (Dir es).
Proof. apply generate_StopIteration. Qed.

(** X12.  On a data root that holds no directory (it is empty, or holds
    only files) the run returns at once: the tree and the random state are
    as they were, and the test root is not created. *)
Theorem split_of_a_root_without_classes_changes_nothing
    (data test : path) (ratio : Q) (g : rng) (fs : node)
    (des : list (string * node)) :
  get data fs = Some (Dir des) -> dirnames des = [] ->
  generate_training_and_testing_datasets rng shuffle data test ratio g fs
  = Ok (g, fs).
Proof. apply generate_no_class. Qed.

(** X13.  A run on a splittable tree moves only entries of the class
    directories: a file that lies directly in the data root is still
    there with its contents, and every path that diverges from both roots
    leads to what it led to before. *)
Theorem split_leaves_loose_files_and_other_paths_alone
    (data test : path) (ratio : Q) (g : rng) (fs : node)
    (des : list (string * node)) :
  (forall g l, Permutation (fst (shuffle g l)) l) ->
  diverge data test ->
  splittable data test ratio fs des ->
  exists g' fs',
    generate_training_and_testing_datasets rng shuffle data test ratio g fs
      = Ok (g', fs') /\
    (forall f c, In (f, File c) des -> get (data ++ [f]) fs' = Some (File c)) /\
    (forall q, diverge data q -> diverge test q -> get q fs' = get q fs).
Proof.
  intros Perm Sep Sp. exact (generate_frame rng shuffle Perm data test Sep ratio g fs des Sp).
Qed.

(** X14.  With a ratio of zero every entry of every class is moved: the
    class directories are left empty and each test directory holds what
    it held before followed by the entries of its class, in some order. *)
Theorem split_at_ratio_zero_moves_every_file
    (data test : path) (ratio : Q) (g : rng) (fs : node)
    (des : list (string * node)) :
  (forall g l, Permutation (fst (shuffle g l)) l) ->
  diverge data test ->
  (ratio == 0)%Q ->
  splittable data test ratio fs des ->
  exists g' fs',
    generate_training_and_testing_datasets rng shuffle data test ratio g fs
      = Ok (g', fs') /\
    forall d es, In (d, Dir es) des ->
      exists mv,
        get (data ++ [d]) fs' = Some (Dir []) /\
        get (test ++ [d]) fs' = Some (Dir (entries_at (test ++ [d]) fs ++ mv)) /\
        Permutation mv es.
Proof.
  intros Perm Sep R Sp.
  exact (generate_all rng shuffle Perm data test Sep ratio g fs des R Sp).
Qed.

(** X15.  With a ratio of one or more (up to 2^64, so that the product
    stays a finite float) no entry is moved, whatever the shuffle does and
    whatever names the test directories hold: the run returns, every class
    directory is as it was, and every test directory is present with the
    entries it had, created empty when it was absent. *)
Theorem split_at_ratio_one_or_more_moves_nothing
    (data test : path) (ratio : Q) (g : rng) (fs : node)
    (des : list (string * node)) :
  diverge data test ->
  wf fs = true ->
  get data fs = Some (Dir des) ->
  (1 <= ratio)%Q -> (ratio <= pow2 64)%Q ->
  (forall d es, In (d, Dir es) des -> clear (test ++ [d]) fs = true) ->
  exists g' fs',
    generate_training_and_testing_datasets rng shuffle data test ratio g fs
      = Ok (g', fs') /\
    forall d es, In (d, Dir es) des ->
      get (data ++ [d]) fs' = Some (Dir es) /\
      get (test ++ [d]) fs' = Some (Dir (entries_at (test ++ [d]) fs)).
Proof.
  intros Sep W G R _ K.
  destruct (generate_idle rng shuffle data test Sep ratio g fs des W G)
    as (g' & fs' & E & Cs & _).
  - intros d es Hin. split; [|exact (K d es Hin)].
    apply test_count_none; [|exact R].
    apply rnd64_nonneg. change 0%Q with (inject_Z 0). rewrite <- Zle_Qle. lia.
  - exists g', fs'. split; [exact E|exact Cs].
Qed.

(** X16.  The loop body for a class with a count within its listing moves
    the first [k] names of the shuffled listing and no other: they leave
    the class directory and are added to the names of the test directory,
    every other name stays where it is, and the random state is the one
    the shuffle returned. *)
Theorem split_moves_the_first_names_of_the_shuffle
    (data test : path) (d : string) (es : list (string * node)) (k : Z)
    (g : rng) (fs : node) :
  (forall g l, Permutation (fst (shuffle g l)) l) ->
  diverge data test ->
  get (data ++ [d]) fs = Some (Dir es) ->
  NoDup (map fst es) ->
  clear (test ++ [d]) fs = true ->
  (forall f, In f (map fst es) -> assoc f (entries_at (test ++ [d]) fs) = None) ->
  (Z.to_nat k <= length es)%nat ->
  let ms := firstn (Z.to_nat k) (fst (shuffle g (map fst es))) in
  exists fs',
    transfer_class rng shuffle data test d k g fs
      = Ok (snd (shuffle g (map fst es)), fs') /\
    map fst (entries_at (test ++ [d]) fs')
      = map fst (entries_at (test ++ [d]) fs) ++ ms /\
    (forall f, In f (map fst es) ->
       (In f ms -> get ((data ++ [d]) ++ [f]) fs' = None) /\
       (~ In f ms -> get ((data ++ [d]) ++ [f]) fs' = get ((data ++ [d]) ++ [f]) fs)).
Proof.
  intros Perm Sep GS ND K Free Hk ms.
  destruct (transfer_class_run rng shuffle Perm data test Sep d es k g fs GS ND K Free)
    as (fs' & GS' & GT' & _ & E).
  fold ms in GS', GT'.
  apply Nat.leb_le in Hk. rewrite Hk in E.
  assert (Inm : forall f, In f ms -> assoc f es <> None).
  { intros f Hf C. apply assoc_None_notin in C. apply C.
    apply ListFacts.In_firstn in Hf. exact (Permutation_in _ (Perm g _) Hf). }
  assert (NDm : NoDup ms).
  { apply NoDup_firstn. exact (Permutation_NoDup (Permutation_sym (Perm g _)) ND). }
  exists fs'. split; [exact E|]. split.
  - unfold entries_at at 1. rewrite GT', map_app.
    rewrite (relocated_names ms es NDm Inm). reflexivity.
  - intros f Hf.
    rewrite (get_snoc (data ++ [d]) f fs'), (get_snoc (data ++ [d]) f fs).
    rewrite GS', GS, assoc_remaining.
    destruct (in_dec string_dec f ms) as [I|I]; split; intros; tauto || reflexivity.
Qed.

(** X17.  With a ratio of minus one or less (down to -2^64, so that the
    product stays a finite float) the count of a class with files is at
    least twice their number, and the run raises [IndexError] at the first
    index past the listing of the first such class. *)
Theorem split_raises_IndexError_for_a_ratio_of_minus_one_or_less
    (data test : path) (ratio : Q) (g : rng) (fs : node)
    (des : list (string * node)) :
  (forall g l, Permutation (fst (shuffle g l)) l) ->
  diverge data test ->
  wf fs = true ->
  get data fs = Some (Dir des) ->
  (forall d es, In (d, Dir es) des ->
     (Z.of_nat (length es) <= 2 ^ 52)%Z /\
     clear (test ++ [d]) fs = true /\
     (forall f, In f (map fst es) -> assoc f (entries_at (test ++ [d]) fs) = None)) ->
  (- pow2 64 <= ratio)%Q -> (ratio <= - (1))%Q ->
  (exists d es, In (d, Dir es) des /\ es <> []) ->
  generate_training_and_testing_datasets rng shuffle data test ratio g fs
  = Raise IndexError.
Proof.
  intros Perm Sep W G H _ R (d & es & Hin & Ne).
  apply (generate_past_listing rng shuffle Perm data test Sep ratio g fs des W G).
  - intros d' es' Hin'. destruct (H d' es' Hin') as (_ & K & Free). split; assumption.
  - exists d, es. split; [exact Hin|].
    destruct (H d es Hin) as (Hn & _ & _).
    assert (L : (1 <= length es)%nat) by (destruct es; [congruence|cbn; lia]).
    assert (B : (1 <= Z.of_nat (length es) <= 2 ^ 52)%Z) by lia.
    pose proof (test_count_past (Z.of_nat (length es)) ratio B R) as P.
    lia.
Qed.

(** X18.  A file in the test directory that has the name of the file
    being moved is replaced without notice: the move returns, the test
    directory holds the moved contents under that name and has as many
    entries as before, and the old contents are gone. *)
Theorem split_overwrites_a_test_file_of_the_same_name
    (data test : path) (d : string) (es tes : list (string * node))
    (g : rng) (fs : node) (f : string) (rest : list string) (c c' : string) :
  diverge data test ->
  get (data ++ [d]) fs = Some (Dir es) ->
  get (test ++ [d]) fs = Some (Dir tes) ->
  fst (shuffle g (map fst es)) = f :: rest ->
  assoc f es = Some (File c) -> assoc f tes = Some (File c') ->
  exists g' fs',
    transfer_class rng shuffle data test d 1 g fs = Ok (g', fs') /\
    get ((test ++ [d]) ++ [f]) fs' = Some (File c) /\
    get ((data ++ [d]) ++ [f]) fs' = None /\
    length (entries_at (test ++ [d]) fs') = length tes.
Proof.
  intros Sep GS GT Sh AS AT.
  destruct (transfer_class_over rng shuffle data test Sep d es tes g fs f rest c c'
              GS GT Sh AS AT) as (fs' & E & GS' & GT').
  exists (snd (shuffle g (map fst es))), fs'. split; [exact E|].
  rewrite (get_snoc (test ++ [d]) f fs'), (get_snoc (data ++ [d]) f fs').
  rewrite GS', GT'. unfold entries_at. rewrite GT'.
  split; [apply assoc_upsert_eq|]. split; [apply assoc_del_eq|].
  apply length_upsert_taken. congruence.
Qed.

(** X19.  The test count never falls when the class grows or the ratio
    shrinks: for [0 <= c1 <= c2 <= 2^53] files and ratios
    [-2^64 <= r1 <= r2 <= 1], the count of [c1] files at [r2] is at most
    that of [c2] files at [r1]. *)
Theorem test_count_is_monotone (c1 c2 r1 r2 : Q) :
  (0 <= c1)%Q -> (c1 <= c2)%Q -> (c2 <= pow2 53)%Q ->
  (- pow2 64 <= r1)%Q -> (r1 <= r2)%Q -> (r2 <= 1)%Q ->
  (test_count c1 r2 <= test_count c2 r1)%Z.
Proof.
  intros H0 Hc _ _ Hr H1.
  apply Z.le_trans with (test_count c2 r2).
  - apply test_count_mono_counter; assumption.
  - apply test_count_mono_ratio; [lra|exact Hr].
Qed.

(** X24.  At a ratio of one half the count of a class is half its size,
    and for an odd size [2 m + 1] the tie is broken toward the even
    number: the count is [m] when [m] is even and [m + 1] when [m] is odd
    (2 of 5 files, 4 of 7). *)
Theorem test_count_at_one_half_rounds_ties_to_even (m : Z) (ratio : Q) :
  (0 <= m)%Z -> (2 * m + 1 <= 2 ^ 53)%Z -> (ratio == 1 # 2)%Q ->
  test_count (rnd64 (inject_Z (2 * m))) ratio = m /\
  test_count (rnd64 (inject_Z (2 * m + 1))) ratio
  = (if Z.even m then m else m + 1)%Z.
Proof.
  intros H0 H1 R. split.
  - rewrite test_count_half by (assumption || lia).
    assert (E : (inject_Z (2 * m) * (1 # 2) == inject_Z m)%Q).
    { rewrite inject_Z_mult. change (inject_Z 2) with 2%Q. field. }
    rewrite E. apply round_half_even_Z.
  - rewrite test_count_half by (assumption || lia).
    apply round_half_even_half.
    rewrite inject_Z_plus, inject_Z_mult.
    change (inject_Z 2) with 2%Q. change (inject_Z 1) with 1%Q. field.
Qed.

End SplitterProperties.
(** * The further properties at concrete inputs *)

Section MoreInstances.

Import Float64 Numpy Fs Scanner Splitter SplitterFacts.
#[local] Open Scope string_scope.
#[local] Open Scope list_scope.

Lemma zero_division_witness :
  Spectrogram.save_spectrogram_image Z Z Z.abs sample_decibel sample_floor_at
    sample_max sample_stft "img-data/common" 0 48000 512 0 22000 3000
    (413, 202)%Q (Reduction sample_max) (Reduction sample_mean) (Fixed 0%Z)
  = Raise ZeroDivisionError
  <-> (512 = 0 \/ (48000 == 0)%Q \/
       ((0 == 0)%Q /\
        succeeds (Spectrogram.transform Z Z Z.abs sample_decibel sample_floor_at
                    sample_max sample_stft 48000 512 22000 3000
                    (Reduction sample_max))))%Z.
Proof.
  apply (save_raises_ZeroDivisionError_exactly_on_a_zero_parameter Z Z Z.abs
           sample_decibel sample_floor_at sample_max sample_stft "img-data/common" 0
           (inject_Z 48000) 512 0 (inject_Z 22000) (inject_Z 3000) (413, 202)%Q
           (Reduction sample_max) (Reduction sample_mean) (Fixed 0%Z)).
  - split; discriminate.
  - apply (sample_band 48000). split; discriminate.
  - apply (sample_band 3000). split; discriminate.
  - apply (sample_band 22000). split; discriminate.
Defined.

Lemma decibel_shape_witness :
  exists min_bin max_bin,
    Spectrogram.bins 48000 512 3000 22000 = Ok (min_bin, max_bin) /\
    (0 <= min_bin <= max_bin)%Z /\
    length (repeat [0%Z] 202) = Nat.min (Z.to_nat (max_bin - min_bin))
                                  (length sample_stft - Z.to_nat min_bin).
Proof.
  destruct (decibel_matrix_has_the_shape_of_the_crop Z Z Z.abs sample_decibel
              sample_floor_at sample_max sample_stft 48000 512 22000 3000
              (Reduction sample_max) (repeat [0%Z] 202))
    as (a & b & B & Ord & L & _);
    [reflexivity|reflexivity|discriminate|discriminate|vm_compute; reflexivity|].
  exists a, b. split; [exact B|]. split; [exact Ord|exact L].
Defined.

Lemma raster_witness :
  exists img,
    Spectrogram.save_spectrogram_image Z Z Z.abs sample_decibel sample_floor_at
      sample_max sample_stft "img-data/common" 0 48000 512 143 22000 3000
      (inject_Z 413, inject_Z 202) (Reduction sample_max) (Reduction sample_mean)
      (Fixed 0%Z) = Ok img /\
    (413 - 1 <= fst (Spectrogram.pixels Z img) <= 413)%Z /\
    (202 - 1 <= snd (Spectrogram.pixels Z img) <= 202)%Z.
Proof.
  eexists. split; [vm_compute; reflexivity|].
  apply (raster_is_at_most_one_pixel_short Z Z Z.abs sample_decibel sample_floor_at
           sample_max sample_stft "img-data/common" 0 48000 512 143 22000 3000
           413 202 (Reduction sample_max) (Reduction sample_mean) (Fixed 0%Z)).
  - vm_compute. discriminate.
  - vm_compute. discriminate.
  - split; discriminate.
  - split; discriminate.
  - vm_compute. reflexivity.
Defined.

Lemma save_paths_witness :
  exists img img',
    Spectrogram.save_spectrogram_image Z Z Z.abs sample_decibel sample_floor_at
      sample_max sample_stft "img-data/common" 9 48000 512 96 22000 3000
      (413, 202)%Q (Reduction sample_max) (Reduction sample_mean)
      (Fixed 0%Z) = Ok img /\
    Spectrogram.save_spectrogram_image Z Z Z.abs sample_decibel sample_floor_at
      sample_max sample_stft "img-data/common" 10 48000 512 96 22000 3000
      (413, 202)%Q (Reduction sample_max) (Reduction sample_mean)
      (Fixed 0%Z) = Ok img' /\
    Spectrogram.save_path Z img <> Spectrogram.save_path Z img'.
Proof.
  do 2 eexists. split; [vm_compute; reflexivity|]. split; [vm_compute; reflexivity|].
  apply (save_paths_of_distinct_counters_differ Z Z Z.abs sample_decibel sample_floor_at
           sample_max sample_stft sample_stft "img-data/common" 9 10 48000 512 96
           22000 3000 (413, 202)%Q (Reduction sample_max) (Reduction sample_mean)
           (Fixed 0%Z)).
  - discriminate.
  - vm_compute. reflexivity.
  - vm_compute. reflexivity.
Defined.

Lemma configured_transform_witness :
  Spectrogram.bins Config.SAMPLING_RATE Config.FFT_NUM Config.MIN_FREQ Config.MAX_FREQ
    = Ok (32, 234)%Z /\
  (exists db,
     Spectrogram.transform Z Z Z.abs sample_decibel sample_floor_at sample_max
       sample_stft Config.SAMPLING_RATE Config.FFT_NUM Config.MAX_FREQ Config.MIN_FREQ
       (Reduction sample_max) = Ok db /\
     (inject_Z (Z.of_nat (length db)) == snd Config.IMAGE_SIZE)%Q) /\
  Spectrogram.saved_image_size Config.IMAGE_SIZE Config.DPI = Ok (413, 202)%Z.
Proof.
  apply (configured_transform_has_one_row_per_pixel_row Z Z Z.abs sample_decibel
           sample_floor_at sample_max sample_stft (Reduction sample_max)).
  - reflexivity.
  - apply Forall_forall. intros row H. apply repeat_spec in H. subst. discriminate.
Defined.

Lemma create_storage_frame_witness :
  exists fs',
    create_storage_for_images ["img-data"; "empty"] sample_corpus = Ok (tt, fs') /\
    get ["img-data"; "common"; "3.png"] fs'
    = get ["img-data"; "common"; "3.png"] sample_corpus.
Proof.
  eexists. split; [vm_compute; reflexivity|].
  apply (create_storage_leaves_other_paths_alone ["img-data"; "empty"] sample_corpus).
  - vm_compute. reflexivity.
  - right. split; [reflexivity|]. left. discriminate.
Defined.

Lemma create_storage_iff_witness :
  (succeeds (create_storage_for_images ["img-data"; "common"; "3.png"; "x"] sample_corpus)
   <-> clear ["img-data"; "common"; "3.png"; "x"] sample_corpus = true) /\
  (clear ["img-data"; "common"; "3.png"; "x"] sample_corpus = false ->
   create_storage_for_images ["img-data"; "common"; "3.png"; "x"] sample_corpus
   = Raise NotADirectoryError).
Proof.
  apply (create_storage_returns_iff_no_file_is_in_the_way
           ["img-data"; "common"; "3.png"; "x"] sample_corpus).
  discriminate.
Defined.

(** A data root that holds a file and no class. *)
Definition sample_flat : node :=
  Dir [("img-data", Dir [("notes.txt", File "n")])].

Lemma split_without_classes_witness :
  generate_training_and_testing_datasets nat sample_shuffle
    Config.SAVE_IMAGE_PATH Config.TEST_DATA Config.TRAIN_TEST_RATIO 0%nat sample_flat
  = Ok (0%nat, sample_flat).
Proof.
  apply (split_of_a_root_without_classes_changes_nothing nat sample_shuffle
           Config.SAVE_IMAGE_PATH Config.TEST_DATA Config.TRAIN_TEST_RATIO 0%nat sample_flat
           [("notes.txt", File "n")]).
  - reflexivity.
  - reflexivity.
Defined.

(** A corpus with a file beside its one class of four images. *)
Definition sample_loose_entries : list (string * node) :=
  [("notes.txt", File "n");
   ("common",
    Dir [("0.png", File "0"); ("1.png", File "1"); ("2.png", File "2");
         ("3.png", File "3")])].

Definition sample_loose : node := Dir [("img-data", Dir sample_loose_entries)].

Lemma sample_loose_splittable (ratio : Q) :
  (0 <= ratio)%Q -> (ratio <= 1)%Q ->
  splittable ["img-data"] ["test-data"] ratio sample_loose sample_loose_entries.
Proof.
  intros R0 R1.
  split; [reflexivity|]. split; [reflexivity|].
  split; [exact R0|]. split; [exact R1|].
  intros d es [H|[H|[]]]; [discriminate|]. injection H as <- <-.
  split; [vm_compute; discriminate|]. split; [reflexivity|].
  intros f Hf. reflexivity.
Defined.

Lemma split_frame_witness :
  exists g' fs',
    generate_training_and_testing_datasets nat sample_shuffle
      Config.SAVE_IMAGE_PATH Config.TEST_DATA Config.TRAIN_TEST_RATIO 0%nat sample_loose
      = Ok (g', fs') /\
    get ["img-data"; "notes.txt"] fs' = Some (File "n").
Proof.
  destruct (split_leaves_loose_files_and_other_paths_alone nat sample_shuffle
              Config.SAVE_IMAGE_PATH Config.TEST_DATA Config.TRAIN_TEST_RATIO 0%nat sample_loose
              sample_loose_entries sample_shuffle_perm sample_roots_diverge)
    as (g' & fs' & E & Loose & _).
  - apply sample_loose_splittable; vm_compute; discriminate.
  - exists g', fs'. split; [exact E|].
    apply (Loose "notes.txt" "n"). left. reflexivity.
Defined.

Lemma split_at_ratio_zero_witness :
  exists g' fs',
    generate_training_and_testing_datasets nat sample_shuffle
      ["img-data"] ["test-data"] 0 0%nat sample_loose = Ok (g', fs') /\
    get ["img-data"; "common"] fs' = Some (Dir []) /\
    length (entries_at ["test-data"; "common"] fs') = 4%nat.
Proof.
  destruct (split_at_ratio_zero_moves_every_file nat sample_shuffle
              ["img-data"] ["test-data"] 0 0%nat sample_loose
              sample_loose_entries sample_shuffle_perm sample_roots_diverge)
    as (g' & fs' & E & Cs).
  - reflexivity.
  - apply sample_loose_splittable; vm_compute; discriminate.
  - exists g', fs'. split; [exact E|].
    destruct (Cs "common" _ (or_intror (or_introl eq_refl))) as (mv & GS & GT & P).
    split; [exact GS|].
    unfold entries_at. cbn [app] in GT. rewrite GT.
    change (entries_at ["test-data"; "common"] sample_loose) with (@nil (string * node)).
    cbn [app]. exact (Permutation_length P).
Defined.

Lemma split_at_ratio_one_witness :
  exists g' fs',
    generate_training_and_testing_datasets nat sample_shuffle
      ["img-data"] ["test-data"] 1 0%nat sample_loose = Ok (g', fs') /\
    length (entries_at ["img-data"; "common"] fs') = 4%nat /\
    get ["test-data"; "common"] fs' = Some (Dir []).
Proof.
  destruct (split_at_ratio_one_or_more_moves_nothing nat sample_shuffle
              ["img-data"] ["test-data"] 1 0%nat sample_loose
              sample_loose_entries sample_roots_diverge)
    as (g' & fs' & E & Cs).
  - reflexivity.
  - reflexivity.
  - vm_compute. discriminate.
  - vm_compute. discriminate.
  - intros d es [H|[H|[]]]; [discriminate|]. injection H as <- <-. reflexivity.
  - exists g', fs'. split; [exact E|].
    destruct (Cs "common" _ (or_intror (or_introl eq_refl))) as (GS & GT).
    unfold entries_at. cbn [app] in GS, GT. rewrite GS. split; [reflexivity|exact GT].
Defined.

Lemma split_first_names_witness :
  exists fs',
    transfer_class nat sample_shuffle ["img-data"] ["test-data"] "common" 2 0%nat
      sample_loose = Ok (1%nat, fs') /\
    map fst (entries_at ["test-data"; "common"] fs') = ["3.png"; "2.png"].
Proof.
  destruct (split_moves_the_first_names_of_the_shuffle nat sample_shuffle
              ["img-data"] ["test-data"] "common"
              [("0.png", File "0"); ("1.png", File "1"); ("2.png", File "2");
               ("3.png", File "3")] 2 0%nat sample_loose
              sample_shuffle_perm sample_roots_diverge)
    as (fs' & E & Names & _).
  - reflexivity.
  - repeat constructor; cbn; intuition discriminate.
  - reflexivity.
  - intros f Hf. reflexivity.
  - cbn. lia.
  - exists fs'. split; [exact E|exact Names].
Defined.

Lemma split_IndexError_witness :
  generate_training_and_testing_datasets nat sample_shuffle
    ["img-data"] ["test-data"] (- (1)) 0%nat sample_loose = Raise IndexError.
Proof.
  apply (split_raises_IndexError_for_a_ratio_of_minus_one_or_less nat sample_shuffle
           ["img-data"] ["test-data"] (- (1))%Q 0%nat sample_loose sample_loose_entries
           sample_shuffle_perm sample_roots_diverge).
  - reflexivity.
  - reflexivity.
  - intros d es [H|[H|[]]]; [discriminate|]. injection H as <- <-.
    split; [vm_compute; discriminate|]. split; [reflexivity|].
    intros f Hf. reflexivity.
  - vm_compute. discriminate.
  - vm_compute. discriminate.
  - exists "common". eexists. split; [right; left; reflexivity|discriminate].
Defined.

(** A class whose one image has a namesake in the test directory. *)
Definition sample_clash : node :=
  Dir [("img-data", Dir [("common", Dir [("0.png", File "new")])]);
       ("test-data", Dir [("common", Dir [("0.png", File "old")])])].

Lemma split_overwrite_witness :
  exists g' fs',
    transfer_class nat sample_shuffle ["img-data"] ["test-data"] "common" 1 0%nat
      sample_clash = Ok (g', fs') /\
    get ["test-data"; "common"; "0.png"] fs' = Some (File "new") /\
    get ["img-data"; "common"; "0.png"] fs' = None /\
    length (entries_at ["test-data"; "common"] fs') = 1%nat.
Proof.
  apply (split_overwrites_a_test_file_of_the_same_name nat sample_shuffle
           ["img-data"] ["test-data"] "common"
           [("0.png", File "new")] [("0.png", File "old")] 0%nat sample_clash
           "0.png" [] "new" "old" sample_roots_diverge); reflexivity.
Defined.

Lemma test_count_monotone_witness :
  (test_count (rnd64 7) (rnd64 (7 # 10)) <= test_count (rnd64 10) (rnd64 (6 # 10)))%Z.
Proof.
  apply (test_count_is_monotone (rnd64 7) (rnd64 10) (rnd64 (6 # 10)) (rnd64 (7 # 10)));
    vm_compute; discriminate.
Defined.

Lemma raster_exact_witness :
  exists img,
    Spectrogram.save_spectrogram_image Z Z Z.abs sample_decibel sample_floor_at
      sample_max sample_stft "img-data/common" 0 48000 512 64 22000 3000
      (inject_Z 413, inject_Z 202) (Reduction sample_max) (Reduction sample_mean)
      (Fixed 0%Z) = Ok img /\
    Spectrogram.pixels Z img = (413, 202)%Z.
Proof.
  eexists. split; [vm_compute; reflexivity|].
  apply (raster_is_exact_at_a_power_of_two_density Z Z Z.abs sample_decibel
           sample_floor_at sample_max sample_stft "img-data/common" 0 48000 512 64
           22000 3000 413 202 6 (Reduction sample_max) (Reduction sample_mean)
           (Fixed 0%Z)).
  - split; discriminate.
  - split; discriminate.
  - split; discriminate.
  - reflexivity.
  - vm_compute. reflexivity.
Defined.

(** A clip directory with two clips, one of them in a subdirectory, and an
    image directory that holds an image of an earlier run. *)
Definition sample_clips : node :=
  Dir [("wav-data",
        Dir [("common",
              Dir [("a.wav", File "a"); ("b.txt", File "b");
                   ("sub", Dir [("c.wav", File "c")])])]);
       ("img-data", Dir [("common", Dir [("7.png", File "old")])])].

(** A stand-in for the call: it writes the clip's path as the image. *)
Definition sample_save (clip_path : string) (out : path) (count : nat) : io string :=
  fun fs =>
    match get out fs with
    | Some (Dir _) =>
        match put (out ++ [RenderOutput.image_file count]) (File clip_path) fs with
        | Some fs' =>
            Ok (os_path_join (path_string out) (RenderOutput.image_file count), fs')
        | None => Raise FileNotFoundError
        end
    | _ => Raise FileNotFoundError
    end.

Lemma sample_save_writes : RenderOutput.writes_image sample_save.
Proof.
  intros clip out count fs p fs' E. unfold sample_save in E.
  destruct (get out fs) as [[c|es]|] eqn:G; try discriminate.
  destruct (FsFacts.put_snoc out (RenderOutput.image_file count) (File clip) fs es G)
    as (fs1 & P & G1).
  rewrite P in E. injection E as _ <-.
  exists es, clip. split; [reflexivity|]. split; [exact G1|].
  intros q D. exact (FsFacts.put_frame _ _ _ _ q P (FsFacts.diverge_app_l _ _ _ D)).
Defined.

Lemma wavfiles_once_witness :
  NoDup (get_all_wavfiles "wav-data" sample_clips) /\
  NoDup (RenderFacts.saved_clips
           (fst (render_clips sample_save (get_all_wavfiles "wav-data" sample_clips)
                   ["img-data"; "common"] 0 sample_clips))).
Proof.
  apply (get_all_wavfiles_yields_no_path_twice sample_save "wav-data" sample_clips
           ["img-data"; "common"] 0 sample_clips); reflexivity.
Defined.

(** The tree after the run over [sample_clips] for the configured species,
    of which only the first has clips. *)
Definition sample_rendered : node :=
  Dir [("wav-data",
        Dir [("common",
              Dir [("a.wav", File "a"); ("b.txt", File "b");
                   ("sub", Dir [("c.wav", File "c")])])]);
       ("img-data",
        Dir [("common",
              Dir [("0.png", File "/wav-data/common/a.wav");
                   ("1.png", File "/wav-data/common/sub/c.wav")]);
             ("bottlenose", Dir []); ("melon-headed", Dir [])])].

Lemma render_run_witness :
  exists first,
    (0 <= first)%nat /\
    (first + length (RenderOutput.clips_of ["wav-data"] "common" sample_clips) <= 2)%nat /\
    map fst (entries_at ["img-data"; "common"] sample_rendered)
    = map RenderOutput.image_file
        (seq first (length (RenderOutput.clips_of ["wav-data"] "common" sample_clips))).
Proof.
  apply (render_run_leaves_one_image_per_clip sample_save
           ["wav-data"] Config.SAVE_IMAGE_PATH Config.SPECIES 0 sample_clips
           [Saved "/wav-data/common/a.wav" 0; Saved "/wav-data/common/sub/c.wav" 1]
           2 sample_rendered sample_save_writes).
  - left. discriminate.
  - repeat constructor; cbn; intuition discriminate.
  - vm_compute. reflexivity.
  - left. reflexivity.
Defined.

Lemma bins_exact_witness :
  Spectrogram.bins (inject_Z 48000) (2 ^ 9) (inject_Z 3000) (inject_Z 22000)
  = Ok ((3000 * 2 ^ 9) / 48000, (22000 * 2 ^ 9) / 48000)%Z.
Proof.
  apply (bins_are_exact_for_a_power_of_two_window 48000 9 3000 22000).
  - split; discriminate.
  - split; discriminate.
  - discriminate.
  - reflexivity.
  - discriminate.
  - reflexivity.
Defined.

Lemma test_count_half_witness :
  test_count (rnd64 (inject_Z (2 * 3))) (rnd64 (1 # 2)) = 3%Z /\
  test_count (rnd64 (inject_Z (2 * 3 + 1))) (rnd64 (1 # 2))
  = (if Z.even 3 then 3 else 3 + 1)%Z.
Proof.
  apply (test_count_at_one_half_rounds_ties_to_even 3 (rnd64 (1 # 2))).
  - discriminate.
  - discriminate.
  - reflexivity.
Defined.

End MoreInstances.
